(** * Paper-summary service: response coercion, analysis loop and sessions

    A shallow embedding of the two server variants of the repository
    (the session/SQLite server and the bearer-token serverless server)
    and of the helpers they share.

    JavaScript strings are sequences of UTF-16 code units; a code unit is
    a number below 65536, kept here as an [N].  Values of the language
    that the code handles (the result of [JSON.parse], the summary
    objects) are the inductive type [json].  A thrown exception is the
    [Throw] alternative of [completion]; [try]/[catch] is a match on it. *)

From Stdlib Require Import NArith ZArith List Ascii String Bool Lia.
From stdpp Require Import gmap list.

Set Warnings "-register-all,-abstract-large-number".
Local Open Scope N_scope.

(** ** Strings as code units *)

Definition cu := N.
Definition jsstring := list cu.

(** A literal written with ASCII characters only. *)
Definition lit (s : string) : jsstring :=
  List.map N_of_ascii (list_ascii_of_string s).
Arguments lit s%_string.

Definition LF : cu := 10.
Definition DQUOTE : cu := 34.
Definition SQUOTE : cu := 39.
Definition BACKTICK : cu := 96.
Definition LBRACE : cu := 123.
Definition RBRACE : cu := 125.

Fixpoint drop_while (p : cu -> bool) (s : jsstring) : jsstring :=
  match s with
  | [] => []
  | c :: r => if p c then drop_while p r else s
  end.

(** [starts_with p s] is what follows the prefix [p] of [s], if [s] starts
    with [p]; [expect c s] is the same for one code unit. *)
Fixpoint starts_with (p s : jsstring) : option jsstring :=
  match p, s with
  | [], _ => Some s
  | a :: p', b :: s' => if a =? b then starts_with p' s' else None
  | _ :: _, [] => None
  end.

Definition expect (c : cu) (s : jsstring) : option jsstring :=
  match s with
  | d :: r => if d =? c then Some r else None
  | [] => None
  end.

Definition fence : jsstring := [BACKTICK; BACKTICK; BACKTICK].

(** [WhiteSpace] and [LineTerminator] of ECMAScript: what [trim] removes
    and what [\s] matches. *)
Definition isWhite (c : cu) : bool :=
  (c =? 9) || (c =? 10) || (c =? 11) || (c =? 12) || (c =? 13) || (c =? 32)
  || (c =? 160) || (c =? 5760) || ((8192 <=? c) && (c <=? 8202))
  || (c =? 8232) || (c =? 8233) || (c =? 8239) || (c =? 8287)
  || (c =? 12288) || (c =? 65279).

(** [[a-zA-Z0-9]] under the [i] flag without the [u] flag: canonicalisation
    never maps a code unit of 128 or more to an ASCII one, so the class is
    the ASCII letters and digits. *)
Definition isAlnum (c : cu) : bool :=
  ((48 <=? c) && (c <=? 57)) || ((65 <=? c) && (c <=? 90))
  || ((97 <=? c) && (c <=? 122)).

Definition trimStart (s : jsstring) : jsstring := drop_while isWhite s.
Definition trimEnd (s : jsstring) : jsstring := rev (drop_while isWhite (rev s)).
Definition trim (s : jsstring) : jsstring := trimEnd (trimStart s).

(** [text.replace(/^```[a-zA-Z0-9]*\s*/i, '')] *)
Definition stripLeadingFence (s : jsstring) : jsstring :=
  match starts_with fence s with
  | Some r => drop_while isWhite (drop_while isAlnum r)
  | None => s
  end.

(** [text.replace(/```$/, '')]: without the [m] flag [$] is the end of the
    input only. *)
Definition stripTrailingFence (s : jsstring) : jsstring :=
  match starts_with fence (rev s) with
  | Some r => rev r
  | None => s
  end.

Definition stripCodeFences (text : jsstring) : jsstring :=
  trim (stripTrailingFence (stripLeadingFence (trim text))).

Definition isJ (c : cu) : bool := (c =? 74) || (c =? 106).
Definition isS (c : cu) : bool := (c =? 83) || (c =? 115).
Definition isO (c : cu) : bool := (c =? 79) || (c =? 111).
Definition isN (c : cu) : bool := (c =? 78) || (c =? 110).

(** [text.replace(/^json\s*/i, '').trim()] *)
Definition stripJsonPrefix (text : jsstring) : jsstring :=
  trim
    match text with
    | j :: s :: o :: n :: r =>
        if isJ j && isS s && isO o && isN n then drop_while isWhite r else text
    | _ => text
    end.

(** [indexOf] and [lastIndexOf] of one code unit; [None] is the [-1] of
    the source. *)
Fixpoint indexOf (c : cu) (s : jsstring) : option nat :=
  match s with
  | [] => None
  | d :: r => if d =? c then Some O else option_map S (indexOf c r)
  end.

Fixpoint lastIndexOf (c : cu) (s : jsstring) : option nat :=
  match s with
  | [] => None
  | d :: r =>
      match lastIndexOf c r with
      | Some i => Some (S i)
      | None => if d =? c then Some O else None
      end
  end.

(** [text.slice(start, end)] for [0 <= start], [0 <= end]. *)
Definition slice (s : jsstring) (start stop : nat) : jsstring :=
  take (stop - start) (drop start s).

(** The result is [None] where the source returns [null]. *)
Definition extractJsonBlock (text : jsstring) : option jsstring :=
  match indexOf LBRACE text, lastIndexOf RBRACE text with
  | Some start, Some stop =>
      if (stop <=? start)%nat then None else Some (slice text start (stop + 1))
  | _, _ => None
  end.

Definition isSingleSmart (c : cu) : bool :=
  (c =? 8216) || (c =? 8217) || (c =? 8218) || (c =? 8219)
  || (c =? 8242) || (c =? 8245).

Definition isDoubleSmart (c : cu) : bool :=
  (c =? 8220) || (c =? 8221) || (c =? 8222) || (c =? 8223)
  || (c =? 8243) || (c =? 8246).

Definition normalizeQuotes (text : jsstring) : jsstring :=
  match text with
  | [] => text
  | _ =>
      List.map (fun c => if isDoubleSmart c then DQUOTE else c)
        (List.map (fun c => if isSingleSmart c then SQUOTE else c) text)
  end.

(** [s] has none of the typographic quotes that [normalizeQuotes]
    replaces. *)
Definition plainQuotes (s : jsstring) : Prop :=
  Forall (fun c => isSingleSmart c = false /\ isDoubleSmart c = false) s.

(** ** Values and exceptions *)

(** A JSON number is kept as the exact decimal [± mant * 10 ^ exp10] its
    literal denotes; only its truthiness is ever observed by the code. *)
Record jsnum : Type := mkNum { num_neg : bool; num_mant : N; num_exp10 : Z }.

(** The values [JSON.parse] produces, and the objects the server builds.
    An object is its list of members in the order written; reading a
    property takes the last member of that name, as a later duplicate key
    overwrites an earlier one. *)
Inductive json : Type :=
| JNull
| JBool (b : bool)
| JNumber (n : jsnum)
| JString (s : jsstring)
| JArray (items : list json)
| JObject (members : list (jsstring * json)).

(** What is thrown: a [SyntaxError] by [JSON.parse], an [Error] by the
    collaborators (PDF parser, model client, database), a [TypeError] by
    a method called on a value that does not have it and by the digest
    given something that is no string. *)
Inductive exn : Type :=
| SyntaxError (message : jsstring)
| Error (message : jsstring)
| TypeError (message : jsstring).

Definition message (e : exn) : jsstring :=
  match e with
  | SyntaxError m => m
  | Error m => m
  | TypeError m => m
  end.

Inductive completion (A : Type) : Type :=
| Normal (a : A)
| Throw (e : exn).
Arguments Normal {A} a.
Arguments Throw {A} e.

(** Sequencing: a [Throw] skips the rest, as an exception does.  With the
    two instances the code below is written [x ← c; k]. *)
#[export] Instance completion_ret : MRet completion := fun _ a => Normal a.
#[export] Instance completion_bind : MBind completion := fun _ _ k c =>
  match c with
  | Normal a => k a
  | Throw e => Throw e
  end.

(** The literal rounds to [0] as a double exactly when it is [0] or at most
    half the least subnormal, [2 ^ -1075] (a tie rounds to the even [0]). *)
Definition numIsZero (n : jsnum) : bool :=
  (num_mant n =? 0)
  || ((num_exp10 n <? 0)%Z
      && (Z.of_N (num_mant n) * 2 ^ 1075 <=? 10 ^ (- num_exp10 n))%Z).

(** [ToBoolean] *)
Definition truthy (v : json) : bool :=
  match v with
  | JNull => false
  | JBool b => b
  | JNumber n => negb (numIsZero n)
  | JString s => match s with [] => false | _ => true end
  | JArray _ => true
  | JObject _ => true
  end.

Fixpoint get (k : jsstring) (ms : list (jsstring * json)) : option json :=
  match ms with
  | [] => None
  | (k', v) :: r =>
      match get k r with
      | Some w => Some w
      | None => if decide (k' = k) then Some v else None
      end
  end.

(** ** [JSON.parse]

    The grammar of ECMA-404, as [JSON.parse] applies it to a string: the
    four JSON white-space characters, no trailing commas, no comments.
    Internally a parser returns the value and the unread rest; [Malformed]
    is a syntax error, [Exhausted] is the bound on recursion being reached
    (it never is, see [parse_value_fuel]). *)

Inductive pres (A : Type) : Type :=
| Parsed (a : A) (rest : jsstring)
| Malformed
| Exhausted.
Arguments Parsed {A} a rest.
Arguments Malformed {A}.
Arguments Exhausted {A}.

(** The outcome of a parser when [w] is put after its input and is not
    read. *)
Definition followedBy {A} (w : jsstring) (r : pres A) : pres A :=
  match r with
  | Parsed a rest => Parsed a (rest ++ w)
  | Malformed => Malformed
  | Exhausted => Exhausted
  end.

Definition isJsonWs (c : cu) : bool :=
  (c =? 9) || (c =? 10) || (c =? 13) || (c =? 32).

Definition skip_ws (s : jsstring) : jsstring := drop_while isJsonWs s.

(** [w] consists of JSON white space. *)
Definition allWs (w : jsstring) : Prop := Forall (fun c => isJsonWs c = true) w.

Definition isDigit (c : cu) : bool := (48 <=? c) && (c <=? 57).

Definition hexval (c : cu) : option N :=
  if (48 <=? c) && (c <=? 57) then Some (c - 48)
  else if (65 <=? c) && (c <=? 70) then Some (c - 55)
  else if (97 <=? c) && (c <=? 102) then Some (c - 87)
  else None.

Definition hex4 (a b c d : cu) : option cu :=
  match hexval a, hexval b, hexval c, hexval d with
  | Some x, Some y, Some z, Some w => Some (((x * 16 + y) * 16 + z) * 16 + w)
  | _, _, _, _ => None
  end.

(** The characters of a string after its opening quote, up to and
    including the closing quote. *)
Fixpoint parse_chars (s : jsstring) : option (jsstring * jsstring) :=
  match s with
  | [] => None
  | c :: r =>
      if c =? 34 then Some ([], r)
      else if c =? 92 then
        match r with
        | e :: r1 =>
            let simple (d : cu) :=
              match parse_chars r1 with
              | Some (t, rest) => Some (d :: t, rest)
              | None => None
              end in
            if e =? 34 then simple 34
            else if e =? 92 then simple 92
            else if e =? 47 then simple 47
            else if e =? 98 then simple 8
            else if e =? 102 then simple 12
            else if e =? 110 then simple 10
            else if e =? 114 then simple 13
            else if e =? 116 then simple 9
            else if e =? 117 then
              match r1 with
              | h1 :: h2 :: h3 :: h4 :: r2 =>
                  match hex4 h1 h2 h3 h4, parse_chars r2 with
                  | Some d, Some (t, rest) => Some (d :: t, rest)
                  | _, _ => None
                  end
              | _ => None
              end
            else None
        | [] => None
        end
      else if c <? 32 then None
      else
        match parse_chars r with
        | Some (t, rest) => Some (c :: t, rest)
        | None => None
        end
  end.

Fixpoint take_digits (s : jsstring) : jsstring * jsstring :=
  match s with
  | c :: r =>
      if isDigit c then let '(ds, rest) := take_digits r in (c :: ds, rest)
      else ([], s)
  | [] => ([], [])
  end.

Definition digits_value (ds : jsstring) : N :=
  fold_left (fun acc c => acc * 10 + (c - 48)) ds 0.

(** [frac?]: the digits after a decimal point, none when there is no
    point; [None] when a point is followed by no digit. *)
Definition parse_frac (s : jsstring) : option (jsstring * jsstring) :=
  match expect 46 s with
  | Some r1 =>
      let '(fp, r2) := take_digits r1 in
      match fp with [] => None | _ => Some (fp, r2) end
  | None => Some ([], s)
  end.

Definition parse_sign (s : jsstring) : Z * jsstring :=
  match expect 43 s, expect 45 s with
  | Some r, _ => (1%Z, r)
  | None, Some r => ((-1)%Z, r)
  | None, None => (1%Z, s)
  end.

(** [exp?]: the exponent, [0] when there is none; [None] when [e] or [E]
    is followed by no digit. *)
Definition parse_exp (s : jsstring) : option (Z * jsstring) :=
  match s with
  | e :: r3 =>
      if (e =? 101) || (e =? 69) then
        let '(sgn, r4) := parse_sign r3 in
        let '(ep, r5) := take_digits r4 in
        match ep with
        | [] => None
        | _ => Some ((sgn * Z.of_N (digits_value ep))%Z, r5)
        end
      else Some (0%Z, s)
  | [] => Some (0%Z, s)
  end.

(** [int frac? exp?] after the optional minus sign; an [int] is [0] or
    starts with a digit that is not [0]. *)
Definition parse_unsigned (neg : bool) (s : jsstring) : pres json :=
  let '(ip, r0) := take_digits s in
  match ip with
  | [] => Malformed
  | d0 :: more =>
      if (d0 =? 48) && negb (match more with [] => true | _ => false end)
      then Malformed
      else
        match parse_frac r0 with
        | None => Malformed
        | Some (fp, r2) =>
            match parse_exp r2 with
            | None => Malformed
            | Some (ex, rest) =>
                Parsed
                  (JNumber (mkNum neg (digits_value (ip ++ fp))
                              (ex - Z.of_nat (length fp))))
                  rest
            end
        end
  end.

Definition parse_number (s : jsstring) : pres json :=
  match expect 45 s with
  | Some r => parse_unsigned true r
  | None => parse_unsigned false s
  end.

Fixpoint parse_value (fuel : nat) (s : jsstring) {struct fuel} : pres json :=
  match fuel with
  | O => Exhausted
  | S f =>
      match skip_ws s with
      | [] => Malformed
      | c :: r =>
          if c =? 123 then
            match expect 125 (skip_ws r) with
            | Some r' => Parsed (JObject []) r'
            | None =>
                match parse_members f r with
                | Parsed ms r' => Parsed (JObject ms) r'
                | Malformed => Malformed
                | Exhausted => Exhausted
                end
            end
          else if c =? 91 then
            match expect 93 (skip_ws r) with
            | Some r' => Parsed (JArray []) r'
            | None =>
                match parse_elements f r with
                | Parsed vs r' => Parsed (JArray vs) r'
                | Malformed => Malformed
                | Exhausted => Exhausted
                end
            end
          else if c =? 34 then
            match parse_chars r with
            | Some (t, r') => Parsed (JString t) r'
            | None => Malformed
            end
          else if c =? 116 then
            match starts_with (lit "rue") r with
            | Some r' => Parsed (JBool true) r'
            | None => Malformed
            end
          else if c =? 102 then
            match starts_with (lit "alse") r with
            | Some r' => Parsed (JBool false) r'
            | None => Malformed
            end
          else if c =? 110 then
            match starts_with (lit "ull") r with
            | Some r' => Parsed JNull r'
            | None => Malformed
            end
          else parse_number (c :: r)
      end
  end

with parse_elements (fuel : nat) (s : jsstring) {struct fuel} : pres (list json) :=
  match fuel with
  | O => Exhausted
  | S f =>
      match parse_value f s with
      | Parsed v r =>
          match expect 44 (skip_ws r), expect 93 (skip_ws r) with
          | Some r', _ =>
              match parse_elements f r' with
              | Parsed vs r'' => Parsed (v :: vs) r''
              | Malformed => Malformed
              | Exhausted => Exhausted
              end
          | None, Some r' => Parsed [v] r'
          | None, None => Malformed
          end
      | Malformed => Malformed
      | Exhausted => Exhausted
      end
  end

with parse_members (fuel : nat) (s : jsstring) {struct fuel}
  : pres (list (jsstring * json)) :=
  match fuel with
  | O => Exhausted
  | S f =>
      match expect 34 (skip_ws s) with
      | Some r =>
          match parse_chars r with
          | Some (k, r1) =>
              match expect 58 (skip_ws r1) with
              | Some r2 =>
                  match parse_value f r2 with
                  | Parsed v r3 =>
                      match expect 44 (skip_ws r3), expect 125 (skip_ws r3) with
                      | Some r4, _ =>
                          match parse_members f r4 with
                          | Parsed ms r5 => Parsed ((k, v) :: ms) r5
                          | Malformed => Malformed
                          | Exhausted => Exhausted
                          end
                      | None, Some r4 => Parsed [(k, v)] r4
                      | None, None => Malformed
                      end
                  | Malformed => Malformed
                  | Exhausted => Exhausted
                  end
              | None => Malformed
              end
          | None => Malformed
          end
      | None => Malformed
      end
  end.

Definition parse_fuel (s : jsstring) : nat := 2 * length s + 2.

(** The text of the [SyntaxError] depends on the engine; no code of the
    repository reads it. *)
Definition unexpectedToken : exn := SyntaxError (lit "Unexpected token in JSON").

(** [JSON.parse(text)]: the value, or a [SyntaxError]. *)
Definition JSON_parse (text : jsstring) : completion json :=
  match parse_value (parse_fuel text) text with
  | Parsed v rest =>
      match skip_ws rest with
      | [] => Normal v
      | _ => Throw unexpectedToken
      end
  | _ => Throw unexpectedToken
  end.

(** What a parser that succeeds has read, for the lemmas on the parser:
    text up to and including [c]; for a value, a non-empty prefix of the
    input and, when the value is an object, optional white space and then
    text from [{] to [}]. *)
Definition readsUpTo {A} (c : cu) (s : jsstring) (r : pres A) : Prop :=
  match r with
  | Parsed _ rest => exists pre, s = pre ++ c :: rest
  | _ => True
  end.

Definition value_reads (s : jsstring) (r : pres json) : Prop :=
  match r with
  | Parsed v rest =>
      (exists pre, s = pre ++ rest /\ pre <> [])
      /\ (forall ms, v = JObject ms ->
          exists w body, s = w ++ LBRACE :: body ++ RBRACE :: rest
                         /\ Forall (fun c => isJsonWs c = true) w)
  | _ => True
  end.

(** ** Response coercion *)

(** [try { body } catch (error) { handler }] *)
Definition tryCatch {A} (body : completion A) (handler : exn -> completion A)
  : completion A :=
  match body with
  | Normal a => Normal a
  | Throw e => handler e
  end.

(** The four candidates, in the order of the array literal; a candidate is
    [None] where [extractJsonBlock] returned [null]. *)
Definition candidates (raw : jsstring) : list (option jsstring) :=
  let cleaned := stripCodeFences raw in
  let normalized := normalizeQuotes cleaned in
  let withoutPrefix := stripJsonPrefix normalized in
  [ Some normalized;
    Some withoutPrefix;
    extractJsonBlock normalized;
    extractJsonBlock withoutPrefix ].

(** The [for] loop: a [null] or empty candidate is skipped, a candidate
    that parses is returned at once, [null] is returned at the end. *)
Fixpoint tryCandidates (cs : list (option jsstring)) : completion json :=
  match cs with
  | [] => Normal JNull
  | None :: rest => tryCandidates rest
  | Some [] :: rest => tryCandidates rest
  | Some candidate :: rest =>
      tryCatch (JSON_parse candidate) (fun _ => tryCandidates rest)
  end.

Definition coerceModelJson (raw : jsstring) : completion json :=
  match raw with
  | [] => Normal JNull
  | _ => tryCandidates (candidates raw)
  end.

Definition quoted (s : jsstring) : jsstring := DQUOTE :: s ++ [DQUOTE].

Definition warningSummary : json :=
  JObject
    [(lit "warning",
      JString (lit "Gemini API key is not configured. No summary available."))].

Definition parsingNote : jsstring :=
  lit "Model returned non-JSON text; included raw response instead.".

Definition unparsedSummary (raw : jsstring) : json :=
  JObject
    [(lit "unparsed_summary", JString raw);
     (lit "parsing_note", JString parsingNote)].

(** [text.replace(/\s+/g, ' ')]: [inRun] tells that the previous code unit
    was white space already replaced. *)
Fixpoint collapseSpaces (inRun : bool) (s : jsstring) : jsstring :=
  match s with
  | [] => []
  | c :: r =>
      if isWhite c then
        if inRun then collapseSpaces true r else 32 :: collapseSpaces true r
      else c :: collapseSpaces false r
  end.

Definition condense (rawText : jsstring) : jsstring :=
  take 20000 (trim (collapseSpaces false rawText)).

Definition buildPrompt (rawText : jsstring) : jsstring :=
  lit "Do not respond to any other than the following schema. You are an expert scientific reviewer creating structured notes for a literature review & do not mention yourself in the output. "
  ++ lit "Analyze the following research paper text and respond with STRICT JSON using this schema:" ++ [LF]
  ++ lit "{" ++ quoted (lit "concise_summary") ++ lit ": string, "
  ++ quoted (lit "key_points") ++ lit ": [string], "
  ++ quoted (lit "novelty") ++ lit ": string, "
  ++ quoted (lit "limitations") ++ lit ": string, "
  ++ quoted (lit "next_questions") ++ lit ": [string]}" ++ [LF]
  ++ lit "Text: " ++ [DQUOTE; DQUOTE; DQUOTE] ++ condense rawText
  ++ [DQUOTE; DQUOTE; DQUOTE].

(** What [summarizeForReview] does once the reply of the model is there:
    trim it, coerce it, and fall back to the unparsed summary when the
    coerced value is falsy. *)
Definition summaryFromReply (reply : jsstring) : completion json :=
  let raw := trim reply in
  parsed ← coerceModelJson raw;
  if truthy parsed then mret parsed else mret (unparsedSummary raw).

(** [reviewModel] is [None] when no API key is configured; otherwise it is
    the call [generateContent(...)] followed by [response.text()], which
    gives the reply or throws. *)
Definition summarizeForReview
    (reviewModel : option (jsstring -> completion jsstring))
    (rawText : jsstring) : completion json :=
  match reviewModel with
  | None => mret warningSummary
  | Some generate =>
      reply ← generate (buildPrompt rawText);
      summaryFromReply reply
  end.

(** The ladder in the words of the specification: the candidates are
    tried in order and the first that parses gives the result. *)
Fixpoint firstParsed (cs : list (option jsstring)) : option json :=
  match cs with
  | [] => None
  | None :: rest => firstParsed rest
  | Some candidate :: rest =>
      match JSON_parse candidate with
      | Normal v => Some v
      | Throw _ => firstParsed rest
      end
  end.

(** The schema asked of the model:
    [{concise_summary: string, key_points: [string], novelty: string,
      limitations: string, next_questions: [string]}]. *)
Definition isString (v : json) : bool :=
  match v with JString _ => true | _ => false end.

Definition isStringArray (v : json) : bool :=
  match v with JArray items => forallb isString items | _ => false end.

Definition hasField (p : json -> bool) (k : jsstring) (ms : list (jsstring * json)) : bool :=
  match get k ms with Some v => p v | None => false end.

Definition isSummaryObject (v : json) : bool :=
  match v with
  | JObject ms =>
      hasField isString (lit "concise_summary") ms
      && hasField isStringArray (lit "key_points") ms
      && hasField isString (lit "novelty") ms
      && hasField isString (lit "limitations") ms
      && hasField isStringArray (lit "next_questions") ms
  | _ => false
  end.

Definition isObject (v : json) : bool :=
  match v with JObject _ => true | _ => false end.

(** A summary failure of the form [{unparsed_summary, parsing_note}]. *)
Definition isUnparsedSummary (v : json) : Prop :=
  exists raw, v = unparsedSummary raw.

(** A reply wrapped in a fenced code block tagged [json]:
    [```json], a line feed, the text, a line feed, [```]. *)
Definition fenced (text : jsstring) : jsstring :=
  fence ++ lit "json" ++ [LF] ++ text ++ [LF] ++ fence.

(** ** HTTP replies *)

(** [res.json(body)] is [Sent 200 body]; [res.status(n).json({error})] is
    [Refused n error]. *)
Inductive reply (A : Type) : Type :=
| Sent (status : nat) (body : A)
| Refused (status : nat) (error : jsstring).
Arguments Sent {A} status body.
Arguments Refused {A} status error.

(** [a || b] on strings: the empty string is falsy. *)
Definition orElse (a b : jsstring) : jsstring :=
  match a with [] => b | _ => a end.

(** ** Analysis of the uploaded files *)

Record UploadedFile : Type := mkFile {
  originalname : jsstring;
  mimetype : jsstring;
  buffer : list N
}.

(** What [parser.getText()] resolves to; [pdf_pages] is [pages.length]. *)
Record PdfText : Type := mkPdfText {
  pdf_text : option jsstring;
  pdf_total : option nat;
  pdf_pages : option nat
}.

(** One entry of [results].  A field that the object literal does not
    have, or whose value is [undefined], is [None]. *)
Record AnalysisResult : Type := mkResult {
  id : jsstring;
  originalName : jsstring;
  status : option jsstring;
  error : option jsstring;
  pages : option nat;
  textContent : option jsstring;
  textFileName : option jsstring;
  characters : option nat;
  summary : option json
}.

Record AnalyzeBody : Type := mkAnalyzeBody {
  generatedAt : jsstring;
  totalPapers : nat;
  results : list AnalysisResult
}.

(** The two servers: the one with sessions and a database, and the
    serverless one with bearer tokens. *)
Inductive variant : Type := SessionServer | TokenServer.

Definition asciiLower (c : cu) : cu :=
  if (65 <=? c) && (c <=? 90) then c + 32 else c.

Definition isFileNameChar (c : cu) : bool :=
  isAlnum c || (c =? 45) || (c =? 95) || (c =? 46).

(** [text.replace(/-+/g, '-')]: [inRun] tells that the previous code unit
    was a dash already written. *)
Fixpoint collapseDashes (inRun : bool) (s : jsstring) : jsstring :=
  match s with
  | [] => []
  | c :: r =>
      if c =? 45 then
        if inRun then collapseDashes true r else 45 :: collapseDashes true r
      else c :: collapseDashes false r
  end.

(** [text.replace(/^-|-$/g, '')] *)
Definition stripEdgeDashes (s : jsstring) : jsstring :=
  let s1 := match expect 45 s with Some r => r | None => s end in
  match expect 45 (rev s1) with Some r => rev r | None => s1 end.

Section Analysis.
(** The collaborators: the PDF parser, the model client ([None] without
    an API key), [path.parse(...).name], [String.prototype.toLowerCase],
    the successive results of [crypto.randomUUID()], and the time
    [new Date().toISOString()] gives when the reply is sent. *)
Variable getText : list N -> completion PdfText.
Variable reviewModel : option (jsstring -> completion jsstring).
Variable pathParseName : jsstring -> jsstring.
Variable toLowerCase : jsstring -> jsstring.
Variable randomUUID : nat -> jsstring.
Variable now : jsstring.
(** [res.json(body)] for the body of the reply: it serializes the body
    with [JSON.stringify], which throws a [RangeError] when a value is
    nested deeper than the stack of the engine allows. *)
Variable resJson : AnalyzeBody -> completion unit.

Definition truthyNat (o : option nat) : option nat :=
  match o with
  | Some (S n) => Some (S n)
  | _ => None
  end.

(** [parser.destroy()] runs on both paths and does not change the
    outcome; an exception of [getText] is thrown again. *)
Definition extractTextFromPdf (buf : list N) : completion (jsstring * option nat) :=
  tryCatch
    (result ← getText buf;
     mret (orElse (default [] (pdf_text result)) [],
           match truthyNat (pdf_total result) with
           | Some n => Some n
           | None => truthyNat (pdf_pages result)
           end))
    (fun error => Throw error).

Definition sanitizeFileName (name : jsstring) : jsstring :=
  orElse
    (toLowerCase
       (stripEdgeDashes
          (collapseDashes false
             (List.map (fun c => if isFileNameChar c then c else 45) name))))
    (lit "paper").

Definition failedResult (uuid : jsstring) (file : UploadedFile) (reason : jsstring)
  : AnalysisResult :=
  {| id := uuid;
     originalName := originalname file;
     status := Some (lit "failed");
     error := Some reason;
     pages := None;
     textContent := None;
     textFileName := None;
     characters := None;
     summary := None |}.

(** The text the loop works on, when extraction succeeds. *)
Definition trimmedTextOf (file : UploadedFile) : option jsstring :=
  match getText (buffer file) with
  | Normal t => Some (trim (orElse (default [] (pdf_text t)) []))
  | Throw _ => None
  end.

(** The body of the [for] loop for one file, with its [try]/[catch];
    [uuid] is the identifier drawn for the entry that is pushed. *)
Definition analyzeFile (v : variant) (uuid : jsstring) (file : UploadedFile)
  : completion AnalysisResult :=
  tryCatch
    (extracted ← extractTextFromPdf (buffer file);
     let trimmedText := trim (fst extracted) in
     match trimmedText with
     | [] =>
         mret (failedResult uuid file (lit "No textual content detected in PDF."))
     | _ =>
         let safeName := sanitizeFileName (pathParseName (originalname file)) in
         let name := orElse safeName (lit "paper") ++ lit ".txt" in
         s ← summarizeForReview reviewModel trimmedText;
         mret {| id := uuid;
                 originalName := originalname file;
                 status := None;
                 error := None;
                 pages := snd extracted;
                 textContent := Some trimmedText;
                 textFileName :=
                   match v with SessionServer => Some name | TokenServer => None end;
                 characters := Some (length trimmedText);
                 summary := Some s |}
     end)
    (fun e =>
       mret (failedResult uuid file (orElse (message e) (lit "Failed to parse PDF")))).

(** The loop: [n] draws of [randomUUID] were made before, [acc] is the
    array [results] so far. *)
Fixpoint analyzeLoop (v : variant) (n : nat) (files : list UploadedFile)
    (acc : list AnalysisResult) : completion (list AnalysisResult) :=
  match files with
  | [] => mret acc
  | file :: rest =>
      r ← analyzeFile v (randomUUID n) file;
      analyzeLoop v (S n) rest (acc ++ [r])
  end.

(** The handler of [POST /api/analyze], reached after [requireAuth] and
    the upload filter; [files] is [req.files].  The loop and [res.json]
    are inside the outer [try]: what either throws is answered with
    status 500. *)
Definition analyze (v : variant) (n : nat) (files : list UploadedFile)
  : reply AnalyzeBody :=
  match files with
  | [] => Refused 400 (lit "Please upload at least one PDF file.")
  | _ =>
      match
        rs ← analyzeLoop v n files [];
        let body := {| generatedAt := now; totalPapers := length rs; results := rs |} in
        _ ← resJson body;
        mret body
      with
      | Normal body => Sent 200 body
      | Throw _ => Refused 500 (lit "Unexpected server error. Check logs for details.")
      end
  end.
End Analysis.

(** ** Accounts and sessions *)

(** The body of a signup or login request whose fields are strings,
    after the defaults [name = '', email = '', password = '']; the login
    handlers on a body with fields of any kind are [tokenLoginJson] and
    [sessionLoginJson] below. *)
Record Credentials : Type := mkCredentials {
  c_name : jsstring;
  c_email : jsstring;
  c_password : jsstring
}.

(** [{id, name, email}]: what a session holds and what a reply shows. *)
Record Identity : Type := mkIdentity {
  i_id : jsstring;
  i_name : jsstring;
  i_email : jsstring
}.

Record AuthBody : Type := mkAuthBody {
  a_user : Identity;
  a_token : option jsstring;
  a_redirect : jsstring
}.

Definition invalidLogin : jsstring := lit "Invalid email or password.".

Section Accounts.
(** [String.prototype.toLowerCase] and the SHA-256 digest in hexadecimal
    of [hashPassword]. *)
Variable toLowerCase : jsstring -> jsstring.
Variable hashPassword : jsstring -> jsstring.

Definition normalizeEmail (email : jsstring) : jsstring :=
  toLowerCase (trim email).

(** [!email || !password || password.length < 6] *)
Definition badSignup (body : Credentials) : bool :=
  match c_email body, c_password body with
  | [], _ => true
  | _, [] => true
  | _, p => (length p <? 6)%nat
  end.

(** *** The serverless server: one [Map] for users and tokens *)

(** A value of [userStore]: a user record, stored under the e-mail, has a
    [passwordHash]; the record stored under a token has none. *)
Record Entry : Type := mkEntry {
  e_id : jsstring;
  e_name : jsstring;
  e_email : jsstring;
  e_passwordHash : option jsstring
}.

Definition identityOf (u : Entry) : Identity :=
  {| i_id := e_id u; i_name := e_name u; i_email := e_email u |}.

Definition sessionEntry (u : Entry) : Entry :=
  {| e_id := e_id u; e_name := e_name u; e_email := e_email u;
     e_passwordHash := None |}.

(** The outcome of the middleware: the request goes on with [req.user]
    set, or is answered at once. *)
Inductive admission : Type :=
| Next (user : Entry)
| Stop (status : nat) (error : jsstring).

Definition tokenRequireAuth (userStore : gmap jsstring Entry)
    (authorization : option jsstring) : admission :=
  match authorization with
  | None | Some [] => Stop 401 (lit "Authentication required")
  | Some authHeader =>
      match starts_with (lit "Bearer ") authHeader with
      | None => Stop 401 (lit "Authentication required")
      | Some _ =>
          let token := drop 7 authHeader in
          match userStore !! token with
          | None => Stop 401 (lit "Invalid token")
          | Some user => Next user
          end
      end
  end.

(** [uuid] and [token] are what [crypto.randomUUID()] and
    [crypto.randomBytes(32).toString('hex')] give in this call. *)
Definition tokenSignup (userStore : gmap jsstring Entry) (body : Credentials)
    (uuid token : jsstring) : reply AuthBody * gmap jsstring Entry :=
  if badSignup body then
    (Refused 400
       (lit "Provide a valid email and a password with at least 6 characters."),
     userStore)
  else
    let normalizedEmail := normalizeEmail (c_email body) in
    match userStore !! normalizedEmail with
    | Some _ =>
        (Refused 409 (lit "Email already registered. Please sign in."), userStore)
    | None =>
        let user :=
          {| e_id := uuid;
             e_name := orElse (trim (c_name body)) (lit "Guest");
             e_email := normalizedEmail;
             e_passwordHash := Some (hashPassword (c_password body)) |} in
        (Sent 200 {| a_user := identityOf user; a_token := Some token;
                     a_redirect := lit "/app.html" |},
         <[token := sessionEntry user]> (<[normalizedEmail := user]> userStore))
    end.

Definition tokenLogin (userStore : gmap jsstring Entry) (body : Credentials)
    (token : jsstring) : reply AuthBody * gmap jsstring Entry :=
  let normalizedEmail := normalizeEmail (c_email body) in
  match userStore !! normalizedEmail with
  | None => (Refused 401 invalidLogin, userStore)
  | Some user =>
      if decide (e_passwordHash user = Some (hashPassword (c_password body))) then
        (Sent 200 {| a_user := identityOf user; a_token := Some token;
                     a_redirect := lit "/app.html" |},
         <[token := sessionEntry user]> userStore)
      else (Refused 401 invalidLogin, userStore)
  end.

(** [res.json({ success: true })]: the store is not touched. *)
Definition tokenLogout (userStore : gmap jsstring Entry)
  : reply bool * gmap jsstring Entry :=
  (Sent 200 true, userStore).

(** *** The server with a database and cookie sessions *)

(** A row of the table [users]. *)
Record Row : Type := mkRow {
  r_id : jsstring;
  r_name : jsstring;
  r_email : jsstring;
  r_password_hash : jsstring
}.

(** What a [TEXT] column holds of a string that is bound to a statement,
    and gives back: the engine keeps the text as UTF-8, so a surrogate
    code unit without its partner comes back as [U+FFFD]; every other
    code unit comes back as it is. *)
Definition isHighSurrogate (c : cu) : bool := (55296 <=? c) && (c <=? 56319).
Definition isLowSurrogate (c : cu) : bool := (56320 <=? c) && (c <=? 57343).

Fixpoint sqlText (s : jsstring) : jsstring :=
  match s with
  | [] => []
  | c :: r =>
      if isHighSurrogate c then
        match r with
        | d :: r' => if isLowSurrogate d then c :: d :: sqlText r' else 65533 :: sqlText r
        | [] => [65533]
        end
      else if isLowSurrogate c then 65533 :: sqlText r
      else c :: sqlText r
  end.

(** An error as the [sqlite3] module reports it: an [Error] with a
    [code]. *)
Record DbError : Type := mkDbError {
  err_code : jsstring;
  err_message : jsstring
}.

(** [reject(err)]: the error is passed on as it is. *)
Definition rejected (err : DbError) : exn := Error (err_message err).

(** What the module reports for a row that breaks [PRIMARY KEY] or
    [UNIQUE]: the result code of the engine, [SQLITE_CONSTRAINT], and the
    message of the engine, which names the column. *)
Definition constraintFailed (column : jsstring) : DbError :=
  {| err_code := lit "SQLITE_CONSTRAINT";
     err_message := lit "SQLITE_CONSTRAINT: UNIQUE constraint failed: users." ++ column |}.

(** The table, and the error the engine reports for every statement when
    it is out of order ([None] when it works). *)
Record Database : Type := mkDatabase {
  rows : list Row;
  fault : option DbError
}.

(** [SELECT * FROM users WHERE email = ?]: the text bound to [?] is
    compared with the text of the column. *)
Definition getUserByEmail (db : Database) (email : jsstring)
  : completion (option Row) :=
  match fault db with
  | Some err => Throw (rejected err)
  | None =>
      Normal (List.find (fun r => bool_decide (r_email r = sqlText email)) (rows db))
  end.

(** The row as the table keeps it. *)
Definition storedRow (userData : Row) : Row :=
  {| r_id := sqlText (r_id userData);
     r_name := sqlText (r_name userData);
     r_email := sqlText (r_email userData);
     r_password_hash := sqlText (r_password_hash userData) |}.

(** [stmt.run(...)] of the [INSERT INTO users ...]: the error, if any,
    and the table afterwards.  [id] is the primary key and [email] is
    [UNIQUE]. *)
Definition insertUser (db : Database) (userData : Row) : option DbError * Database :=
  match fault db with
  | Some err => (Some err, db)
  | None =>
      if existsb (fun r => bool_decide (r_id r = sqlText (r_id userData))) (rows db)
      then (Some (constraintFailed (lit "id")), db)
      else if existsb (fun r => bool_decide (r_email r = sqlText (r_email userData)))
                (rows db)
      then (Some (constraintFailed (lit "email")), db)
      else
        (None, {| rows := rows db ++ [storedRow userData]; fault := fault db |})
  end.

(** [createUser]: an error whose code is [SQLITE_CONSTRAINT_UNIQUE] is
    turned into [Email already registered], any other error is passed on
    as it is; without an error the promise resolves to [{id, name,
    email}] as they were passed in. *)
Definition createUser (db : Database) (userData : Row)
  : completion Identity * Database :=
  match insertUser db userData with
  | (Some err, db') =>
      if decide (err_code err = lit "SQLITE_CONSTRAINT_UNIQUE")
      then (Throw (Error (lit "Email already registered")), db')
      else (Throw (rejected err), db')
  | (None, db') =>
      (Normal {| i_id := r_id userData; i_name := r_name userData;
                 i_email := r_email userData |},
       db')
  end.

(** The state of the server: the database and the session store of
    [express-session], which maps the identifier carried by the cookie
    to the session data.  With [saveUninitialized: false] a session is
    stored once [req.session.user] has been set, so a stored session is
    the identity it holds.  A request whose cookie names no stored
    session gets a new session under a new identifier. *)
Record Server : Type := mkServer {
  db : Database;
  sessions : gmap jsstring Identity
}.

(** [req.session.user] *)
Definition sessionUser (srv : Server) (cookie : option jsstring) : option Identity :=
  match cookie with
  | Some sid => sessions srv !! sid
  | None => None
  end.

Definition sessionId (srv : Server) (cookie : option jsstring) (freshSid : jsstring)
  : jsstring :=
  match cookie with
  | Some sid => if decide (is_Some (sessions srv !! sid)) then sid else freshSid
  | None => freshSid
  end.

Definition sessionRequireAuth (srv : Server) (cookie : option jsstring)
  : option (nat * jsstring) :=
  match sessionUser srv cookie with
  | Some _ => None
  | None => Some (401%nat, lit "Authentication required")
  end.

Definition setSessionUser (srv : Server) (cookie : option jsstring)
    (freshSid : jsstring) (user : Identity) : Server :=
  {| db := db srv;
     sessions := <[sessionId srv cookie freshSid := user]> (sessions srv) |}.

(** The [catch] of the signup handler. *)
Definition signupCatch (e : exn) : reply AuthBody :=
  if decide (message e = lit "Email already registered")
  then Refused 409 (lit "Email already registered. Please sign in.")
  else Refused 500 (lit "Failed to create account. Please try again.").

Definition sessionSignup (srv : Server) (cookie : option jsstring)
    (body : Credentials) (uuid freshSid : jsstring) : reply AuthBody * Server :=
  if badSignup body then
    (Refused 400
       (lit "Provide a valid email and a password with at least 6 characters."),
     srv)
  else
    let normalizedEmail := normalizeEmail (c_email body) in
    match getUserByEmail (db srv) normalizedEmail with
    | Throw e => (signupCatch e, srv)
    | Normal (Some _) =>
        (Refused 409 (lit "Email already registered. Please sign in."), srv)
    | Normal None =>
        let user :=
          {| r_id := uuid;
             r_name := orElse (trim (c_name body)) (lit "Guest");
             r_email := normalizedEmail;
             r_password_hash := hashPassword (c_password body) |} in
        match createUser (db srv) user with
        | (Normal createdUser, db') =>
            (Sent 200 {| a_user := createdUser; a_token := None;
                         a_redirect := lit "/app.html" |},
             setSessionUser {| db := db'; sessions := sessions srv |}
               cookie freshSid createdUser)
        | (Throw e, db') =>
            (signupCatch e, {| db := db'; sessions := sessions srv |})
        end
    end.

Definition sessionLogin (srv : Server) (cookie : option jsstring)
    (body : Credentials) (freshSid : jsstring) : reply AuthBody * Server :=
  let normalizedEmail := normalizeEmail (c_email body) in
  match getUserByEmail (db srv) normalizedEmail with
  | Throw _ => (Refused 500 (lit "Login failed. Please try again."), srv)
  | Normal None => (Refused 401 invalidLogin, srv)
  | Normal (Some user) =>
      if decide (r_password_hash user = hashPassword (c_password body)) then
        let identity :=
          {| i_id := r_id user; i_name := r_name user; i_email := r_email user |} in
        (Sent 200 {| a_user := identity; a_token := None;
                     a_redirect := lit "/app.html" |},
         setSessionUser srv cookie freshSid identity)
      else (Refused 401 invalidLogin, srv)
  end.

(** [requireAuth], then [req.session.destroy(...)], which removes the
    session from the store, then [res.json({ success: true })]. *)
Definition sessionLogout (srv : Server) (cookie : option jsstring)
  : reply bool * Server :=
  match sessionRequireAuth srv cookie with
  | Some (code, msg) => (Refused code msg, srv)
  | None =>
      (Sent 200 true,
       {| db := db srv;
          sessions := match cookie with
                      | Some sid => delete sid (sessions srv)
                      | None => sessions srv
                      end |})
  end.
End Accounts.

(** The reply of the round-trip example of the specification:
    [{"concise_summary":"x","key_points":["a"],"novelty":"n",
      "limitations":"l","next_questions":["q"]}]. *)
Definition exampleSummaryText : jsstring :=
  lit "{" ++ quoted (lit "concise_summary") ++ lit ":" ++ quoted (lit "x")
  ++ lit "," ++ quoted (lit "key_points") ++ lit ":[" ++ quoted (lit "a") ++ lit "]"
  ++ lit "," ++ quoted (lit "novelty") ++ lit ":" ++ quoted (lit "n")
  ++ lit "," ++ quoted (lit "limitations") ++ lit ":" ++ quoted (lit "l")
  ++ lit "," ++ quoted (lit "next_questions") ++ lit ":[" ++ quoted (lit "q") ++ lit "]}".

Definition exampleSummary : json :=
  JObject
    [(lit "concise_summary", JString (lit "x"));
     (lit "key_points", JArray [JString (lit "a")]);
     (lit "novelty", JString (lit "n"));
     (lit "limitations", JString (lit "l"));
     (lit "next_questions", JArray [JString (lit "q")])].

(** The failing login, in the words of the specification: the e-mail is not
    registered, or it is and the hash of the password differs. *)
Definition tokenLoginFails (toLowerCase hashPassword : jsstring -> jsstring)
    (userStore : gmap jsstring Entry) (body : Credentials) : Prop :=
  userStore !! normalizeEmail toLowerCase (c_email body) = None
  \/ exists user,
       userStore !! normalizeEmail toLowerCase (c_email body) = Some user
       /\ e_passwordHash user <> Some (hashPassword (c_password body)).

Definition sessionLoginFails (toLowerCase hashPassword : jsstring -> jsstring)
    (srv : Server) (body : Credentials) : Prop :=
  getUserByEmail (db srv) (normalizeEmail toLowerCase (c_email body)) = Normal None
  \/ exists user,
       getUserByEmail (db srv) (normalizeEmail toLowerCase (c_email body))
       = Normal (Some user)
       /\ r_password_hash user <> hashPassword (c_password body).

(** The four states of an entry of [results].  The state of a summary is
    told by how it came about: no model configured, a truthy value coerced
    from the reply, or the fallback for a reply that coerces to a falsy
    value.  A value coerced from a reply is a summary object of the schema
    only when the model kept to the schema. *)
Inductive resultState : Type :=
| ExtractionFailed
| WarningSummary
| ParsedSummary
| UnparsedSummary.

Definition succeeded (r : AnalysisResult) : Prop :=
  status r = None /\ error r = None.

Definition inState (reviewModel : option (jsstring -> completion jsstring))
    (r : AnalysisResult) (st : resultState) : Prop :=
  match st with
  | ExtractionFailed =>
      status r = Some (lit "failed")
      /\ (exists reason, error r = Some reason) /\ summary r = None
  | WarningSummary =>
      succeeded r /\ reviewModel = None /\ summary r = Some warningSummary
  | ParsedSummary =>
      succeeded r
      /\ exists generate text reply v,
           reviewModel = Some generate /\ textContent r = Some text
           /\ generate (buildPrompt text) = Normal reply
           /\ coerceModelJson (trim reply) = Normal v
           /\ truthy v = true /\ summary r = Some v
  | UnparsedSummary =>
      succeeded r
      /\ exists generate text reply v,
           reviewModel = Some generate /\ textContent r = Some text
           /\ generate (buildPrompt text) = Normal reply
           /\ coerceModelJson (trim reply) = Normal v
           /\ truthy v = false /\ summary r = Some (unparsedSummary (trim reply))
  end.

(** ** A sample run: three uploads, the second not a PDF *)

Definition sampleGetText (buf : list N) : completion PdfText :=
  match buf with
  | [2] => Throw (Error (lit "Invalid PDF structure."))
  | _ =>
      Normal {| pdf_text := Some (lit " Deep learning for proofs. ");
                pdf_total := Some 12%nat; pdf_pages := None |}
  end.

Definition sampleModel (prompt : jsstring) : completion jsstring :=
  Normal (fenced exampleSummaryText).

Definition sampleUUID (n : nat) : jsstring := lit "uuid-" ++ [48 + N.of_nat n].

Definition sampleFiles : list UploadedFile :=
  [ mkFile (lit "a.pdf") (lit "application/pdf") [1];
    mkFile (lit "b.pdf") (lit "application/pdf") [2];
    mkFile (lit "c.pdf") (lit "application/pdf") [3] ].

Definition sampleNow : jsstring := lit "2024-01-01T00:00:00.000Z".

(** A [res.json] that serializes every body. *)
Definition sampleResJson (body : AnalyzeBody) : completion unit := Normal tt.

(** [path.parse(name).name] and [toLowerCase] on the names of the sample:
    the name without its [.pdf], and the lower case of ASCII letters. *)
Definition sampleBaseName (name : jsstring) : jsstring :=
  match starts_with (rev (lit ".pdf")) (rev name) with
  | Some r => rev r
  | None => name
  end.

Definition sampleLower (s : jsstring) : jsstring := List.map asciiLower s.

(** ** A sample account *)

(** A stand-in for the digest, for runs on sample data. *)
Definition sampleHash (password : jsstring) : jsstring := lit "sha256:" ++ password.

Definition ann : Credentials :=
  {| c_name := lit "Ann"; c_email := lit " Ann@Example.org "; c_password := lit "secret1" |}.

Definition annWrongPassword : Credentials :=
  {| c_name := []; c_email := lit "ann@example.org"; c_password := lit "guess99" |}.

Definition stranger : Credentials :=
  {| c_name := []; c_email := lit "bob@example.org"; c_password := lit "guess99" |}.

Definition annUUID : jsstring := lit "3f2c9e1a-0000-4000-8000-000000000001".
Definition annToken : jsstring := lit "9c1d5b7e".

(** The store of the serverless server after Ann signed up. *)
Definition storeWithAnn : gmap jsstring Entry :=
  snd (tokenSignup sampleLower sampleHash ∅ ann annUUID annToken).

(** The server with sessions after Ann signed up with no cookie, her
    session stored under [sid-1]. *)
Definition serverWithAnn : Server :=
  snd (sessionSignup sampleLower sampleHash
         {| db := {| rows := []; fault := None |}; sessions := ∅ |}
         None ann annUUID (lit "sid-1")).

(** ** Definitions for the further properties *)

(** What [normalizeQuotes] does to one code unit. *)
Definition normalizeQuote (c : cu) : cu :=
  let c1 := if isSingleSmart c then SQUOTE else c in
  if isDoubleSmart c1 then DQUOTE else c1.

(** [r] is a run of consecutive code units of [s]. *)
Definition partOf (r s : jsstring) : Prop := exists a b, s = a ++ r ++ b.

(** [s] neither starts nor ends with white space. *)
Definition tight (s : jsstring) : Prop :=
  (forall c r, s = c :: r -> isWhite c = false)
  /\ (forall c r, s = r ++ [c] -> isWhite c = false).


(** The shape [collapseSpaces] and [collapseDashes] share: every run of
    code units in the class [p] becomes the one code unit [rep]. *)
Fixpoint collapseRuns (p : cu -> bool) (rep : cu) (inRun : bool) (s : jsstring)
  : jsstring :=
  match s with
  | [] => []
  | c :: r =>
      if p c then
        if inRun then collapseRuns p rep true r else rep :: collapseRuns p rep true r
      else c :: collapseRuns p rep false r
  end.

(** No two neighbours of [s] are both in the class [p]; with [after] set,
    [s] moreover does not start in the class. *)
Fixpoint noRun (p : cu -> bool) (after : bool) (s : jsstring) : bool :=
  match s with
  | [] => true
  | c :: r => if p c then negb after && noRun p true r else noRun p false r
  end.

Definition isDash (c : cu) : bool := c =? 45.


(** The code units a sanitized file name is made of: lower-case ASCII
    letters, digits, dash, underscore and dot. *)
Definition isSafeNameChar (c : cu) : bool :=
  ((97 <=? c) && (c <=? 122)) || ((48 <=? c) && (c <=? 57))
  || (c =? 45) || (c =? 95) || (c =? 46).

(** [SELECT id, name, email FROM users WHERE id = ?] *)
Definition getUserById (db : Database) (uid : jsstring) : completion (option Identity) :=
  match fault db with
  | Some err => Throw (rejected err)
  | None =>
      Normal
        (match List.find (fun r => bool_decide (r_id r = sqlText uid)) (rows db) with
         | Some r => Some {| i_id := r_id r; i_name := r_name r; i_email := r_email r |}
         | None => None
         end)
  end.

(** [GET /session] of the server with sessions. *)
Definition getSession (srv : Server) (cookie : option jsstring) : reply Identity :=
  match sessionUser srv cookie with
  | Some user => Sent 200 user
  | None => Refused 401 (lit "Not authenticated")
  end.

Definition rowIdentity (r : Row) : Identity :=
  {| i_id := r_id r; i_name := r_name r; i_email := r_email r |}.

(** ** The export of the summaries and the list of files of the client *)

(** The class [[\[\]\*\/\\\?\:\.]]: the characters a sheet title may not
    hold, and the dot. *)
Definition isSheetForbidden (c : cu) : bool :=
  (c =? 91) || (c =? 93) || (c =? 42) || (c =? 47) || (c =? 92) || (c =? 63)
  || (c =? 58) || (c =? 46).

Definition sheetChar (c : cu) : bool := negb (isSheetForbidden c).

(** [name.replace(/[\[\]\*\/\\\?\:\.]/g, '').slice(0, 30) || 'Sheet'] *)
Definition sanitizeSheetTitle (name : jsstring) : jsstring :=
  orElse (take 30 (List.filter sheetChar name)) (lit "Sheet").

(** [array.slice(0, end)] of JavaScript: a negative [end] counts from the
    end of the array. *)
Definition sliceTo {A} (l : list A) (finish : Z) : list A :=
  let len := Z.of_nat (length l) in
  let final := if (finish <? 0)%Z then Z.max (len + finish) 0 else Z.min finish len in
  take (Z.to_nat final) l.

(** [handleFiles] of the client: [files] is the list shown on the page. *)
Definition handleFiles {A} (files selectedFiles : list A) : list A :=
  let limitedFiles := sliceTo selectedFiles (5 - Z.of_nat (length files))%Z in
  files ++ limitedFiles.

(** [files.splice(index, 1)], the handler of a [Remove] button. *)
Definition removeFile {A} (files : list A) (index : nat) : list A :=
  take index files ++ drop (S index) files.

(** What the user does to the list: files are chosen or dropped, or the
    [Remove] button of an entry is pressed. *)
Inductive fileEvent (A : Type) : Type :=
| Selected (selectedFiles : list A)
| Removed (index : nat).
Arguments Selected {A} selectedFiles.
Arguments Removed {A} index.

Definition fileStep {A} (files : list A) (e : fileEvent A) : list A :=
  match e with
  | Selected selectedFiles => handleFiles files selectedFiles
  | Removed index => removeFile files index
  end.

(** The list after a series of events, starting from [let files = []]. *)
Definition filesAfter {A} (events : list (fileEvent A)) : list A :=
  fold_left fileStep events [].

(** ** A login request as it arrives

    [express.json()] hands the handler the JSON value of the request, so
    a field of the body is any JSON value, or absent; [req.body || {}]
    and the destructuring read a field of anything that is no object as
    absent. *)
Definition field (body : json) (k : jsstring) : option json :=
  match body with
  | JObject members => get k members
  | _ => None
  end.

(** The body whose fields are the strings of [c]. *)
Definition bodyOf (c : Credentials) : json :=
  JObject [(lit "name", JString (c_name c));
           (lit "email", JString (c_email c));
           (lit "password", JString (c_password c))].

(** The texts of the two [TypeError]s depend on the engine; no code of
    the repository reads them. *)
Definition notAFunction : exn := TypeError (lit "email.trim is not a function").
Definition invalidArgType : exn :=
  TypeError (lit "The data argument must be of type string or a Buffer").

Section Requests.
Variable toLowerCase : jsstring -> jsstring.
Variable hashPassword : jsstring -> jsstring.

(** [normalizeEmail(email)]: only a string has the method [trim]. *)
Definition normalizeEmailOf (email : json) : completion jsstring :=
  match email with
  | JString s => Normal (normalizeEmail toLowerCase s)
  | _ => Throw notAFunction
  end.

(** [hashPassword(password)]: [update] of the digest takes a string (or a
    buffer, which no JSON value is) and throws on anything else. *)
Definition hashPasswordOf (password : json) : completion jsstring :=
  match password with
  | JString s => Normal (hashPassword s)
  | _ => Throw invalidArgType
  end.

(** The handler of [POST /sessions/login] of the serverless server on the
    body as it arrives.  The handler has no [try]: what it throws goes to
    the error middleware of the application.  [!user || ...] asks for the
    digest only when the e-mail is in the store. *)
Definition tokenLoginJson (userStore : gmap jsstring Entry) (body : json)
    (token : jsstring) : completion (reply AuthBody * gmap jsstring Entry) :=
  let email := default (JString []) (field body (lit "email")) in
  let password := default (JString []) (field body (lit "password")) in
  normalizedEmail ← normalizeEmailOf email;
  match userStore !! normalizedEmail with
  | None => mret (Refused 401 invalidLogin, userStore)
  | Some user =>
      digest ← hashPasswordOf password;
      if decide (e_passwordHash user = Some digest) then
        mret (Sent 200 {| a_user := identityOf user; a_token := Some token;
                          a_redirect := lit "/app.html" |},
              <[token := sessionEntry user]> userStore)
      else mret (Refused 401 invalidLogin, userStore)
  end.

(** The same handler of the server with sessions: [normalizeEmail] is
    called before the [try], the database and the digest inside it. *)
Definition sessionLoginJson (srv : Server) (cookie : option jsstring) (body : json)
    (freshSid : jsstring) : completion (reply AuthBody * Server) :=
  let email := default (JString []) (field body (lit "email")) in
  let password := default (JString []) (field body (lit "password")) in
  normalizedEmail ← normalizeEmailOf email;
  tryCatch
    (found ← getUserByEmail (db srv) normalizedEmail;
     match found with
     | None => mret (Refused 401 invalidLogin, srv)
     | Some user =>
         digest ← hashPasswordOf password;
         if decide (r_password_hash user = digest) then
           let identity :=
             {| i_id := r_id user; i_name := r_name user; i_email := r_email user |} in
           mret (Sent 200 {| a_user := identity; a_token := None;
                             a_redirect := lit "/app.html" |},
                 setSessionUser srv cookie freshSid identity)
         else mret (Refused 401 invalidLogin, srv)
     end)
    (fun _ => mret (Refused 500 (lit "Login failed. Please try again."), srv)).
End Requests.

(** A login for the account of Ann, and one for an unknown e-mail, each
    with the number [123] for a password. *)
Definition annWithNumber : json :=
  JObject [(lit "email", JString (lit "ann@example.org"));
           (lit "password", JNumber (mkNum false 123 0))].

Definition strangerWithNumber : json :=
  JObject [(lit "email", JString (lit "bob@example.org"));
           (lit "password", JNumber (mkNum false 123 0))].

(** ** The steps of the coercion, in the words of the specification

    What each step yields, said without the functions of the source;
    with [firstParsed] above, this is the ladder that [coerceModelJson]
    is compared with. *)

(** Step 1: trim; strip a leading fence, with the language tag and the
    white space that follow it, and a trailing fence, if present; trim. *)
Definition fenceStripped (raw cleaned : jsstring) : Prop :=
  exists lead middle trail,
    trim raw = lead ++ middle ++ trail
    /\ cleaned = trim middle
    /\ ((lead = [] /\ forall r, trim raw <> fence ++ r)
        \/ exists tag w,
             lead = fence ++ tag ++ w
             /\ Forall (fun c => isAlnum c = true) tag
             /\ Forall (fun c => isWhite c = true) w
             /\ forall c r, middle ++ trail = c :: r ->
                            isWhite c = false /\ (w = [] -> isAlnum c = false))
    /\ ((trail = [] /\ forall r, middle <> r ++ fence) \/ trail = fence).

(** Step 2: every typographic single quote becomes the plain single
    quote, every typographic double quote becomes the plain double quote,
    nothing else changes. *)
Definition quoteNormalized (text normalized : jsstring) : Prop :=
  length normalized = length text
  /\ forall i c,
       text !! i = Some c ->
       normalized !! i
       = Some (if bool_decide (c ∈ [8216; 8217; 8218; 8219; 8242; 8245]) then SQUOTE
               else if bool_decide (c ∈ [8220; 8221; 8222; 8223; 8243; 8246])
                    then DQUOTE
                    else c).

(** The word [json] in any mix of capitals. *)
Definition isLabel (j s o n : cu) : Prop :=
  j ∈ [74; 106] /\ s ∈ [83; 115] /\ o ∈ [79; 111] /\ n ∈ [78; 110].

(** Step 3: a leading [json], in any mix of capitals, is stripped, if
    present; the text is trimmed. *)
Definition prefixStripped (text stripped : jsstring) : Prop :=
  (forall j s o n rest,
      text = j :: s :: o :: n :: rest -> isLabel j s o n -> stripped = trim rest)
  /\ ((forall j s o n rest, text = j :: s :: o :: n :: rest -> ~ isLabel j s o n) ->
      stripped = trim text).

(** Step 4: the substring from the first [{] to the last [}], when the
    text has a [{] with a [}] after it, and nothing otherwise. *)
Definition braceBlock (text : jsstring) (block : option jsstring) : Prop :=
  forall b,
    block = Some b
    <-> exists pre mid post,
          text = pre ++ LBRACE :: mid ++ RBRACE :: post
          /\ (LBRACE ∉ pre) /\ (RBRACE ∉ post)
          /\ b = LBRACE :: mid ++ [RBRACE].

(** * Properties *)

(** ** Prefixes and white space *)

Lemma expect_Some c s r : expect c s = Some r <-> s = c :: r.
Proof.
  unfold expect. destruct s as [|d s']; [split; discriminate|].
  destruct (N.eqb_spec d c) as [->|Hne]; split; intros H; inversion H; subst;
    try reflexivity; congruence.
Qed.

Lemma starts_with_Some p : forall s r, starts_with p s = Some r <-> s = p ++ r.
Proof.
  induction p as [|a p IH]; intros s r; simpl.
  - split; [intros [= ->]; reflexivity | intros ->; reflexivity].
  - destruct s as [|b s']; [split; discriminate|].
    destruct (N.eqb_spec a b) as [->|Hne].
    + rewrite IH. split; [intros ->; reflexivity | intros [= ->]; reflexivity].
    + split; [discriminate | intros [= -> _]; congruence].
Qed.

Lemma drop_while_suffix p s : exists w, s = w ++ drop_while p s /\ Forall (fun c => p c = true) w.
Proof.
  induction s as [|c s [w [Hw Hall]]]; simpl.
  - exists []. split; [reflexivity | constructor].
  - destruct (p c) eqn:Hc.
    + exists (c :: w). split; [simpl; congruence | constructor; assumption].
    + exists []. split; [reflexivity | constructor].
Qed.

Lemma drop_while_head p s c r : drop_while p s = c :: r -> p c = false.
Proof.
  induction s as [|d s IH]; simpl; [discriminate|].
  destruct (p d) eqn:Hd; [assumption|]. intros [= -> _]. assumption.
Qed.

Lemma drop_while_all p w s :
  Forall (fun c => p c = true) w -> drop_while p (w ++ s) = drop_while p s.
Proof. induction 1 as [|c w Hc _ IH]; simpl; [reflexivity|]. rewrite Hc. exact IH. Qed.

Lemma drop_while_stop p c s : p c = false -> drop_while p (c :: s) = c :: s.
Proof. intros H. simpl. rewrite H. reflexivity. Qed.

Lemma drop_while_length p s : (length (drop_while p s) <= length s)%nat.
Proof.
  destruct (drop_while_suffix p s) as [w [Hw _]].
  rewrite Hw at 2. rewrite length_app. lia.
Qed.

(** ** The parser reads a non-empty prefix *)

Lemma parse_chars_reads : forall s t rest,
  parse_chars s = Some (t, rest) -> exists pre, s = pre ++ DQUOTE :: rest.
Proof.
  fix IH 1. intros [|c r] t rest; simpl; [discriminate|].
  destruct (N.eqb_spec c 34) as [->|_].
  { intros [= <- <-]. exists []. reflexivity. }
  destruct (N.eqb_spec c 92) as [->|_].
  { destruct r as [|e r1]; [discriminate|].
    assert (Hs : forall d, match parse_chars r1 with
                           | Some (t0, rest0) => Some (d :: t0, rest0)
                           | None => None end = Some (t, rest) ->
                 exists pre, 92 :: e :: r1 = pre ++ DQUOTE :: rest).
    { intros d. destruct (parse_chars r1) as [[t0 rest0]|] eqn:E; [|discriminate].
      intros [= <- <-]. destruct (IH _ _ _ E) as [pre ->].
      exists (92 :: e :: pre). reflexivity. }
    repeat (match goal with
            | |- context [if ?b then _ else _] => destruct b; [apply Hs|]
            end).
    destruct (e =? 117); [|discriminate].
    destruct r1 as [|h1 [|h2 [|h3 [|h4 r2]]]]; try discriminate.
    destruct (hex4 h1 h2 h3 h4); [|discriminate].
    destruct (parse_chars r2) as [[t0 rest0]|] eqn:E; [|discriminate].
    intros [= <- <-]. destruct (IH _ _ _ E) as [pre ->].
    exists (92 :: e :: h1 :: h2 :: h3 :: h4 :: pre). reflexivity. }
  destruct (c <? 32); [discriminate|].
  destruct (parse_chars r) as [[t0 rest0]|] eqn:E; [|discriminate].
  intros [= <- <-]. destruct (IH _ _ _ E) as [pre ->].
  exists (c :: pre). reflexivity.
Qed.

Lemma take_digits_app : forall s ds rest, take_digits s = (ds, rest) -> s = ds ++ rest.
Proof.
  induction s as [|c s IH]; simpl; intros ds rest.
  - intros [= <- <-]. reflexivity.
  - destruct (isDigit c).
    + destruct (take_digits s) as [ds0 rest0]. intros [= <- <-].
      simpl. f_equal. apply IH. reflexivity.
    + intros [= <- <-]. reflexivity.
Qed.

Lemma parse_frac_reads s fp rest :
  parse_frac s = Some (fp, rest) -> exists mid, s = mid ++ rest.
Proof.
  unfold parse_frac. destruct (expect 46 s) as [r1|] eqn:E1.
  - apply expect_Some in E1. destruct (take_digits r1) as [fp' r2'] eqn:E2.
    apply take_digits_app in E2. destruct fp' as [|c fp']; [discriminate|].
    intros [= <- <-]. exists (46 :: c :: fp'). subst. reflexivity.
  - intros [= <- <-]. exists []. reflexivity.
Qed.

Lemma parse_sign_reads s sg rest :
  parse_sign s = (sg, rest) -> exists mid, s = mid ++ rest.
Proof.
  unfold parse_sign. destruct (expect 43 s) as [r|] eqn:E1.
  - apply expect_Some in E1. intros [= <- <-]. exists [43]. subst. reflexivity.
  - destruct (expect 45 s) as [r|] eqn:E2.
    + apply expect_Some in E2. intros [= <- <-]. exists [45]. subst. reflexivity.
    + intros [= <- <-]. exists []. reflexivity.
Qed.

Lemma parse_exp_reads s ex rest :
  parse_exp s = Some (ex, rest) -> exists mid, s = mid ++ rest.
Proof.
  unfold parse_exp. destruct s as [|e r3].
  - intros [= <- <-]. exists []. reflexivity.
  - destruct ((e =? 101) || (e =? 69)).
    + destruct (parse_sign r3) as [sg r4] eqn:E4.
      apply parse_sign_reads in E4 as [m ->].
      destruct (take_digits r4) as [ep r5] eqn:E5. apply take_digits_app in E5.
      destruct ep as [|c ep]; [discriminate|]. intros [= <- <-].
      exists (e :: m ++ c :: ep). subst. simpl. rewrite <- app_assoc. reflexivity.
    + intros [= <- <-]. exists []. reflexivity.
Qed.

Lemma parse_unsigned_reads neg s :
  match parse_unsigned neg s with
  | Parsed v rest => (exists pre, s = pre ++ rest /\ pre <> []) /\ exists n, v = JNumber n
  | Malformed => True
  | Exhausted => False
  end.
Proof.
  unfold parse_unsigned.
  destruct (take_digits s) as [ip r0] eqn:E0. apply take_digits_app in E0.
  destruct ip as [|d0 more]; [exact I|].
  destruct ((d0 =? 48) && _); [exact I|].
  destruct (parse_frac r0) as [[fp r2]|] eqn:Ef; [|exact I].
  apply parse_frac_reads in Ef as [mid ->].
  destruct (parse_exp r2) as [[ex rest]|] eqn:Ee; [|exact I].
  apply parse_exp_reads in Ee as [mid' ->].
  split; [|eexists; reflexivity].
  exists ((d0 :: more) ++ mid ++ mid'). split; [|discriminate].
  subst. rewrite <- !app_assoc. reflexivity.
Qed.

Lemma parse_number_reads s :
  match parse_number s with
  | Parsed v rest => (exists pre, s = pre ++ rest /\ pre <> []) /\ exists n, v = JNumber n
  | Malformed => True
  | Exhausted => False
  end.
Proof.
  unfold parse_number. destruct (expect 45 s) as [r|] eqn:E.
  - apply expect_Some in E. subst.
    pose proof (parse_unsigned_reads true r) as H.
    destruct (parse_unsigned true r); try assumption.
    destruct H as [[pre [-> _]] Hn]. split; [|assumption].
    exists (45 :: pre). split; [reflexivity | discriminate].
  - apply parse_unsigned_reads.
Qed.

Lemma skip_ws_split s :
  exists w, s = w ++ skip_ws s /\ Forall (fun c => isJsonWs c = true) w.
Proof. apply drop_while_suffix. Qed.

Ltac same_list :=
  repeat first [rewrite <- app_assoc | rewrite app_nil_r | progress simpl];
  reflexivity.

Lemma parse_reads f :
  (forall s, value_reads s (parse_value f s))
  /\ (forall s, readsUpTo 93 s (parse_elements f s))
  /\ (forall s, readsUpTo 125 s (parse_members f s)).
Proof.
  induction f as [|f (IHv & IHe & IHm)]; [repeat split; intros; exact I|].
  repeat split.
  - (* value *)
    intros s. cbn [parse_value].
    destruct (skip_ws_split s) as (w & Hs & Hw).
    destruct (skip_ws s) as [|c r]; [exact I|].
    destruct (N.eqb_spec c 123) as [->|_].
    { destruct (expect 125 (skip_ws r)) as [r'|] eqn:E.
      - apply expect_Some in E. destruct (skip_ws_split r) as (w' & Hr & _).
        rewrite E in Hr. split.
        + exists (w ++ 123 :: w' ++ [125]). split.
          * rewrite Hs, Hr. same_list.
          * destruct w; discriminate.
        + intros ms _. exists w, w'. split; [|assumption].
          rewrite Hs, Hr. same_list.
      - specialize (IHm r). destruct (parse_members f r) as [ms r'| |]; try exact I.
        destruct IHm as [pre Hpre]. split.
        + exists (w ++ 123 :: pre ++ [125]). split.
          * rewrite Hs, Hpre. same_list.
          * destruct w; discriminate.
        + intros ms' _. exists w, pre. split; [|assumption].
          rewrite Hs, Hpre. same_list. }
    destruct (N.eqb_spec c 91) as [->|_].
    { destruct (expect 93 (skip_ws r)) as [r'|] eqn:E.
      - apply expect_Some in E. destruct (skip_ws_split r) as (w' & Hr & _).
        rewrite E in Hr. split; [|discriminate].
        exists (w ++ 91 :: w' ++ [93]). split.
        + rewrite Hs, Hr. same_list.
        + destruct w; discriminate.
      - specialize (IHe r). destruct (parse_elements f r) as [vs r'| |]; try exact I.
        destruct IHe as [pre Hpre]. split; [|discriminate].
        exists (w ++ 91 :: pre ++ [93]). split.
        + rewrite Hs, Hpre. same_list.
        + destruct w; discriminate. }
    destruct (N.eqb_spec c 34) as [->|_].
    { destruct (parse_chars r) as [[t r']|] eqn:E; [|exact I].
      apply parse_chars_reads in E as [pre Hpre]. split; [|discriminate].
      exists (w ++ 34 :: pre ++ [DQUOTE]). split.
      + rewrite Hs, Hpre. same_list.
      + destruct w; discriminate. }
    assert (Hword : forall word (v : json),
               (forall ms, v <> JObject ms) ->
               value_reads s match starts_with word r with
                             | Some r' => Parsed v r'
                             | None => Malformed
                             end).
    { intros word v Hv. destruct (starts_with word r) as [r'|] eqn:E; [|exact I].
      apply starts_with_Some in E. split.
      - exists (w ++ c :: word). split.
        + rewrite Hs, E. same_list.
        + destruct w; discriminate.
      - intros ms Hms. destruct (Hv _ Hms). }
    destruct (c =? 116); [apply Hword; discriminate|].
    destruct (c =? 102); [apply Hword; discriminate|].
    destruct (c =? 110); [apply Hword; discriminate|].
    pose proof (parse_number_reads (c :: r)) as Hn.
    destruct (parse_number (c :: r)) as [v rest| |]; try exact I.
    destruct Hn as [(pre & Hpre & Hne) [n ->]]. split; [|discriminate].
    exists (w ++ pre). split.
    + rewrite Hs, Hpre. same_list.
    + destruct w; [assumption | discriminate].
  - (* elements *)
    intros s. cbn [parse_elements].
    specialize (IHv s). destruct (parse_value f s) as [v r| |]; try exact I.
    destruct IHv as [(pre & Hpre & _) _].
    destruct (skip_ws_split r) as (w & Hr & _).
    destruct (expect 44 (skip_ws r)) as [r'|] eqn:E1.
    + apply expect_Some in E1. rewrite E1 in Hr.
      specialize (IHe r'). destruct (parse_elements f r') as [vs r''| |]; try exact I.
      destruct IHe as [pre' Hpre'].
      exists (pre ++ w ++ 44 :: pre'). rewrite Hpre, Hr, Hpre'.
      same_list.
    + destruct (expect 93 (skip_ws r)) as [r'|] eqn:E2; [|exact I].
      apply expect_Some in E2. rewrite E2 in Hr.
      exists (pre ++ w). rewrite Hpre, Hr. same_list.
  - (* members *)
    intros s. cbn [parse_members].
    destruct (skip_ws_split s) as (w0 & Hs & _).
    destruct (expect 34 (skip_ws s)) as [r|] eqn:E0; [|exact I].
    apply expect_Some in E0. rewrite E0 in Hs.
    destruct (parse_chars r) as [[k r1]|] eqn:Ek; [|exact I].
    apply parse_chars_reads in Ek as [prek Hk].
    destruct (skip_ws_split r1) as (w1 & Hr1 & _).
    destruct (expect 58 (skip_ws r1)) as [r2|] eqn:E1; [|exact I].
    apply expect_Some in E1. rewrite E1 in Hr1.
    specialize (IHv r2). destruct (parse_value f r2) as [v r3| |]; try exact I.
    destruct IHv as [(pre & Hpre & _) _].
    destruct (skip_ws_split r3) as (w3 & Hr3 & _).
    assert (Hall : s = (w0 ++ 34 :: prek ++ DQUOTE :: w1 ++ 58 :: pre ++ w3)
                       ++ skip_ws r3).
    { rewrite Hs, Hk, Hr1, Hpre. rewrite Hr3 at 1. same_list. }
    destruct (expect 44 (skip_ws r3)) as [r4|] eqn:E3.
    + apply expect_Some in E3. rewrite E3 in Hall.
      specialize (IHm r4). destruct (parse_members f r4) as [ms r5| |]; try exact I.
      destruct IHm as [pre' Hpre'].
      exists ((w0 ++ 34 :: prek ++ DQUOTE :: w1 ++ 58 :: pre ++ w3) ++ 44 :: pre').
      rewrite Hall, Hpre'. same_list.
    + destruct (expect 125 (skip_ws r3)) as [r4|] eqn:E4; [|exact I].
      apply expect_Some in E4. rewrite E4 in Hall. eexists. exact Hall.
Qed.

(** ** The recursion bound is never reached *)

Lemma skip_ws_length s : (length (skip_ws s) <= length s)%nat.
Proof. apply drop_while_length. Qed.

Lemma expect_length c s r : expect c s = Some r -> length s = S (length r).
Proof. intros H. apply expect_Some in H. subst. reflexivity. Qed.

Lemma parse_chars_length s t rest :
  parse_chars s = Some (t, rest) -> (length rest < length s)%nat.
Proof.
  intros H. apply parse_chars_reads in H as [pre ->].
  rewrite length_app. simpl. lia.
Qed.

Lemma parse_value_length f s v rest :
  parse_value f s = Parsed v rest -> (length rest < length s)%nat.
Proof.
  intros H. pose proof (proj1 (parse_reads f) s) as Hr. rewrite H in Hr.
  destruct Hr as [(pre & -> & Hne) _]. rewrite length_app.
  destruct pre; [congruence | simpl; lia].
Qed.

Lemma parse_fuel_enough f :
  (forall s, (2 * length s + 1 <= f)%nat -> parse_value f s <> Exhausted)
  /\ (forall s, (2 * length s + 2 <= f)%nat -> parse_elements f s <> Exhausted)
  /\ (forall s, (2 * length s + 2 <= f)%nat -> parse_members f s <> Exhausted).
Proof.
  induction f as [|f (IHv & IHe & IHm)]; [repeat split; intros; lia|].
  repeat split.
  - intros s Hf. cbn [parse_value].
    pose proof (skip_ws_length s) as Hl.
    destruct (skip_ws s) as [|c r]; [discriminate|]. simpl in Hl.
    assert (Hr : (2 * length r + 2 <= f)%nat) by lia.
    destruct (c =? 123).
    { destruct (expect 125 (skip_ws r)); [discriminate|].
      specialize (IHm r Hr). destruct (parse_members f r); congruence. }
    destruct (c =? 91).
    { destruct (expect 93 (skip_ws r)); [discriminate|].
      specialize (IHe r Hr). destruct (parse_elements f r); congruence. }
    destruct (c =? 34). { destruct (parse_chars r) as [[? ?]|]; discriminate. }
    destruct (c =? 116). { destruct (starts_with _ r); discriminate. }
    destruct (c =? 102). { destruct (starts_with _ r); discriminate. }
    destruct (c =? 110). { destruct (starts_with _ r); discriminate. }
    pose proof (parse_number_reads (c :: r)) as Hn.
    destruct (parse_number (c :: r)); [discriminate | discriminate | destruct Hn].
  - intros s Hf. cbn [parse_elements].
    assert (Hv : (2 * length s + 1 <= f)%nat) by lia.
    specialize (IHv s Hv).
    destruct (parse_value f s) as [v r| |] eqn:E; [|discriminate|congruence].
    apply parse_value_length in E. pose proof (skip_ws_length r) as Hl.
    destruct (expect 44 (skip_ws r)) as [r'|] eqn:E1.
    + apply expect_length in E1.
      assert (Hr : (2 * length r' + 2 <= f)%nat) by lia.
      specialize (IHe r' Hr). destruct (parse_elements f r'); congruence.
    + destruct (expect 93 (skip_ws r)); discriminate.
  - intros s Hf. cbn [parse_members].
    pose proof (skip_ws_length s) as Hl.
    destruct (expect 34 (skip_ws s)) as [r|] eqn:E0; [|discriminate].
    apply expect_length in E0.
    destruct (parse_chars r) as [[k r1]|] eqn:Ek; [|discriminate].
    apply parse_chars_length in Ek. pose proof (skip_ws_length r1) as Hl1.
    destruct (expect 58 (skip_ws r1)) as [r2|] eqn:E1; [|discriminate].
    apply expect_length in E1.
    assert (Hv : (2 * length r2 + 1 <= f)%nat) by lia.
    specialize (IHv r2 Hv).
    destruct (parse_value f r2) as [v r3| |] eqn:E; [|discriminate|congruence].
    apply parse_value_length in E. pose proof (skip_ws_length r3) as Hl3.
    destruct (expect 44 (skip_ws r3)) as [r4|] eqn:E3.
    + apply expect_length in E3.
      assert (Hr : (2 * length r4 + 2 <= f)%nat) by lia.
      specialize (IHm r4 Hr). destruct (parse_members f r4); congruence.
    + destruct (expect 125 (skip_ws r3)); discriminate.
Qed.

(** More recursion budget than a parse needed changes nothing. *)
Lemma parse_fuel_more f :
  (forall s g, (f <= g)%nat -> parse_value f s <> Exhausted ->
               parse_value g s = parse_value f s)
  /\ (forall s g, (f <= g)%nat -> parse_elements f s <> Exhausted ->
                  parse_elements g s = parse_elements f s)
  /\ (forall s g, (f <= g)%nat -> parse_members f s <> Exhausted ->
                  parse_members g s = parse_members f s).
Proof.
  induction f as [|f (IHv & IHe & IHm)]; [repeat split; intros; simpl in *; congruence|].
  repeat split.
  - intros s [|g] Hg; [lia|]. cbn [parse_value].
    destruct (skip_ws s) as [|c r]; [reflexivity|].
    destruct (c =? 123).
    { destruct (expect 125 (skip_ws r)); [reflexivity|]. intros H.
      rewrite (IHm r g); [reflexivity | lia |].
      destruct (parse_members f r); congruence. }
    destruct (c =? 91).
    { destruct (expect 93 (skip_ws r)); [reflexivity|]. intros H.
      rewrite (IHe r g); [reflexivity | lia |].
      destruct (parse_elements f r); congruence. }
    reflexivity.
  - intros s [|g] Hg; [lia|]. cbn [parse_elements]. intros H.
    rewrite (IHv s g); [| lia | destruct (parse_value f s); congruence].
    destruct (parse_value f s) as [v r| |]; try reflexivity.
    destruct (expect 44 (skip_ws r)) as [r'|]; [|reflexivity].
    rewrite (IHe r' g); [reflexivity | lia |].
    destruct (parse_elements f r'); congruence.
  - intros s [|g] Hg; [lia|]. cbn [parse_members]. intros H.
    destruct (expect 34 (skip_ws s)) as [r|]; [|reflexivity].
    destruct (parse_chars r) as [[k r1]|]; [|reflexivity].
    destruct (expect 58 (skip_ws r1)) as [r2|]; [|reflexivity].
    rewrite (IHv r2 g); [| lia | destruct (parse_value f r2); congruence].
    destruct (parse_value f r2) as [v r3| |]; try reflexivity.
    destruct (expect 44 (skip_ws r3)) as [r4|]; [|reflexivity].
    rewrite (IHm r4 g); [reflexivity | lia |].
    destruct (parse_members f r4); congruence.
Qed.

(** [JSON.parse] does not depend on the bound: any budget of at least
    [2 * length text + 1] gives the same answer. *)
Lemma parse_value_fuel text g :
  (2 * length text + 1 <= g)%nat ->
  parse_value g text = parse_value (parse_fuel text) text
  /\ parse_value g text <> Exhausted.
Proof.
  intros Hg.
  assert (H1 : parse_value (2 * length text + 1) text <> Exhausted)
    by (apply parse_fuel_enough; lia).
  pose proof (proj1 (parse_fuel_more (2 * length text + 1)) text) as Hm.
  rewrite (Hm g Hg H1), (Hm (parse_fuel text)); [| unfold parse_fuel; lia | exact H1].
  split; [reflexivity | exact H1].
Qed.

(** ** White space around a JSON text is insignificant *)

Lemma allWs_head c r : allWs (c :: r) -> isJsonWs c = true.
Proof. intros H. inversion H. assumption. Qed.

Lemma allWs_tail c r : allWs (c :: r) -> allWs r.
Proof. intros H. inversion H. assumption. Qed.

Lemma skip_ws_all w : allWs w -> skip_ws w = [].
Proof.
  intros Hw. unfold skip_ws. rewrite <- (app_nil_r w).
  rewrite drop_while_all by exact Hw. reflexivity.
Qed.

Lemma skip_ws_app w s :
  allWs w ->
  skip_ws (s ++ w) = match skip_ws s with [] => [] | _ => skip_ws s ++ w end.
Proof.
  intros Hw. induction s as [|c s IH]; cbn [app]; [exact (skip_ws_all w Hw)|].
  unfold skip_ws in *. cbn [drop_while]. destruct (isJsonWs c); [exact IH | reflexivity].
Qed.

(** A code unit that is not white space is not found at the head of [w]. *)
Lemma expect_ws w c : allWs w -> isJsonWs c = false -> expect c w = None.
Proof.
  intros Hw Hc. destruct w as [|d r]; [reflexivity|].
  unfold expect. destruct (N.eqb_spec d c) as [->|_]; [|reflexivity].
  rewrite (allWs_head c r Hw) in Hc. discriminate.
Qed.

Lemma expect_app w c s :
  allWs w -> isJsonWs c = false ->
  expect c (s ++ w) = option_map (fun r => r ++ w) (expect c s).
Proof.
  intros Hw Hc. destruct s as [|d s]; [exact (expect_ws w c Hw Hc)|].
  cbn [app expect]. destruct (d =? c); reflexivity.
Qed.

Lemma expect_skip_app w c s :
  allWs w -> isJsonWs c = false ->
  expect c (skip_ws (s ++ w)) = option_map (fun r => r ++ w) (expect c (skip_ws s)).
Proof.
  intros Hw Hc. rewrite skip_ws_app by exact Hw.
  destruct (skip_ws s) as [|d r] eqn:E; [reflexivity|].
  rewrite <- E. apply expect_app; assumption.
Qed.

Lemma starts_with_app w p : forall s,
  allWs w -> Forall (fun c => isJsonWs c = false) p ->
  starts_with p (s ++ w) = option_map (fun r => r ++ w) (starts_with p s).
Proof.
  induction p as [|a p IH]; intros s Hw Hp; [reflexivity|].
  inversion Hp as [|? ? Ha Hp']; subst.
  destruct s as [|b s]; cbn [app starts_with].
  - destruct w as [|d r]; [reflexivity|]. cbn [starts_with].
    destruct (N.eqb_spec a d) as [->|_]; [|reflexivity].
    rewrite (allWs_head d r Hw) in Ha. discriminate.
  - destruct (a =? b); [apply IH; assumption | reflexivity].
Qed.

Lemma ws_cases c :
  isJsonWs c = true -> c = 9 \/ c = 10 \/ c = 13 \/ c = 32.
Proof.
  unfold isJsonWs. intros H.
  repeat (apply orb_prop in H as [H|H]); apply N.eqb_eq in H; auto.
Qed.

Lemma take_digits_ws w : allWs w -> take_digits w = ([], w).
Proof.
  intros Hw. destruct w as [|d r]; [reflexivity|]. cbn [take_digits].
  destruct (ws_cases d (allWs_head d r Hw)) as [-> | [-> | [-> | ->]]]; reflexivity.
Qed.

Lemma take_digits_app_ws w s :
  allWs w ->
  take_digits (s ++ w) = (fst (take_digits s), snd (take_digits s) ++ w).
Proof.
  intros Hw. induction s as [|c s IH]; cbn [app]; [exact (take_digits_ws w Hw)|].
  cbn [take_digits]. destruct (isDigit c); [|reflexivity].
  rewrite IH. destruct (take_digits s). reflexivity.
Qed.

Lemma parse_chars_ws w : allWs w -> parse_chars w = None.
Proof.
  induction w as [|c r IH]; intros Hw; [reflexivity|].
  cbn [parse_chars]. specialize (IH (allWs_tail c r Hw)).
  destruct (ws_cases c (allWs_head c r Hw)) as [-> | [-> | [-> | ->]]];
    try reflexivity.
  change (32 =? 34) with false. change (32 =? 92) with false.
  change (32 <? 32) with false. cbn iota. rewrite IH. reflexivity.
Qed.

(** After a backslash, white space is no escape. *)
Lemma escape_ws w : allWs w -> parse_chars (92 :: w) = None.
Proof.
  intros Hw. destruct w as [|e r]; [reflexivity|].
  destruct (ws_cases e (allWs_head e r Hw)) as [-> | [-> | [-> | ->]]]; reflexivity.
Qed.

Lemma hexval_ws c : isJsonWs c = true -> hexval c = None.
Proof. intros H. destruct (ws_cases c H) as [-> | [-> | [-> | ->]]]; reflexivity. Qed.

Lemma parse_chars_app w :
  allWs w ->
  forall s,
    parse_chars (s ++ w)
    = option_map (fun p => (fst p, snd p ++ w)) (parse_chars s).
Proof.
  intros Hw s. remember (S (length s)) as n eqn:En.
  assert (Hn : (length s < n)%nat) by lia. clear En. revert s Hn.
  induction n as [|n IHn]; intros s Hn; [lia|].
  assert (IH : forall s', (length s' < length s)%nat ->
                          parse_chars (s' ++ w)
                          = option_map (fun p => (fst p, snd p ++ w)) (parse_chars s'))
    by (intros s' Hs'; apply IHn; lia).
  clear IHn Hn. destruct s as [|c r]; cbn [app].
  { rewrite (parse_chars_ws w Hw). reflexivity. }
  cbn [parse_chars].
  destruct (c =? 34); [reflexivity|].
  destruct (N.eqb_spec c 92) as [->|_].
  2:{ destruct (c <? 32); [reflexivity|]. rewrite IH by (simpl; lia).
      destruct (parse_chars r) as [[t rest]|]; reflexivity. }
  destruct r as [|e r1]; cbn [app].
  { pose proof (escape_ws w Hw) as H. cbn [parse_chars] in H.
    change (92 =? 34) with false in H. change (92 =? 92) with true in H.
    cbn iota in H. exact H. }
  assert (Hs : forall d,
             match parse_chars (r1 ++ w) with
             | Some (t, rest) => Some (d :: t, rest)
             | None => None
             end
             = option_map (fun p => (fst p, snd p ++ w))
                 match parse_chars r1 with
                 | Some (t, rest) => Some (d :: t, rest)
                 | None => None
                 end).
  { intros d. rewrite IH by (simpl; lia).
    destruct (parse_chars r1) as [[t rest]|]; reflexivity. }
  repeat (match goal with
          | |- context [if ?b then _ else _] => destruct b; [apply Hs|]
          end).
  destruct (e =? 117); [|reflexivity].
  destruct r1 as [|h1 [|h2 [|h3 [|h4 r2]]]]; cbn [app].
  - destruct w as [|a [|b [|c0 [|d0 r']]]]; try reflexivity.
    unfold hex4. rewrite (hexval_ws a (allWs_head _ _ Hw)). reflexivity.
  - destruct w as [|a [|b [|c0 r']]]; try reflexivity.
    unfold hex4. rewrite (hexval_ws a (allWs_head _ _ Hw)).
    destruct (hexval h1); reflexivity.
  - destruct w as [|a [|b r']]; try reflexivity.
    unfold hex4. rewrite (hexval_ws a (allWs_head _ _ Hw)).
    destruct (hexval h1); [|reflexivity]. destruct (hexval h2); reflexivity.
  - destruct w as [|a r']; try reflexivity.
    unfold hex4. rewrite (hexval_ws a (allWs_head _ _ Hw)).
    destruct (hexval h1); [|reflexivity]. destruct (hexval h2); [|reflexivity].
    destruct (hexval h3); reflexivity.
  - destruct (hex4 h1 h2 h3 h4); [|reflexivity].
    rewrite IH by (simpl; lia).
    destruct (parse_chars r2) as [[t rest]|]; reflexivity.
Qed.

Lemma parse_frac_app w s :
  allWs w ->
  parse_frac (s ++ w) = option_map (fun p => (fst p, snd p ++ w)) (parse_frac s).
Proof.
  intros Hw. unfold parse_frac. rewrite (expect_app w 46 s Hw eq_refl).
  destruct (expect 46 s) as [r1|]; cbn [option_map]; [|reflexivity].
  rewrite (take_digits_app_ws w r1 Hw). destruct (take_digits r1) as [fp r2].
  cbn [fst snd]. destruct fp; reflexivity.
Qed.

Lemma parse_sign_app w s :
  allWs w -> parse_sign (s ++ w) = (fst (parse_sign s), snd (parse_sign s) ++ w).
Proof.
  intros Hw. unfold parse_sign.
  rewrite (expect_app w 43 s Hw eq_refl), (expect_app w 45 s Hw eq_refl).
  destruct (expect 43 s); [reflexivity|]. destruct (expect 45 s); reflexivity.
Qed.

Lemma parse_exp_app w s :
  allWs w ->
  parse_exp (s ++ w) = option_map (fun p => (fst p, snd p ++ w)) (parse_exp s).
Proof.
  intros Hw. unfold parse_exp. destruct s as [|e r3]; cbn [app].
  - destruct w as [|e r]; [reflexivity|].
    destruct (ws_cases e (allWs_head e r Hw)) as [-> | [-> | [-> | ->]]]; reflexivity.
  - destruct ((e =? 101) || (e =? 69)); [|reflexivity].
    rewrite (parse_sign_app w r3 Hw). destruct (parse_sign r3) as [sg r4].
    cbn [fst snd]. rewrite (take_digits_app_ws w r4 Hw).
    destruct (take_digits r4) as [ep r5]. cbn [fst snd]. destruct ep; reflexivity.
Qed.

Lemma parse_unsigned_app w neg s :
  allWs w -> parse_unsigned neg (s ++ w) = followedBy w (parse_unsigned neg s).
Proof.
  intros Hw. unfold parse_unsigned. rewrite (take_digits_app_ws w s Hw).
  destruct (take_digits s) as [ip r0]. cbn [fst snd].
  destruct ip as [|d0 more]; [reflexivity|].
  destruct ((d0 =? 48) && _); [reflexivity|].
  rewrite (parse_frac_app w r0 Hw).
  destruct (parse_frac r0) as [[fp r2]|]; cbn [option_map fst snd]; [|reflexivity].
  rewrite (parse_exp_app w r2 Hw).
  destruct (parse_exp r2) as [[ex rest]|]; reflexivity.
Qed.

Lemma parse_number_app w s :
  allWs w -> parse_number (s ++ w) = followedBy w (parse_number s).
Proof.
  intros Hw. unfold parse_number. rewrite (expect_app w 45 s Hw eq_refl).
  destruct (expect 45 s) as [r|]; cbn [option_map]; apply parse_unsigned_app; exact Hw.
Qed.

Lemma followedBy_map {A B} w (g : A -> B) (r : pres A) :
  followedBy w match r with
               | Parsed a rest => Parsed (g a) rest
               | Malformed => Malformed
               | Exhausted => Exhausted
               end
  = match followedBy w r with
    | Parsed a rest => Parsed (g a) rest
    | Malformed => Malformed
    | Exhausted => Exhausted
    end.
Proof. destruct r; reflexivity. Qed.

(** Putting white space after the input of a parser changes nothing but
    the unread rest. *)
Lemma parse_app_ws w (Hw : allWs w) f :
  (forall s, skip_ws s <> [] -> parse_value f (s ++ w) = followedBy w (parse_value f s))
  /\ (forall s, skip_ws s <> [] ->
                parse_elements f (s ++ w) = followedBy w (parse_elements f s))
  /\ (forall s, skip_ws s <> [] ->
                parse_members f (s ++ w) = followedBy w (parse_members f s)).
Proof.
  induction f as [|f (IHv & IHe & IHm)]; [repeat split; reflexivity|].
  assert (Hskip : forall s, skip_ws s <> [] -> skip_ws (s ++ w) = skip_ws s ++ w).
  { intros s Hs. rewrite (skip_ws_app w s Hw). destruct (skip_ws s); congruence. }
  repeat split.
  - intros s Hs. cbn [parse_value]. rewrite (Hskip s Hs).
    destruct (skip_ws s) as [|c r]; [congruence|]. cbn [app].
    destruct (c =? 123).
    { rewrite (expect_skip_app w 125 r Hw eq_refl).
      destruct (expect 125 (skip_ws r)) as [r'|] eqn:E; cbn [option_map]; [reflexivity|].
      destruct (skip_ws r) as [|d r0] eqn:Er.
      - (* nothing but white space after the brace *)
        assert (Hm : forall x, parse_members f x
                               = match f with
                                 | O => Exhausted
                                 | S _ => match expect 34 (skip_ws x) with
                                          | Some _ => parse_members f x
                                          | None => Malformed
                                          end
                                 end).
        { intros x. destruct f; [reflexivity|]. cbn [parse_members].
          destruct (expect 34 (skip_ws x)); reflexivity. }
        rewrite (Hm (r ++ w)), (Hm r). destruct f; [reflexivity|].
        rewrite (skip_ws_app w r Hw), Er. reflexivity.
      - rewrite IHm by congruence. destruct (parse_members f r); reflexivity. }
    destruct (c =? 91).
    { rewrite (expect_skip_app w 93 r Hw eq_refl).
      destruct (expect 93 (skip_ws r)) as [r'|] eqn:E; cbn [option_map]; [reflexivity|].
      destruct (skip_ws r) as [|d r0] eqn:Er.
      - assert (Hv : forall x, skip_ws x = [] ->
                               parse_elements f x
                               = match f with
                                 | O => Exhausted
                                 | S O => Exhausted
                                 | S (S _) => Malformed
                                 end).
        { intros x Hx. destruct f as [|[|f']]; [reflexivity|reflexivity|].
          cbn [parse_elements parse_value]. rewrite Hx. reflexivity. }
        rewrite (Hv (r ++ w)), (Hv r); [destruct f as [|[|?]]; reflexivity | exact Er |].
        rewrite (skip_ws_app w r Hw), Er. reflexivity.
      - rewrite IHe by congruence. destruct (parse_elements f r); reflexivity. }
    destruct (c =? 34).
    { rewrite (parse_chars_app w Hw r).
      destruct (parse_chars r) as [[t r']|]; reflexivity. }
    assert (Hword : forall word (v : json),
               Forall (fun c => isJsonWs c = false) word ->
               match starts_with word (r ++ w) with
               | Some r' => Parsed v r'
               | None => Malformed
               end
               = followedBy w match starts_with word r with
                              | Some r' => Parsed v r'
                              | None => Malformed
                              end).
    { intros word v Hword. rewrite (starts_with_app w word r Hw Hword).
      destruct (starts_with word r); reflexivity. }
    destruct (c =? 116); [apply Hword; repeat constructor|].
    destruct (c =? 102); [apply Hword; repeat constructor|].
    destruct (c =? 110); [apply Hword; repeat constructor|].
    apply (parse_number_app w (c :: r) Hw).
  - intros s Hs. cbn [parse_elements]. rewrite IHv by exact Hs.
    destruct (parse_value f s) as [v r| |]; cbn [followedBy]; try reflexivity.
    rewrite (expect_skip_app w 44 r Hw eq_refl), (expect_skip_app w 93 r Hw eq_refl).
    destruct (expect 44 (skip_ws r)) as [r'|] eqn:E1; cbn [option_map].
    + destruct (skip_ws r') as [|d r0] eqn:Er.
      * assert (Hv : forall x, skip_ws x = [] ->
                               parse_elements f x
                               = match f with
                                 | O => Exhausted
                                 | S O => Exhausted
                                 | S (S _) => Malformed
                                 end).
        { intros x Hx. destruct f as [|[|f']]; [reflexivity|reflexivity|].
          cbn [parse_elements parse_value]. rewrite Hx. reflexivity. }
        rewrite (Hv (r' ++ w)), (Hv r'); [destruct f as [|[|?]]; reflexivity | exact Er |].
        rewrite (skip_ws_app w r' Hw), Er. reflexivity.
      * rewrite IHe by congruence. destruct (parse_elements f r'); reflexivity.
    + destruct (expect 93 (skip_ws r)); reflexivity.
  - intros s Hs. cbn [parse_members].
    rewrite (expect_skip_app w 34 s Hw eq_refl).
    destruct (expect 34 (skip_ws s)) as [r|]; cbn [option_map]; [|reflexivity].
    rewrite (parse_chars_app w Hw r).
    destruct (parse_chars r) as [[k r1]|]; cbn [option_map fst snd]; [|reflexivity].
    rewrite (expect_skip_app w 58 r1 Hw eq_refl).
    destruct (expect 58 (skip_ws r1)) as [r2|]; cbn [option_map]; [|reflexivity].
    destruct (skip_ws r2) as [|d r0] eqn:Er2.
    { assert (Hv : forall x, skip_ws x = [] ->
                             parse_value f x
                             = match f with O => Exhausted | S _ => Malformed end).
      { intros x Hx. destruct f; [reflexivity|]. cbn [parse_value]. rewrite Hx.
        reflexivity. }
      rewrite (Hv (r2 ++ w)), (Hv r2); [destruct f; reflexivity | exact Er2 |].
      rewrite (skip_ws_app w r2 Hw), Er2. reflexivity. }
    rewrite IHv by congruence.
    destruct (parse_value f r2) as [v r3| |]; cbn [followedBy]; try reflexivity.
    rewrite (expect_skip_app w 44 r3 Hw eq_refl), (expect_skip_app w 125 r3 Hw eq_refl).
    destruct (expect 44 (skip_ws r3)) as [r4|] eqn:E1; cbn [option_map].
    + destruct (skip_ws r4) as [|d' r0'] eqn:Er4.
      * assert (Hm : forall x, skip_ws x = [] ->
                               parse_members f x
                               = match f with O => Exhausted | S _ => Malformed end).
        { intros x Hx. destruct f; [reflexivity|]. cbn [parse_members]. rewrite Hx.
          reflexivity. }
        rewrite (Hm (r4 ++ w)), (Hm r4); [destruct f; reflexivity | exact Er4 |].
        rewrite (skip_ws_app w r4 Hw), Er4. reflexivity.
      * rewrite IHm by congruence. destruct (parse_members f r4); reflexivity.
    + destruct (expect 125 (skip_ws r3)); reflexivity.
Qed.

Lemma skip_ws_idem s : skip_ws (skip_ws s) = skip_ws s.
Proof.
  destruct (skip_ws s) as [|c r] eqn:E; [reflexivity|].
  unfold skip_ws in *. apply drop_while_stop. eapply drop_while_head. exact E.
Qed.

Lemma parse_value_skip f s : parse_value f (skip_ws s) = parse_value f s.
Proof. destruct f; [reflexivity|]. cbn [parse_value]. rewrite skip_ws_idem. reflexivity. Qed.

Lemma parse_value_leading f w s : allWs w -> parse_value f (w ++ s) = parse_value f s.
Proof.
  intros Hw. rewrite <- (parse_value_skip f (w ++ s)), <- (parse_value_skip f s).
  unfold skip_ws. rewrite drop_while_all by exact Hw. reflexivity.
Qed.

(** [JSON.parse] gives the same for a text and for the text between JSON
    white space. *)
Lemma JSON_parse_ws w1 w2 s :
  allWs w1 -> allWs w2 -> JSON_parse (w1 ++ s ++ w2) = JSON_parse s.
Proof.
  intros H1 H2. unfold JSON_parse.
  set (g := parse_fuel (w1 ++ s ++ w2)).
  assert (Hg : (2 * length s + 1 <= g)%nat).
  { unfold g, parse_fuel. rewrite !length_app. lia. }
  destruct (parse_value_fuel s g Hg) as [<- _].
  rewrite (parse_value_leading g w1 (s ++ w2) H1).
  destruct (skip_ws s) as [|c r] eqn:Es.
  - (* nothing but white space *)
    assert (Hv : forall x, skip_ws x = [] -> parse_value g x = Malformed).
    { intros x Hx. unfold g, parse_fuel. rewrite Nat.add_comm. cbn [Nat.add parse_value].
      rewrite Hx. reflexivity. }
    rewrite (Hv (s ++ w2)), (Hv s); [reflexivity | exact Es |].
    rewrite (skip_ws_app w2 s H2), Es. reflexivity.
  - rewrite (proj1 (parse_app_ws w2 H2 g) s) by congruence.
    destruct (parse_value g s) as [v rest| |]; cbn [followedBy]; try reflexivity.
    rewrite (skip_ws_app w2 rest H2). destruct (skip_ws rest); reflexivity.
Qed.

Lemma normalizeQuotes_plain s : plainQuotes s -> normalizeQuotes s = s.
Proof.
  intros H. unfold normalizeQuotes. destruct s as [|c0 s0] eqn:E; [reflexivity|].
  rewrite <- E in *. clear E. induction H as [|c s [Hs Hd] _ IH]; [reflexivity|].
  cbn [List.map]. rewrite Hs, Hd, IH. reflexivity.
Qed.

(** ** Coercion never throws *)

Lemma JSON_parse_empty : JSON_parse [] = Throw unexpectedToken.
Proof. reflexivity. Qed.

Lemma tryCandidates_firstParsed cs :
  tryCandidates cs = Normal (default JNull (firstParsed cs)).
Proof.
  induction cs as [|[[|c s]|] cs IH]; cbn [tryCandidates firstParsed].
  - reflexivity.
  - rewrite JSON_parse_empty. exact IH.
  - destruct (JSON_parse (c :: s)); simpl; [reflexivity | exact IH].
  - exact IH.
Qed.

Lemma coerceModelJson_normal raw : exists v, coerceModelJson raw = Normal v.
Proof.
  unfold coerceModelJson. destruct raw; [eexists; reflexivity|].
  rewrite tryCandidates_firstParsed. eexists; reflexivity.
Qed.

Lemma firstParsed_Some cs v :
  firstParsed cs = Some v ->
  exists candidate, Some candidate ∈ cs /\ JSON_parse candidate = Normal v.
Proof.
  induction cs as [|[c|] cs IH]; simpl; [discriminate| |].
  - destruct (JSON_parse c) eqn:E.
    + intros [= ->]. exists c. split; [left | exact E].
    + intros H. destruct (IH H) as (c' & Hin & Hp). exists c'. split; [right|]; assumption.
  - intros H. destruct (IH H) as (c' & Hin & Hp). exists c'. split; [right|]; assumption.
Qed.

Lemma firstParsed_None cs candidate :
  firstParsed cs = None -> Some candidate ∈ cs ->
  exists e, JSON_parse candidate = Throw e.
Proof.
  induction cs as [|[c|] cs IH]; simpl; intros H Hin.
  - inversion Hin.
  - destruct (JSON_parse c) eqn:E; [discriminate|].
    apply elem_of_cons in Hin as [[= ->]|Hin]; [eexists; exact E | auto].
  - apply elem_of_cons in Hin as [[=]|Hin]. auto.
Qed.

(** ** The brace block *)

Lemma indexOf_Some c : forall s i,
  indexOf c s = Some i ->
  exists pre post, s = pre ++ c :: post /\ (c ∉ pre) /\ length pre = i.
Proof.
  induction s as [|d s IH]; simpl; intros i; [discriminate|].
  destruct (N.eqb_spec d c) as [->|Hne].
  - intros [= <-]. exists [], s. repeat split. apply not_elem_of_nil.
  - destruct (indexOf c s) as [i'|]; [|discriminate]. intros [= <-].
    destruct (IH _ eq_refl) as (pre & post & -> & Hnin & Hlen).
    exists (d :: pre), post. repeat split; [|simpl; congruence].
    rewrite elem_of_cons. intros [->|H]; [congruence | contradiction].
Qed.

Lemma indexOf_None c s : indexOf c s = None <-> c ∉ s.
Proof.
  induction s as [|d s IH]; simpl.
  - split; [intros _; apply not_elem_of_nil | reflexivity].
  - rewrite not_elem_of_cons. destruct (N.eqb_spec d c) as [->|Hne].
    + split; [discriminate | intros [H _]; congruence].
    + destruct (indexOf c s); simpl.
      * split; [discriminate | intros [_ H]; apply IH in H; discriminate].
      * split; [intros _; split; [congruence | apply IH; reflexivity] | reflexivity].
Qed.

Lemma lastIndexOf_None c s : lastIndexOf c s = None <-> c ∉ s.
Proof.
  induction s as [|d s IH]; simpl.
  - split; [intros _; apply not_elem_of_nil | reflexivity].
  - rewrite not_elem_of_cons. destruct (lastIndexOf c s).
    + split; [discriminate | intros [_ H]; apply IH in H; discriminate].
    + destruct (N.eqb_spec d c) as [->|Hne].
      * split; [discriminate | intros [H _]; congruence].
      * split; [intros _; split; [congruence | apply IH; reflexivity] | reflexivity].
Qed.

Lemma lastIndexOf_Some c : forall s j,
  lastIndexOf c s = Some j ->
  exists pre post, s = pre ++ c :: post /\ (c ∉ post) /\ length pre = j.
Proof.
  induction s as [|d s IH]; simpl; intros j; [discriminate|].
  destruct (lastIndexOf c s) as [j'|] eqn:E.
  - intros [= <-]. destruct (IH _ eq_refl) as (pre & post & -> & Hnin & Hlen).
    exists (d :: pre), post. repeat split; [assumption | simpl; congruence].
  - destruct (N.eqb_spec d c) as [->|Hne]; [|discriminate]. intros [= <-].
    exists [], s. repeat split. apply lastIndexOf_None. exact E.
Qed.

(** When [extractJsonBlock] gives a string, it is the text from the first
    [{] to the last [}]. *)
Lemma extractJsonBlock_Some text block :
  extractJsonBlock text = Some block ->
  exists pre mid post,
    text = pre ++ LBRACE :: mid ++ RBRACE :: post
    /\ (LBRACE ∉ pre) /\ (RBRACE ∉ post)
    /\ block = LBRACE :: mid ++ [RBRACE].
Proof.
  unfold extractJsonBlock.
  destruct (indexOf LBRACE text) as [i|] eqn:Ei; [|discriminate].
  destruct (lastIndexOf RBRACE text) as [j|] eqn:Ej; [|discriminate].
  destruct (Nat.leb_spec j i) as [|Hij]; [discriminate|]. intros [= <-].
  apply indexOf_Some in Ei as (p1 & q1 & H1 & Hn1 & Hl1).
  apply lastIndexOf_Some in Ej as (p2 & q2 & H2 & Hn2 & Hl2).
  assert (Hsplit : exists mid, p2 = p1 ++ LBRACE :: mid /\ q1 = mid ++ RBRACE :: q2).
  { rewrite H1 in H2. apply app_eq_inv in H2 as [(k & Hk1 & Hk2)|(k & Hk1 & Hk2)].
    - apply (f_equal length) in Hk1. rewrite length_app in Hk1. lia.
    - destruct k as [|b k].
      + rewrite app_nil_r in Hk1. apply (f_equal length) in Hk1. lia.
      + injection Hk2 as Hb Hq. subst b. exists k. split; assumption. }
  destruct Hsplit as (mid & -> & ->).
  exists p1, mid, q2. repeat split; try assumption.
  unfold slice. rewrite H1, <- Hl1, drop_app_length.
  rewrite <- Hl2, length_app. simpl.
  replace (length p1 + S (length mid) + 1 - length p1)%nat
    with (length (LBRACE :: mid ++ [RBRACE])) by (simpl; rewrite length_app; simpl; lia).
  change (LBRACE :: mid ++ RBRACE :: q2) with ((LBRACE :: mid) ++ [RBRACE] ++ q2).
  rewrite app_assoc. apply take_app_length.
Qed.

(** It gives [null] only when no [{] is followed, anywhere later, by a [}]. *)
Lemma extractJsonBlock_None text :
  extractJsonBlock text = None ->
  forall pre mid post, text <> pre ++ LBRACE :: mid ++ RBRACE :: post.
Proof.
  unfold extractJsonBlock. intros H pre mid post ->.
  destruct (indexOf LBRACE _) as [i|] eqn:Ei.
  2:{ apply indexOf_None in Ei. apply Ei. rewrite elem_of_app. right. left. }
  destruct (lastIndexOf RBRACE _) as [j|] eqn:Ej.
  2:{ apply lastIndexOf_None in Ej. apply Ej.
      rewrite elem_of_app. right. right. rewrite elem_of_app. right. left. }
  destruct (Nat.leb_spec j i) as [Hji|]; [|discriminate].
  apply indexOf_Some in Ei as (p1 & q1 & H1 & Hn1 & Hl1).
  apply lastIndexOf_Some in Ej as (p2 & q2 & H2 & Hn2 & Hl2).
  (* the first [{] is at or before the one after [pre] *)
  assert (Hi : (i <= length pre)%nat).
  { apply app_eq_inv in H1 as [(k & Hk1 & Hk2)|(k & Hk1 & Hk2)].
    - apply (f_equal length) in Hk1. rewrite length_app in Hk1. lia.
    - destruct k as [|b k].
      { rewrite app_nil_r in Hk1. apply (f_equal length) in Hk1. lia. }
      injection Hk2 as Hb _. subst b. exfalso. apply Hn1. rewrite Hk1.
      rewrite elem_of_app. right. left. }
  (* the last [}] is at or after the one before [post] *)
  assert (Hj : (length pre + 1 + length mid <= j)%nat).
  { change (pre ++ LBRACE :: mid ++ RBRACE :: post)
      with (pre ++ (LBRACE :: mid) ++ RBRACE :: post) in H2.
    rewrite app_assoc in H2.
    apply app_eq_inv in H2 as [(k & Hk1 & Hk2)|(k & Hk1 & Hk2)].
    - destruct k as [|b k].
      + rewrite app_nil_r in Hk1. apply (f_equal length) in Hk1.
        rewrite length_app in Hk1. simpl in Hk1. lia.
      + injection Hk2 as Hb Hq. subst b. exfalso. apply Hn2. rewrite Hq.
        rewrite elem_of_app. right. left.
    - apply (f_equal length) in Hk1. rewrite !length_app in Hk1. simpl in Hk1. lia. }
  lia.
Qed.

(** ** Cleaning a string adds no brace *)

Lemma elem_of_rev (c : cu) s : c ∈ rev s <-> c ∈ s.
Proof. rewrite !list_elem_of_In. symmetry. apply in_rev. Qed.

Lemma elem_of_drop_while p (c : cu) s : c ∈ drop_while p s -> c ∈ s.
Proof.
  destruct (drop_while_suffix p s) as (w & Hw & _). intros H.
  rewrite Hw. apply elem_of_app. right. exact H.
Qed.

Lemma elem_of_trim (c : cu) s : c ∈ trim s -> c ∈ s.
Proof.
  unfold trim, trimEnd, trimStart. intros H. rewrite elem_of_rev in H.
  apply elem_of_drop_while in H. rewrite elem_of_rev in H.
  apply elem_of_drop_while in H. exact H.
Qed.

Lemma elem_of_stripLeadingFence (c : cu) s : c ∈ stripLeadingFence s -> c ∈ s.
Proof.
  unfold stripLeadingFence. destruct (starts_with fence s) as [r|] eqn:E; [|trivial].
  apply starts_with_Some in E. intros H.
  do 2 apply elem_of_drop_while in H. rewrite E. apply elem_of_app. right. exact H.
Qed.

Lemma elem_of_stripTrailingFence (c : cu) s : c ∈ stripTrailingFence s -> c ∈ s.
Proof.
  unfold stripTrailingFence. destruct (starts_with fence (rev s)) as [r|] eqn:E; [|trivial].
  apply starts_with_Some in E. intros H. rewrite elem_of_rev in H.
  rewrite <- elem_of_rev, E. apply elem_of_app. right. exact H.
Qed.

Lemma elem_of_stripCodeFences (c : cu) s : c ∈ stripCodeFences s -> c ∈ s.
Proof.
  unfold stripCodeFences. intros H.
  apply elem_of_trim, elem_of_stripTrailingFence, elem_of_stripLeadingFence,
    elem_of_trim in H. exact H.
Qed.

Lemma elem_of_normalizeQuotes (c : cu) s :
  c ∈ normalizeQuotes s -> c ∈ s \/ c = SQUOTE \/ c = DQUOTE.
Proof.
  unfold normalizeQuotes. destruct s as [|d s]; [left; assumption|].
  rewrite list_elem_of_In, in_map_iff. intros (x & Hx & Hin).
  apply in_map_iff in Hin as (y & Hy & Hin). apply list_elem_of_In in Hin.
  subst c. destruct (isDoubleSmart x); [right; right; reflexivity|].
  subst x. destruct (isSingleSmart y); [right; left; reflexivity|].
  left. exact Hin.
Qed.

Lemma elem_of_stripJsonPrefix (c : cu) s : c ∈ stripJsonPrefix s -> c ∈ s.
Proof.
  unfold stripJsonPrefix. intros H. apply elem_of_trim in H.
  destruct s as [|j [|s0 [|o [|n r]]]]; try exact H.
  destruct (isJ j && isS s0 && isO o && isN n); [|exact H].
  apply elem_of_drop_while in H. do 4 right. exact H.
Qed.

Lemma no_lbrace_extract text : LBRACE ∉ text -> extractJsonBlock text = None.
Proof.
  intros H. unfold extractJsonBlock.
  apply indexOf_None in H. rewrite H. reflexivity.
Qed.

(** Without a [{] in the reply, the two brace blocks are [null]. *)
Lemma candidates_no_lbrace raw :
  LBRACE ∉ raw ->
  candidates raw =
    [ Some (normalizeQuotes (stripCodeFences raw));
      Some (stripJsonPrefix (normalizeQuotes (stripCodeFences raw)));
      None; None ].
Proof.
  intros H. unfold candidates.
  assert (Hn : LBRACE ∉ normalizeQuotes (stripCodeFences raw)).
  { intros Hin. apply elem_of_normalizeQuotes in Hin as [Hin|[Hin|Hin]];
      [|discriminate|discriminate].
    apply H. apply elem_of_stripCodeFences in Hin. exact Hin. }
  rewrite (no_lbrace_extract _ Hn).
  rewrite no_lbrace_extract; [reflexivity|].
  intros Hin. apply Hn. apply elem_of_stripJsonPrefix in Hin. exact Hin.
Qed.

(** ** Fences around an object *)

Lemma isJsonWs_isWhite c : isJsonWs c = true -> isWhite c = true.
Proof.
  unfold isJsonWs, isWhite.
  destruct (c =? 9); [reflexivity|]. destruct (c =? 10); [reflexivity|].
  destruct (c =? 13); [intros _; rewrite !orb_true_r; reflexivity|].
  destruct (c =? 32); [intros _; rewrite !orb_true_r; reflexivity|].
  discriminate.
Qed.

Lemma Forall_jsonWs_white w :
  Forall (fun c => isJsonWs c = true) w -> Forall (fun c => isWhite c = true) w.
Proof. intros H. eapply Forall_impl; [exact H | exact isJsonWs_isWhite]. Qed.

Lemma Forall_white_rev w :
  Forall (fun c => isWhite c = true) w -> Forall (fun c => isWhite c = true) (rev w).
Proof. apply Forall_rev. Qed.

Section Core.
(** A text [a :: mid ++ [b]] whose ends are not white space, inside
    white space [w1] and [w2]. *)
Variables (w1 w2 mid : jsstring) (a b : cu).
Hypothesis Hw1 : Forall (fun c => isWhite c = true) w1.
Hypothesis Hw2 : Forall (fun c => isWhite c = true) w2.
Hypothesis Ha : isWhite a = false.
Hypothesis Hb : isWhite b = false.

Lemma trimStart_core tail : trimStart (w1 ++ a :: tail) = a :: tail.
Proof.
  unfold trimStart. rewrite drop_while_all by exact Hw1.
  apply drop_while_stop. exact Ha.
Qed.

Lemma trimEnd_core front : trimEnd (front ++ b :: w2) = front ++ [b].
Proof.
  unfold trimEnd. rewrite rev_app_distr. simpl. rewrite <- app_assoc. simpl.
  rewrite drop_while_all by (apply Forall_white_rev; exact Hw2).
  rewrite drop_while_stop by exact Hb.
  simpl. rewrite rev_involutive. reflexivity.
Qed.

Lemma trim_core : trim (w1 ++ (a :: mid ++ [b]) ++ w2) = a :: mid ++ [b].
Proof.
  unfold trim. simpl. rewrite trimStart_core.
  replace (a :: (mid ++ [b]) ++ w2) with ((a :: mid) ++ b :: w2) by same_list.
  apply trimEnd_core.
Qed.
End Core.

Lemma trim_tight mid a b :
  isWhite a = false -> isWhite b = false ->
  trim (a :: mid ++ [b]) = a :: mid ++ [b].
Proof.
  intros Ha Hb. rewrite <- (app_nil_r (a :: mid ++ [b])) at 1.
  apply (trim_core [] [] mid a b); (assumption || constructor).
Qed.

Lemma trim_fenced text : trim (fenced text) = fenced text.
Proof.
  set (mid := [BACKTICK; BACKTICK] ++ lit "json" ++ [LF] ++ text
              ++ [LF; BACKTICK; BACKTICK]).
  replace (fenced text) with (BACKTICK :: mid ++ [BACKTICK])
    by (unfold fenced, fence, mid; same_list).
  apply trim_tight; reflexivity.
Qed.

(** The two [replace] calls and the trims take a fenced object back to the
    object text. *)
Lemma stripCodeFences_fenced w1 w2 body :
  Forall (fun c => isWhite c = true) w1 ->
  Forall (fun c => isWhite c = true) w2 ->
  stripCodeFences (fenced (w1 ++ (LBRACE :: body ++ [RBRACE]) ++ w2))
  = LBRACE :: body ++ [RBRACE].
Proof.
  intros H1 H2. unfold stripCodeFences. rewrite trim_fenced.
  assert (Elead : stripLeadingFence (fenced (w1 ++ (LBRACE :: body ++ [RBRACE]) ++ w2))
                  = (LBRACE :: body ++ [RBRACE]) ++ w2 ++ [LF] ++ fence).
  { unfold stripLeadingFence, fenced.
    assert (Es : starts_with fence
                   (fence ++ lit "json" ++ [LF]
                    ++ (w1 ++ (LBRACE :: body ++ [RBRACE]) ++ w2) ++ [LF] ++ fence)
                 = Some (lit "json" ++ [LF]
                    ++ (w1 ++ (LBRACE :: body ++ [RBRACE]) ++ w2) ++ [LF] ++ fence))
      by (apply starts_with_Some; reflexivity).
    rewrite Es.
    change (drop_while isAlnum (lit "json" ++ [LF] ++ ?t)) with ([LF] ++ t).
    rewrite <- !app_assoc. rewrite (app_assoc [LF] w1).
    rewrite drop_while_all by (apply Forall_app; split; [repeat constructor | exact H1]).
    simpl. reflexivity. }
  rewrite Elead.
  assert (Etrail : stripTrailingFence ((LBRACE :: body ++ [RBRACE]) ++ w2 ++ [LF] ++ fence)
                   = (LBRACE :: body ++ [RBRACE]) ++ w2 ++ [LF]).
  { unfold stripTrailingFence.
    rewrite (app_assoc _ w2), (app_assoc _ [LF]), rev_app_distr.
    change (rev fence) with fence.
    assert (Es : forall t, starts_with fence (fence ++ t) = Some t)
      by (intros t; apply starts_with_Some; reflexivity).
    rewrite Es, rev_involutive, <- app_assoc. reflexivity. }
  rewrite Etrail.
  apply (trim_core [] (w2 ++ [LF]) body LBRACE RBRACE); try reflexivity;
    [constructor|].
  apply Forall_app. split; [exact H2 | repeat constructor].
Qed.

Lemma stripCodeFences_plain w1 w2 body :
  Forall (fun c => isWhite c = true) w1 ->
  Forall (fun c => isWhite c = true) w2 ->
  stripCodeFences (w1 ++ (LBRACE :: body ++ [RBRACE]) ++ w2)
  = LBRACE :: body ++ [RBRACE].
Proof.
  intros H1 H2. unfold stripCodeFences.
  rewrite trim_core by (assumption || reflexivity).
  assert (Elead : stripLeadingFence (LBRACE :: body ++ [RBRACE]) = LBRACE :: body ++ [RBRACE])
    by reflexivity.
  rewrite Elead.
  assert (Etrail : stripTrailingFence (LBRACE :: body ++ [RBRACE]) = LBRACE :: body ++ [RBRACE]).
  { unfold stripTrailingFence.
    change (LBRACE :: body ++ [RBRACE]) with ((LBRACE :: body) ++ [RBRACE]) at 1.
    rewrite rev_app_distr. reflexivity. }
  rewrite Etrail.
  apply trim_tight; reflexivity.
Qed.

(** A text that [JSON.parse] turns into an object is an object text
    between JSON white space. *)
Lemma JSON_parse_object_text text ms :
  JSON_parse text = Normal (JObject ms) ->
  exists w1 body w2,
    text = w1 ++ (LBRACE :: body ++ [RBRACE]) ++ w2
    /\ Forall (fun c => isJsonWs c = true) w1
    /\ Forall (fun c => isJsonWs c = true) w2.
Proof.
  unfold JSON_parse. pose proof (proj1 (parse_reads (parse_fuel text)) text) as Hr.
  destruct (parse_value (parse_fuel text) text) as [v rest| |]; try discriminate.
  destruct (skip_ws_split rest) as (w2 & Hrest & Hw2).
  destruct (skip_ws rest); [|discriminate]. intros [= ->].
  destruct Hr as [_ Hobj]. destruct (Hobj ms eq_refl) as (w1 & body & Htext & Hw1).
  exists w1, body, w2. rewrite app_nil_r in Hrest. subst rest.
  split; [|split; assumption]. rewrite Htext. same_list.
Qed.

(** ** Properties of response coercion *)

Lemma candidates_cleaned a b :
  stripCodeFences a = stripCodeFences b -> candidates a = candidates b.
Proof. intros H. unfold candidates. rewrite H. reflexivity. Qed.

Lemma coerceModelJson_result raw :
  exists v,
    coerceModelJson raw = Normal v
    /\ (v = JNull
        \/ exists candidate,
             Some candidate ∈ candidates raw /\ JSON_parse candidate = Normal v).
Proof.
  unfold coerceModelJson. destruct raw as [|c raw].
  - exists JNull. split; [reflexivity | left; reflexivity].
  - rewrite tryCandidates_firstParsed.
    destruct (firstParsed (candidates (c :: raw))) as [v|] eqn:E.
    + exists v. split; [reflexivity|]. right. apply firstParsed_Some. exact E.
    + exists JNull. split; [reflexivity | left; reflexivity].
Qed.

Lemma summaryFromReply_result reply :
  exists v,
    summaryFromReply reply = Normal v
    /\ ((truthy v = true
         /\ coerceModelJson (trim reply) = Normal v
         /\ exists candidate,
              Some candidate ∈ candidates (trim reply)
              /\ JSON_parse candidate = Normal v)
        \/ (v = unparsedSummary (trim reply)
            /\ exists w, coerceModelJson (trim reply) = Normal w /\ truthy w = false)).
Proof.
  unfold summaryFromReply.
  destruct (coerceModelJson_result (trim reply)) as (v & Hv & Hsrc).
  rewrite Hv. cbn [mbind completion_bind mret completion_ret].
  destruct (truthy v) eqn:Ht.
  - exists v. split; [reflexivity|]. left. split; [exact Ht|]. split; [reflexivity|].
    destruct Hsrc as [->|Hc]; [discriminate | exact Hc].
  - eexists. split; [reflexivity|]. right. split; [reflexivity|].
    exists v. split; [reflexivity | exact Ht].
Qed.

(** C1, as the specification states it, fails: the reply [[1]] is coerced
    to a JSON array, which is neither a summary object of the schema nor
    the unparsed-summary failure. *)
Lemma C1_coercion_can_return_other_values :
  ~ (forall reply, exists v,
        summaryFromReply reply = Normal v
        /\ (isSummaryObject v = true \/ isUnparsedSummary v)).
Proof.
  intros H. destruct (H (lit "[1]")) as (v & Hv & Hshape).
  assert (E : summaryFromReply (lit "[1]")
              = Normal (JArray [JNumber (mkNum false 1 0)])) by (vm_compute; reflexivity).
  rewrite E in Hv. injection Hv as <-.
  destruct Hshape as [Hs|[raw Hr]]; discriminate.
Qed.

(** The first candidate that parses: the candidates before it are
    absent or do not parse. *)
Lemma firstParsed_first cs v :
  firstParsed cs = Some v ->
  exists before candidate after,
    cs = before ++ Some candidate :: after
    /\ JSON_parse candidate = Normal v
    /\ forall earlier, Some earlier ∈ before -> exists e, JSON_parse earlier = Throw e.
Proof.
  induction cs as [|[c|] cs IH]; cbn [firstParsed]; [discriminate| |].
  - destruct (JSON_parse c) as [w|e] eqn:E.
    + intros [= ->]. exists [], c, cs. split; [reflexivity|]. split; [exact E|].
      intros earlier Hin. inversion Hin.
    + intros H. destruct (IH H) as (before & candidate & after & -> & Hp & Hb).
      exists (Some c :: before), candidate, after. split; [reflexivity|].
      split; [exact Hp|]. intros earlier Hin.
      apply elem_of_cons in Hin as [[= ->]|Hin]; [eauto | apply Hb; exact Hin].
  - intros H. destruct (IH H) as (before & candidate & after & -> & Hp & Hb).
    exists (None :: before), candidate, after. split; [reflexivity|].
    split; [exact Hp|]. intros earlier Hin.
    apply elem_of_cons in Hin as [Hin|Hin]; [discriminate | apply Hb; exact Hin].
Qed.

(** C1 (amended): coercion is total and never throws.  For every string
    [coerceModelJson] returns the value of the first candidate that
    [JSON.parse] accepts, whatever JSON value that is, and [null] when
    the string is empty or no candidate parses; the coercion step of
    summarization returns that value when it is truthy, and otherwise the
    failure [{unparsed_summary, parsing_note}] built from the trimmed
    reply. *)
Theorem C1_coercion_is_total :
  (forall raw, exists v,
      coerceModelJson raw = Normal v
      /\ ((v = JNull
           /\ (raw = []
               \/ forall candidate,
                    Some candidate ∈ candidates raw ->
                    exists e, JSON_parse candidate = Throw e))
          \/ (raw <> []
              /\ exists before candidate after,
                   candidates raw = before ++ Some candidate :: after
                   /\ JSON_parse candidate = Normal v
                   /\ forall earlier,
                        Some earlier ∈ before -> exists e, JSON_parse earlier = Throw e)))
  /\ (forall reply, exists v,
        coerceModelJson (trim reply) = Normal v
        /\ summaryFromReply reply
           = Normal (if truthy v then v
                     else JObject [(lit "unparsed_summary", JString (trim reply));
                                   (lit "parsing_note", JString parsingNote)])).
Proof.
  split.
  - intros raw. unfold coerceModelJson. destruct raw as [|c raw].
    + exists JNull. split; [reflexivity|]. left. split; [reflexivity | left; reflexivity].
    + rewrite tryCandidates_firstParsed.
      destruct (firstParsed (candidates (c :: raw))) as [v|] eqn:E.
      * exists v. split; [reflexivity|]. right. split; [discriminate|].
        apply firstParsed_first. exact E.
      * exists JNull. split; [reflexivity|]. left. split; [reflexivity|]. right.
        intros candidate Hin. eapply firstParsed_None; eassumption.
  - intros reply. destruct (coerceModelJson_normal (trim reply)) as [v Hv].
    exists v. split; [exact Hv|]. unfold summaryFromReply. rewrite Hv.
    cbn [mbind completion_bind mret completion_ret].
    destruct (truthy v); reflexivity.
Qed.

(** C5, as the specification states it, fails: the reply [[1]] has no
    brace, yet its first candidate parses and no failure is returned. *)
Lemma C5_braceless_reply_can_parse :
  ~ (forall reply,
        (LBRACE ∉ reply) -> (RBRACE ∉ reply) ->
        (forall candidate, Some candidate ∈ candidates (trim reply) ->
                           exists e, JSON_parse candidate = Throw e)
        /\ summaryFromReply reply = Normal (unparsedSummary reply)).
Proof.
  intros H.
  destruct (H (lit "[1]")) as [_ Hs];
    [apply indexOf_None; reflexivity | apply lastIndexOf_None; reflexivity |].
  vm_compute in Hs. discriminate.
Qed.

(** C5 (amended): a reply without braces has no brace block, so only the
    normalized text and its prefix-stripped form are tried; when neither
    is valid JSON, no candidate parses and summarization returns the
    failure whose [unparsed_summary] is the trimmed reply and whose
    [parsing_note] is the fixed string. *)
Theorem C5_braceless_unparseable_reply reply :
  (LBRACE ∉ reply) -> (RBRACE ∉ reply) ->
  let normalized := normalizeQuotes (stripCodeFences (trim reply)) in
  (exists e, JSON_parse normalized = Throw e) ->
  (exists e, JSON_parse (stripJsonPrefix normalized) = Throw e) ->
  candidates (trim reply)
    = [Some normalized; Some (stripJsonPrefix normalized); None; None]
  /\ (forall candidate, Some candidate ∈ candidates (trim reply) ->
                        exists e, JSON_parse candidate = Throw e)
  /\ summaryFromReply reply
     = Normal (JObject [(lit "unparsed_summary", JString (trim reply));
                        (lit "parsing_note", JString parsingNote)]).
Proof.
  intros Hl _ normalized [e1 H1] [e2 H2].
  assert (Hc : candidates (trim reply)
               = [Some normalized; Some (stripJsonPrefix normalized); None; None]).
  { apply candidates_no_lbrace. intros Hin. apply Hl.
    apply elem_of_trim in Hin. exact Hin. }
  assert (Hf : firstParsed (candidates (trim reply)) = None).
  { rewrite Hc. cbn [firstParsed]. rewrite H1, H2. reflexivity. }
  split; [exact Hc|]. split.
  - intros candidate Hin. eapply firstParsed_None; eassumption.
  - unfold summaryFromReply, coerceModelJson.
    destruct (trim reply) as [|c r] eqn:Et; [reflexivity|].
    rewrite tryCandidates_firstParsed, Hf. reflexivity.
Qed.

(** On the reply of the specification, [The paper discusses...]. *)
Lemma C5_braceless_unparseable_reply_witness :
  summaryFromReply (lit "The paper discusses...")
  = Normal (JObject [(lit "unparsed_summary", JString (lit "The paper discusses..."));
                     (lit "parsing_note", JString parsingNote)]).
Proof.
  refine (proj2 (proj2 (C5_braceless_unparseable_reply
                          (lit "The paper discusses...") _ _ _ _))).
  - apply indexOf_None. reflexivity.
  - apply lastIndexOf_None. reflexivity.
  - eexists. vm_compute. reflexivity.
  - eexists. vm_compute. reflexivity.
Defined.

(** C6: when [j] is a valid JSON text for an object of the summary
    schema, coercing [j] wrapped in a [json] code fence gives exactly what
    coercing [j] gives; and when [j] has no typographic quotes, that is
    the object [j] denotes. *)
Theorem C6_fenced_object_coerces_alike j v :
  JSON_parse j = Normal v ->
  isSummaryObject v = true ->
  coerceModelJson (fenced j) = coerceModelJson j
  /\ (plainQuotes j -> coerceModelJson j = Normal v).
Proof.
  intros Hp Hs. destruct v as [| | | | |ms]; try discriminate. clear Hs.
  destruct (JSON_parse_object_text j ms Hp) as (w1 & body & w2 & -> & H1 & H2).
  pose proof (Forall_jsonWs_white w1 H1) as H1'.
  pose proof (Forall_jsonWs_white w2 H2) as H2'.
  assert (Hc : candidates (fenced (w1 ++ (LBRACE :: body ++ [RBRACE]) ++ w2))
               = candidates (w1 ++ (LBRACE :: body ++ [RBRACE]) ++ w2)).
  { apply candidates_cleaned.
    rewrite stripCodeFences_fenced, stripCodeFences_plain by assumption.
    reflexivity. }
  split.
  - unfold coerceModelJson. rewrite Hc. destruct w1; reflexivity.
  - intros Hplain. rewrite (JSON_parse_ws w1 w2 _ H1 H2) in Hp.
    assert (Hin : plainQuotes (LBRACE :: body ++ [RBRACE])).
    { unfold plainQuotes in *. apply Forall_app in Hplain as [_ Hplain].
      apply Forall_app in Hplain as [Hplain _]. exact Hplain. }
    assert (Ht : tryCandidates (candidates (w1 ++ (LBRACE :: body ++ [RBRACE]) ++ w2))
                 = Normal (JObject ms)).
    { unfold candidates. rewrite stripCodeFences_plain by assumption.
      rewrite (normalizeQuotes_plain _ Hin). cbn [tryCandidates].
      rewrite Hp. reflexivity. }
    unfold coerceModelJson. rewrite Ht. destruct w1; reflexivity.
Qed.

(** On the reply of the round-trip example, fenced and bare. *)
Lemma C6_fenced_object_coerces_alike_witness :
  JSON_parse exampleSummaryText = Normal exampleSummary
  /\ isSummaryObject exampleSummary = true
  /\ coerceModelJson (fenced exampleSummaryText) = Normal exampleSummary
  /\ coerceModelJson exampleSummaryText = Normal exampleSummary.
Proof.
  assert (Hp : JSON_parse exampleSummaryText = Normal exampleSummary)
    by (vm_compute; reflexivity).
  assert (Hs : isSummaryObject exampleSummary = true) by (vm_compute; reflexivity).
  split; [exact Hp|]. split; [exact Hs|].
  destruct (C6_fenced_object_coerces_alike exampleSummaryText exampleSummary Hp Hs)
    as [Hsame Hplain].
  rewrite Hsame. split; apply Hplain; repeat constructor.
Defined.

(** C10: coercion accepts any truthy JSON value.  The replies [[1]] and
    ["hello"] are coerced to an array and to a string, neither of them an
    object, and [summarizeForReview] returns them as the summary, with no
    unparsed-summary failure. *)
Theorem C10_coercion_accepts_non_objects :
  let array := JArray [JNumber (mkNum false 1 0)] in
  let text := JString (lit "hello") in
  (coerceModelJson (lit "[1]") = Normal array
   /\ isObject array = false /\ isSummaryObject array = false
   /\ ~ isUnparsedSummary array
   /\ forall rawText,
        summarizeForReview (Some (fun _ => Normal (lit "[1]"))) rawText = Normal array)
  /\ (coerceModelJson (quoted (lit "hello")) = Normal text
      /\ isObject text = false /\ isSummaryObject text = false
      /\ ~ isUnparsedSummary text
      /\ forall rawText,
           summarizeForReview (Some (fun _ => Normal (quoted (lit "hello")))) rawText
           = Normal text).
Proof.
  intros array text. split.
  - split; [vm_compute; reflexivity|]. split; [reflexivity|]. split; [reflexivity|].
    split; [intros [raw H]; discriminate|].
    intros rawText. unfold summarizeForReview.
    cbn [mbind completion_bind]. vm_compute. reflexivity.
  - split; [vm_compute; reflexivity|]. split; [reflexivity|]. split; [reflexivity|].
    split; [intros [raw H]; discriminate|].
    intros rawText. unfold summarizeForReview.
    cbn [mbind completion_bind]. vm_compute. reflexivity.
Qed.

(** ** Sample replies *)

(** Typographic quotes around keys and values are normalized first. *)
Example smart_quoted_reply :
  summaryFromReply
    (lit "{" ++ [8220] ++ lit "novelty" ++ [8221] ++ lit ":"
     ++ [8220] ++ lit "n" ++ [8221] ++ lit "}")
  = Normal (JObject [(lit "novelty", JString (lit "n"))]).
Proof. vm_compute. reflexivity. Qed.

(** Prose around the object: the first two candidates fail, the brace
    block parses. *)
Example prose_wrapped_reply :
  summaryFromReply (lit "Here you go: " ++ exampleSummaryText ++ lit " Hope it helps.")
  = Normal exampleSummary.
Proof. vm_compute. reflexivity. Qed.

(** A bare [json] label before the object. *)
Example labelled_reply :
  summaryFromReply (lit "JSON" ++ [LF] ++ exampleSummaryText) = Normal exampleSummary.
Proof. vm_compute. reflexivity. Qed.

(** A reply that parses to a falsy value falls back to the unparsed
    summary: [null], and a number that rounds to zero. *)
Example falsy_replies :
  summaryFromReply (lit "null") = Normal (unparsedSummary (lit "null"))
  /\ summaryFromReply (lit "1e-400") = Normal (unparsedSummary (lit "1e-400"))
  /\ summaryFromReply (lit "5e-324")
     = Normal (JNumber (mkNum false 5 (-324))).
Proof. repeat split; vm_compute; reflexivity. Qed.

(** An empty reply: no candidate is tried. *)
Example empty_reply :
  coerceModelJson [] = Normal JNull
  /\ summaryFromReply [] = Normal (unparsedSummary []).
Proof. split; reflexivity. Qed.

(** ** Properties of the analysis loop *)

(** [run] steps through sequencing and [try]/[catch]; [look] reads the
    fields of an entry. *)
Ltac run := cbn [mbind completion_bind mret completion_ret tryCatch fst snd].
Ltac look :=
  cbn [inState succeeded failedResult id originalName status error pages
       textContent textFileName characters summary].
Tactic Notation "look" "in" hyp(H) :=
  cbn [inState succeeded failedResult id originalName status error pages
       textContent textFileName characters summary] in H.

Section AnalysisFacts.
Variable getText : list N -> completion PdfText.
Variable reviewModel : option (jsstring -> completion jsstring).
Variable pathParseName : jsstring -> jsstring.
Variable toLowerCase : jsstring -> jsstring.
Variable randomUUID : nat -> jsstring.
Variable now : jsstring.
Variable resJson : AnalyzeBody -> completion unit.

Lemma analyzeFile_failed v uuid file :
  trimmedTextOf getText file = None \/ trimmedTextOf getText file = Some [] ->
  exists reason,
    analyzeFile getText reviewModel pathParseName toLowerCase v uuid file
    = Normal (failedResult uuid file reason).
Proof.
  unfold trimmedTextOf, analyzeFile, extractTextFromPdf.
  destruct (getText (buffer file)) as [t|e]; run.
  - intros [H|H]; [discriminate|]. injection H as H. rewrite H.
    eexists. reflexivity.
  - intros _. eexists. reflexivity.
Qed.

(** One pass of the loop body never throws, and leaves the entry in one
    of the four states. *)
Lemma analyzeFile_state v uuid file :
  exists r st,
    analyzeFile getText reviewModel pathParseName toLowerCase v uuid file = Normal r
    /\ id r = uuid /\ originalName r = originalname file
    /\ inState reviewModel r st.
Proof.
  unfold analyzeFile, extractTextFromPdf.
  destruct (getText (buffer file)) as [t|e]; run.
  2:{ eexists _, ExtractionFailed. look. repeat split; eauto. }
  destruct (trim (orElse (default [] (pdf_text t)) [])) as [|c text] eqn:Et.
  { eexists _, ExtractionFailed. look. repeat split; eauto. }
  unfold summarizeForReview.
  destruct reviewModel as [generate|] eqn:Em; run.
  2:{ eexists _, WarningSummary. look. repeat split; eauto. }
  destruct (generate (buildPrompt (c :: text))) as [reply|e] eqn:Eg; run.
  2:{ eexists _, ExtractionFailed. look. repeat split; eauto. }
  destruct (summaryFromReply_result reply) as (s & Hs & Hcase).
  rewrite Hs. run.
  destruct Hcase as [(Ht & Hc & _)|(-> & w & Hw & Ht)].
  - eexists _, ParsedSummary. look. repeat split; eauto.
    exists generate, (c :: text), reply, s. repeat split; eauto.
  - eexists _, UnparsedSummary. look. repeat split; eauto.
    exists generate, (c :: text), reply, w. repeat split; eauto.
Qed.

Lemma analyzeLoop_results v : forall files n acc,
  exists rs,
    analyzeLoop getText reviewModel pathParseName toLowerCase randomUUID
      v n files acc = Normal (acc ++ rs)
    /\ length rs = length files
    /\ forall i file,
         files !! i = Some file ->
         exists r,
           rs !! i = Some r
           /\ analyzeFile getText reviewModel pathParseName toLowerCase
                v (randomUUID (n + i)) file = Normal r.
Proof.
  induction files as [|file files IH]; intros n acc.
  - exists []. rewrite app_nil_r. repeat split. intros i f Hi. discriminate.
  - destruct (analyzeFile_state v (randomUUID n) file) as (r & st & Hr & _).
    cbn [analyzeLoop]. rewrite Hr. run.
    destruct (IH (S n) (acc ++ [r])) as (rs & Hrs & Hlen & Hpt).
    exists (r :: rs). split; [rewrite Hrs, <- app_assoc; reflexivity|].
    split; [simpl; congruence|].
    intros [|i] f Hi.
    + injection Hi as <-. exists r. rewrite Nat.add_0_r. split; [reflexivity | exact Hr].
    + destruct (Hpt i f Hi) as (r' & Hr' & Ha). exists r'.
      rewrite Nat.add_succ_r. split; assumption.
Qed.

(** What the handler answers for a list that is not empty: the entries
    of the loop when [res.json] takes them, status 500 when it throws. *)
Lemma analyze_answer v n files rs :
  files <> [] ->
  analyzeLoop getText reviewModel pathParseName toLowerCase randomUUID v n files []
  = Normal rs ->
  analyze getText reviewModel pathParseName toLowerCase randomUUID now resJson v n files
  = match resJson {| generatedAt := now; totalPapers := length rs; results := rs |} with
    | Normal _ =>
        Sent 200 {| generatedAt := now; totalPapers := length rs; results := rs |}
    | Throw _ => Refused 500 (lit "Unexpected server error. Check logs for details.")
    end.
Proof.
  intros Hne Hrs. unfold analyze. destruct files as [|f fs]; [congruence|].
  rewrite Hrs. run.
  destruct (resJson {| generatedAt := now; totalPapers := length rs; results := rs |});
    reflexivity.
Qed.

(** C2 (amended): for every non-empty list of uploaded files, the loop
    of [analyze] makes exactly one entry per file, in the order of the
    files; the entry of a file is what the loop body gives for that file
    alone, so a file whose extraction throws or whose text is empty gets a
    failed entry and the entries of the other files are what they would
    be in any other batch.  The handler answers with these entries and
    status 200 when [res.json] can serialize them, and with status 500
    when it throws.  (An empty upload is refused with status 400.) *)
Theorem C2_one_result_per_file v n files :
  files <> [] ->
  exists rs,
    analyze getText reviewModel pathParseName toLowerCase randomUUID now resJson v n files
    = match resJson {| generatedAt := now; totalPapers := length files;
                       results := rs |} with
      | Normal _ =>
          Sent 200 {| generatedAt := now; totalPapers := length files; results := rs |}
      | Throw _ => Refused 500 (lit "Unexpected server error. Check logs for details.")
      end
    /\ length rs = length files
    /\ (forall i file,
          files !! i = Some file ->
          exists r,
            rs !! i = Some r
            /\ analyzeFile getText reviewModel pathParseName toLowerCase
                 v (randomUUID (n + i)) file = Normal r
            /\ id r = randomUUID (n + i)
            /\ originalName r = originalname file
            /\ (trimmedTextOf getText file = None
                \/ trimmedTextOf getText file = Some [] ->
                status r = Some (lit "failed")
                /\ (exists reason, error r = Some reason)
                /\ summary r = None))
    /\ (forall files' rs' code at' total',
          analyze getText reviewModel pathParseName toLowerCase randomUUID now resJson
            v n files'
          = Sent code {| generatedAt := at'; totalPapers := total'; results := rs' |} ->
          forall i, files' !! i = files !! i -> rs' !! i = rs !! i).
Proof.
  intros Hne.
  destruct (analyzeLoop_results v files n []) as (rs & Hrs & Hlen & Hpt).
  cbn [app] in Hrs. exists rs.
  split; [rewrite (analyze_answer v n files rs Hne Hrs), Hlen; reflexivity|].
  split; [exact Hlen|]. split.
  - intros i file Hi. destruct (Hpt i file Hi) as (r & Hr & Hfile).
    exists r. split; [exact Hr|]. split; [exact Hfile|].
    destruct (analyzeFile_state v (randomUUID (n + i)) file)
      as (r0 & st & Hr0 & Hid & Hname & _).
    rewrite Hfile in Hr0. injection Hr0 as <-.
    split; [exact Hid|]. split; [exact Hname|].
    intros Hfail. destruct (analyzeFile_failed v (randomUUID (n + i)) file Hfail)
      as (reason & Hf).
    rewrite Hfile in Hf. injection Hf as ->. look. eauto.
  - intros files' rs' code at' total' Ha' i Hi.
    destruct files' as [|f' fs']; [discriminate|].
    destruct (analyzeLoop_results v (f' :: fs') n []) as (rs0 & Hrs0 & Hlen0 & Hpt0).
    cbn [app] in Hrs0.
    rewrite (analyze_answer v n (f' :: fs') rs0 ltac:(discriminate) Hrs0) in Ha'.
    destruct (resJson _); [|discriminate]. injection Ha' as _ _ _ <-.
    destruct (files !! i) as [file|] eqn:Ef.
    + destruct (Hpt i file Ef) as (r & Hr & Hfile).
      destruct (Hpt0 i file Hi) as (r' & Hr' & Hfile').
      rewrite Hr, Hr'. congruence.
    + apply lookup_ge_None in Ef, Hi.
      rewrite (proj2 (lookup_ge_None rs i)) by lia.
      apply lookup_ge_None. lia.
Qed.


End AnalysisFacts.


(** C2, as the specification states it, fails on the empty list, which is
    a list of at most five files: the handler refuses it with status 400
    and returns no list of results. *)
Lemma C2_empty_upload_is_refused :
  ~ (forall getText reviewModel pathParseName toLowerCase randomUUID now resJson
            v n files,
        (length files <= 5)%nat ->
        exists body,
          analyze getText reviewModel pathParseName toLowerCase randomUUID now resJson
            v n files = Sent 200 body
          /\ length (results body) = length files).
Proof.
  intros H.
  destruct (H sampleGetText None sampleBaseName sampleLower sampleUUID sampleNow sampleResJson
              SessionServer 0%nat [] ltac:(simpl; lia)) as (body & Hb & _).
  discriminate.
Qed.

(** On the sample run: three entries, the second failed. *)
Lemma C2_one_result_per_file_witness :
  sampleFiles <> []
  /\ exists r1 r2 r3,
       analyze sampleGetText (Some sampleModel) sampleBaseName sampleLower
         sampleUUID sampleNow sampleResJson SessionServer 0 sampleFiles
       = Sent 200 {| generatedAt := sampleNow; totalPapers := 3;
                     results := [r1; r2; r3] |}
       /\ status r1 = None
       /\ status r2 = Some (lit "failed")
       /\ status r3 = None.
Proof.
  split; [discriminate|].
  destruct (C2_one_result_per_file sampleGetText (Some sampleModel) sampleBaseName
              sampleLower sampleUUID sampleNow sampleResJson SessionServer 0%nat sampleFiles)
    as (rs & Ha & Hlen & Hpt & _); [discriminate|].
  destruct rs as [|r1 [|r2 [|r3 [|r4 rs]]]]; try discriminate.
  exists r1, r2, r3. split; [exact Ha|].
  destruct (Hpt 0%nat _ eq_refl) as (x1 & Hx1 & H1 & _).
  destruct (Hpt 1%nat _ eq_refl) as (x2 & Hx2 & H2 & _).
  destruct (Hpt 2%nat _ eq_refl) as (x3 & Hx3 & H3 & _).
  injection Hx1 as <-. injection Hx2 as <-. injection Hx3 as <-.
  vm_compute in H1, H2, H3.
  injection H1 as <-. injection H2 as <-. injection H3 as <-.
  repeat split.
Defined.



(** ** Properties of accounts and sessions *)

Lemma bearer_header (userStore : gmap jsstring Entry) token :
  tokenRequireAuth userStore (Some (lit "Bearer " ++ token)) =
  match userStore !! token with
  | None => Stop 401 (lit "Invalid token")
  | Some user => Next user
  end.
Proof. reflexivity. Qed.

(** In the server with sessions, logout removes the session: the cookie
    that was valid no longer passes [requireAuth]. *)
Lemma session_logout_destroys srv cookie user :
  sessionUser srv cookie = Some user ->
  fst (sessionLogout srv cookie) = Sent 200 true
  /\ sessionUser (snd (sessionLogout srv cookie)) cookie = None
  /\ sessionRequireAuth (snd (sessionLogout srv cookie)) cookie
     = Some (401%nat, lit "Authentication required").
Proof.
  intros Hu. unfold sessionLogout, sessionRequireAuth. rewrite Hu.
  cbn [fst snd]. destruct cookie as [sid|]; [|discriminate].
  assert (Hgone : sessionUser {| db := db srv; sessions := delete sid (sessions srv) |}
                    (Some sid) = None)
    by (unfold sessionUser; cbn [sessions]; apply lookup_delete_eq).
  rewrite Hgone. repeat split.
Qed.

(** C7, where the code departs from it: in the serverless server logout
    answers [{success: true}] and leaves the store as it was, so every
    [Authorization] header is judged after logout as it was before; the
    token Ann got at signup still authenticates her. *)
Theorem C7_token_survives_logout :
  (forall (userStore : gmap jsstring Entry) authorization,
      fst (tokenLogout userStore) = Sent 200 true
      /\ tokenRequireAuth (snd (tokenLogout userStore)) authorization
         = tokenRequireAuth userStore authorization)
  /\ tokenRequireAuth (snd (tokenLogout storeWithAnn))
       (Some (lit "Bearer " ++ annToken))
     = Next {| e_id := annUUID; e_name := lit "Ann";
               e_email := lit "ann@example.org"; e_passwordHash := None |}.
Proof.
  split; [intros; split; reflexivity|].
  unfold tokenLogout. cbn [snd]. rewrite bearer_header.
  unfold storeWithAnn, tokenSignup.
  change (badSignup ann) with false. cbn iota.
  rewrite lookup_empty. cbn [snd]. rewrite lookup_insert_eq.
  vm_compute. reflexivity.
Qed.

(** The store of the serverless server after the signup of Ann. *)
Lemma storeWithAnn_is :
  storeWithAnn
  = <[annToken := {| e_id := annUUID; e_name := lit "Ann";
                     e_email := lit "ann@example.org";
                     e_passwordHash := None |}]>
      (<[lit "ann@example.org" :=
           {| e_id := annUUID; e_name := lit "Ann";
              e_email := lit "ann@example.org";
              e_passwordHash := Some (lit "sha256:secret1") |}]> ∅).
Proof.
  unfold storeWithAnn, tokenSignup. change (badSignup ann) with false. cbn iota.
  rewrite lookup_empty. reflexivity.
Qed.

Section LoginRequests.
Variable toLowerCase : jsstring -> jsstring.
Variable hashPassword : jsstring -> jsstring.

(** On a body whose fields are strings the handlers are [tokenLogin] and
    [sessionLogin]. *)
Lemma tokenLoginJson_strings userStore c token :
  tokenLoginJson toLowerCase hashPassword userStore (bodyOf c) token
  = Normal (tokenLogin toLowerCase hashPassword userStore c token).
Proof.
  unfold tokenLoginJson, tokenLogin.
  change (field (bodyOf c) (lit "email")) with (Some (JString (c_email c))).
  change (field (bodyOf c) (lit "password")) with (Some (JString (c_password c))).
  cbv [default from_option Datatypes.id normalizeEmailOf hashPasswordOf]. run.
  destruct (userStore !! normalizeEmail toLowerCase (c_email c)); [|reflexivity].
  destruct (decide _); reflexivity.
Qed.

Lemma sessionLoginJson_strings srv cookie c freshSid :
  sessionLoginJson toLowerCase hashPassword srv cookie (bodyOf c) freshSid
  = Normal (sessionLogin toLowerCase hashPassword srv cookie c freshSid).
Proof.
  unfold sessionLoginJson, sessionLogin.
  change (field (bodyOf c) (lit "email")) with (Some (JString (c_email c))).
  change (field (bodyOf c) (lit "password")) with (Some (JString (c_password c))).
  cbv [default from_option Datatypes.id normalizeEmailOf hashPasswordOf]. run.
  destruct (getUserByEmail (db srv) _) as [[row|]|e]; run; try reflexivity.
  destruct (decide _); reflexivity.
Qed.

(** With strings for e-mail and password, a login that fails gets the
    one answer, whatever the cause. *)
Lemma login_failure_on_strings (userStore : gmap jsstring Entry) (srv : Server)
    (cookie : option jsstring) (c : Credentials) (token freshSid : jsstring) :
  (tokenLoginFails toLowerCase hashPassword userStore c ->
   tokenLoginJson toLowerCase hashPassword userStore (bodyOf c) token
   = Normal (Refused 401 (lit "Invalid email or password."), userStore))
  /\ (sessionLoginFails toLowerCase hashPassword srv c ->
      sessionLoginJson toLowerCase hashPassword srv cookie (bodyOf c) freshSid
      = Normal (Refused 401 (lit "Invalid email or password."), srv)).
Proof.
  rewrite tokenLoginJson_strings, sessionLoginJson_strings. split.
  - unfold tokenLoginFails, tokenLogin. intros [H|(user & H & Hne)]; rewrite H.
    + reflexivity.
    + destruct (decide _) as [Heq|_]; [contradiction | reflexivity].
  - unfold sessionLoginFails, sessionLogin. intros [H|(user & H & Hne)]; rewrite H.
    + reflexivity.
    + destruct (decide _) as [Heq|_]; [contradiction | reflexivity].
Qed.

(** With a password that is no string, the digest throws, and it is
    asked for only once the e-mail has been found. *)
Lemma login_with_no_string (userStore : gmap jsstring Entry) (srv : Server)
    (cookie : option jsstring) (email : jsstring) (password : json)
    (token freshSid : jsstring) :
  (forall s, password <> JString s) ->
  let body := JObject [(lit "email", JString email); (lit "password", password)] in
  (userStore !! normalizeEmail toLowerCase email = None ->
   tokenLoginJson toLowerCase hashPassword userStore body token
   = Normal (Refused 401 (lit "Invalid email or password."), userStore))
  /\ (is_Some (userStore !! normalizeEmail toLowerCase email) ->
      tokenLoginJson toLowerCase hashPassword userStore body token
      = Throw invalidArgType)
  /\ (getUserByEmail (db srv) (normalizeEmail toLowerCase email) = Normal None ->
      sessionLoginJson toLowerCase hashPassword srv cookie body freshSid
      = Normal (Refused 401 (lit "Invalid email or password."), srv))
  /\ (is_Some (default None
                 (match getUserByEmail (db srv) (normalizeEmail toLowerCase email) with
                  | Normal found => Some found
                  | Throw _ => None
                  end)) ->
      sessionLoginJson toLowerCase hashPassword srv cookie body freshSid
      = Normal (Refused 500 (lit "Login failed. Please try again."), srv)).
Proof.
  intros Hpw body.
  assert (Hdigest : hashPasswordOf hashPassword password = Throw invalidArgType).
  { destruct password; try reflexivity. destruct (Hpw s eq_refl). }
  unfold tokenLoginJson, sessionLoginJson.
  change (field body (lit "email")) with (Some (JString email)).
  change (field body (lit "password")) with (Some password).
  cbv [default from_option Datatypes.id normalizeEmailOf]. run. rewrite Hdigest.
  split; [intros ->; reflexivity|].
  split; [intros [user ->]; reflexivity|].
  split; [intros ->; reflexivity|].
  destruct (getUserByEmail (db srv) _) as [[row|]|e]; cbv [default from_option Datatypes.id];
    intros [x Hx]; try discriminate.
  reflexivity.
Qed.
End LoginRequests.

(** C8, where the code departs from it.  With strings for e-mail and
    password a login that fails gets the one answer, status 401 with
    [Invalid email or password.], whether the e-mail is unknown or the
    digest differs, on both servers.  With a password that is no string
    the two cases are told apart: an unknown e-mail gets that 401, while
    for a registered e-mail the digest is asked for and throws, so the
    serverless server throws out of its handler and the server with
    sessions answers 500; so for the password [123] and the e-mail of
    Ann. *)
Theorem C8_failing_login_tells_registered_emails :
  (forall (toLowerCase hashPassword : jsstring -> jsstring)
          (userStore : gmap jsstring Entry) (srv : Server) (cookie : option jsstring)
          (c : Credentials) (token freshSid : jsstring),
      (tokenLoginFails toLowerCase hashPassword userStore c ->
       tokenLoginJson toLowerCase hashPassword userStore (bodyOf c) token
       = Normal (Refused 401 (lit "Invalid email or password."), userStore))
      /\ (sessionLoginFails toLowerCase hashPassword srv c ->
          sessionLoginJson toLowerCase hashPassword srv cookie (bodyOf c) freshSid
          = Normal (Refused 401 (lit "Invalid email or password."), srv)))
  /\ (forall (toLowerCase hashPassword : jsstring -> jsstring)
             (userStore : gmap jsstring Entry) (srv : Server)
             (cookie : option jsstring) (email : jsstring) (password : json)
             (token freshSid : jsstring) (user : Entry) (row : Row),
        (forall s, password <> JString s) ->
        let body := JObject [(lit "email", JString email); (lit "password", password)] in
        (userStore !! normalizeEmail toLowerCase email = None ->
         tokenLoginJson toLowerCase hashPassword userStore body token
         = Normal (Refused 401 (lit "Invalid email or password."), userStore))
        /\ (userStore !! normalizeEmail toLowerCase email = Some user ->
            tokenLoginJson toLowerCase hashPassword userStore body token
            = Throw invalidArgType)
        /\ (getUserByEmail (db srv) (normalizeEmail toLowerCase email) = Normal None ->
            sessionLoginJson toLowerCase hashPassword srv cookie body freshSid
            = Normal (Refused 401 (lit "Invalid email or password."), srv))
        /\ (getUserByEmail (db srv) (normalizeEmail toLowerCase email)
            = Normal (Some row) ->
            sessionLoginJson toLowerCase hashPassword srv cookie body freshSid
            = Normal (Refused 500 (lit "Login failed. Please try again."), srv)))
  /\ tokenLoginJson sampleLower sampleHash storeWithAnn strangerWithNumber (lit "t1")
     = Normal (Refused 401 (lit "Invalid email or password."), storeWithAnn)
  /\ tokenLoginJson sampleLower sampleHash storeWithAnn annWithNumber (lit "t1")
     = Throw invalidArgType
  /\ sessionLoginJson sampleLower sampleHash serverWithAnn None strangerWithNumber
       (lit "sid-2")
     = Normal (Refused 401 (lit "Invalid email or password."), serverWithAnn)
  /\ sessionLoginJson sampleLower sampleHash serverWithAnn None annWithNumber
       (lit "sid-2")
     = Normal (Refused 500 (lit "Login failed. Please try again."), serverWithAnn).
Proof.
  assert (Hnumber : forall s, JNumber (mkNum false 123 0) <> JString s)
    by (intros s; discriminate).
  split; [intros; apply login_failure_on_strings|].
  split.
  { intros toLowerCase hashPassword userStore srv cookie email password token
      freshSid user row Hpw body.
    destruct (login_with_no_string toLowerCase hashPassword userStore srv cookie
                email password token freshSid Hpw) as (H1 & H2 & H3 & H4).
    split; [exact H1|]. split; [intros Hu; apply H2; rewrite Hu; eauto|].
    split; [exact H3|]. intros Hr. apply H4. rewrite Hr. cbv [default from_option Datatypes.id]. eauto. }
  destruct (login_with_no_string sampleLower sampleHash storeWithAnn serverWithAnn
              None (lit "bob@example.org") (JNumber (mkNum false 123 0))
              (lit "t1") (lit "sid-2") Hnumber) as (Hb1 & _ & Hb3 & _).
  destruct (login_with_no_string sampleLower sampleHash storeWithAnn serverWithAnn
              None (lit "ann@example.org") (JNumber (mkNum false 123 0))
              (lit "t1") (lit "sid-2") Hnumber) as (_ & Ha2 & _ & Ha4).
  split.
  { apply Hb1. rewrite storeWithAnn_is.
    rewrite lookup_insert_ne by (vm_compute; discriminate).
    rewrite lookup_insert_ne by (vm_compute; discriminate).
    apply lookup_empty. }
  split.
  { apply Ha2. rewrite storeWithAnn_is.
    rewrite lookup_insert_ne by (vm_compute; discriminate).
    change (normalizeEmail sampleLower (lit "ann@example.org"))
      with (lit "ann@example.org").
    rewrite lookup_insert_eq. eauto. }
  split.
  { apply Hb3. vm_compute. reflexivity. }
  apply Ha4.
  assert (Hrow : getUserByEmail (db serverWithAnn)
                   (normalizeEmail sampleLower (lit "ann@example.org"))
                 = Normal (Some {| r_id := annUUID; r_name := lit "Ann";
                                   r_email := lit "ann@example.org";
                                   r_password_hash := lit "sha256:secret1" |}))
    by (vm_compute; reflexivity).
  rewrite Hrow. cbv [default from_option Datatypes.id]. eauto.
Qed.

(** C9: in the serverless server the user record is stored in the same
    map as the tokens, under the normalized e-mail.  After a signup that
    succeeds, [requireAuth] accepts [Authorization: Bearer <e-mail>] and
    passes on the stored record, password hash included.  (The token drawn
    at signup is taken to differ from the e-mail.) *)
Theorem C9_email_is_a_bearer_token (toLowerCase hashPassword : jsstring -> jsstring)
    (userStore userStore' : gmap jsstring Entry) (body : Credentials)
    (uuid token : jsstring) (code : nat) (auth : AuthBody) :
  tokenSignup toLowerCase hashPassword userStore body uuid token
  = (Sent code auth, userStore') ->
  token <> normalizeEmail toLowerCase (c_email body) ->
  exists user,
    tokenRequireAuth userStore'
      (Some (lit "Bearer " ++ normalizeEmail toLowerCase (c_email body)))
    = Next user
    /\ userStore' !! normalizeEmail toLowerCase (c_email body) = Some user
    /\ e_id user = uuid
    /\ e_email user = normalizeEmail toLowerCase (c_email body)
    /\ e_passwordHash user = Some (hashPassword (c_password body))
    /\ identityOf user = a_user auth.
Proof.
  unfold tokenSignup. intros H Hfresh.
  destruct (badSignup body); [discriminate|].
  destruct (userStore !! normalizeEmail toLowerCase (c_email body)) eqn:E;
    [discriminate|].
  injection H as _ <- <-.
  eexists. rewrite bearer_header.
  rewrite lookup_insert_ne by exact Hfresh. rewrite lookup_insert_eq.
  repeat split.
  rewrite lookup_insert_ne by exact Hfresh. apply lookup_insert_eq.
Qed.

(** On the sample account: the e-mail of Ann opens her stored record. *)
Lemma C9_email_is_a_bearer_token_witness :
  tokenRequireAuth storeWithAnn (Some (lit "Bearer " ++ lit "ann@example.org"))
  = Next {| e_id := annUUID; e_name := lit "Ann";
            e_email := lit "ann@example.org";
            e_passwordHash := Some (lit "sha256:secret1") |}.
Proof.
  destruct (C9_email_is_a_bearer_token sampleLower sampleHash ∅ storeWithAnn ann
              annUUID annToken 200%nat
              {| a_user := {| i_id := annUUID; i_name := lit "Ann";
                              i_email := lit "ann@example.org" |};
                 a_token := Some annToken; a_redirect := lit "/app.html" |})
    as (user & Hauth & _ & Hid & Hemail & Hhash & Hident).
  - unfold storeWithAnn, tokenSignup. change (badSignup ann) with false. cbn iota.
    rewrite lookup_empty. reflexivity.
  - vm_compute. discriminate.
  - change (normalizeEmail sampleLower (c_email ann)) with (lit "ann@example.org")
      in Hauth.
    rewrite Hauth. f_equal. destruct user as [i n e h].
    cbn in Hid, Hemail, Hhash, Hident. injection Hident as _ Hn _.
    subst. reflexivity.
Defined.

(** * Further properties *)

(** ** Trimming *)

Lemma drop_while_app_stop p a c r :
  p c = false -> drop_while p (a ++ c :: r) = drop_while p a ++ c :: r.
Proof.
  intros Hc. induction a as [|d a IH]; cbn [app drop_while].
  - rewrite Hc. reflexivity.
  - destruct (p d); [exact IH | reflexivity].
Qed.

Lemma drop_while_nil_all p s : drop_while p s = [] -> Forall (fun c => p c = true) s.
Proof.
  induction s as [|c s IH]; cbn [drop_while]; [constructor|].
  destruct (p c) eqn:Hc; [|discriminate]. intros H. constructor; auto.
Qed.

Lemma trimStart_head s c r : trimStart s = c :: r -> isWhite c = false.
Proof. apply drop_while_head. Qed.

Lemma trimEnd_last s c r : trimEnd s = r ++ [c] -> isWhite c = false.
Proof.
  unfold trimEnd. intros H. apply (f_equal (@rev cu)) in H.
  rewrite rev_involutive, rev_app_distr in H. cbn [rev app] in H.
  eapply drop_while_head. exact H.
Qed.

Lemma trimEnd_app_white s w :
  Forall (fun c => isWhite c = true) w -> trimEnd (s ++ w) = trimEnd s.
Proof.
  intros Hw. unfold trimEnd. rewrite rev_app_distr.
  rewrite drop_while_all by (apply Forall_white_rev; exact Hw). reflexivity.
Qed.

Lemma trimEnd_cons c r : isWhite c = false -> exists r', trimEnd (c :: r) = c :: r'.
Proof.
  intros Hc. unfold trimEnd. cbn [rev].
  rewrite (drop_while_app_stop isWhite (rev r) c [] Hc).
  rewrite rev_app_distr. cbn [rev app]. eexists. reflexivity.
Qed.

(** White space around a text does not change what [trim] gives. *)
Lemma trim_around w1 w2 s :
  Forall (fun c => isWhite c = true) w1 ->
  Forall (fun c => isWhite c = true) w2 ->
  trim (w1 ++ s ++ w2) = trim s.
Proof.
  intros H1 H2. unfold trim. unfold trimStart at 1.
  rewrite drop_while_all by exact H1. fold (trimStart (s ++ w2)).
  destruct (trimStart s) as [|c r] eqn:Es.
  - assert (Hs : Forall (fun c => isWhite c = true) s)
      by (apply drop_while_nil_all; exact Es).
    unfold trimStart. rewrite drop_while_all by exact Hs.
    rewrite <- (app_nil_r w2), drop_while_all by exact H2. reflexivity.
  - destruct (drop_while_suffix isWhite s) as (w & Hw & Hall).
    fold (trimStart s) in Hw. rewrite Es in Hw.
    assert (E : trimStart (s ++ w2) = (c :: r) ++ w2).
    { rewrite Hw at 1. unfold trimStart. rewrite <- app_assoc.
      rewrite drop_while_all by exact Hall.
      cbn [app]. apply drop_while_stop. eapply trimStart_head. exact Es. }
    rewrite E. apply trimEnd_app_white. exact H2.
Qed.

Lemma trim_tight_result s : tight (trim s).
Proof.
  split.
  - intros c r H. unfold trim in H.
    destruct (trimStart s) as [|d t] eqn:Es.
    + unfold trimEnd in H. cbn in H. discriminate.
    + destruct (trimEnd_cons d t (trimStart_head s d t Es)) as [r' Hr'].
      rewrite Hr' in H. injection H as <- _. eapply trimStart_head. exact Es.
  - intros c r H. eapply trimEnd_last. exact H.
Qed.

Lemma tight_trim s : tight s -> trim s = s.
Proof.
  intros [Hh Hl]. destruct s as [|c r]; [reflexivity|].
  assert (Hc : isWhite c = false) by (eapply Hh; reflexivity).
  unfold trim, trimStart. rewrite drop_while_stop by exact Hc.
  unfold trimEnd.
  destruct (rev (c :: r)) as [|d t] eqn:Er.
  { apply (f_equal (@length cu)) in Er. rewrite length_rev in Er. discriminate. }
  assert (Hd : isWhite d = false).
  { apply (Hl d (rev t)). apply (f_equal (@rev cu)) in Er.
    rewrite rev_involutive in Er. rewrite Er. reflexivity. }
  rewrite drop_while_stop by exact Hd. rewrite <- Er. apply rev_involutive.
Qed.

Lemma partOf_refl s : partOf s s.
Proof. exists [], []. rewrite app_nil_r. reflexivity. Qed.

Lemma partOf_trans a b c : partOf a b -> partOf b c -> partOf a c.
Proof.
  intros (x & y & ->) (x' & y' & ->). exists (x' ++ x), (y ++ y'). same_list.
Qed.

Lemma partOf_drop_while p s : partOf (drop_while p s) s.
Proof.
  destruct (drop_while_suffix p s) as (w & Hw & _).
  exists w, []. rewrite app_nil_r. exact Hw.
Qed.

Lemma partOf_rev a b : partOf a b -> partOf (rev a) (rev b).
Proof.
  intros (x & y & ->). exists (rev y), (rev x). rewrite !rev_app_distr. same_list.
Qed.

Lemma partOf_trim s : partOf (trim s) s.
Proof.
  unfold trim, trimEnd, trimStart.
  eapply partOf_trans; [|apply partOf_drop_while].
  rewrite <- (rev_involutive (drop_while isWhite s)) at 2.
  apply partOf_rev, partOf_drop_while.
Qed.

Lemma partOf_stripLeadingFence s : partOf (stripLeadingFence s) s.
Proof.
  unfold stripLeadingFence. destruct (starts_with fence s) as [r|] eqn:E;
    [|apply partOf_refl].
  apply starts_with_Some in E. subst s.
  eapply partOf_trans; [apply partOf_drop_while|].
  eapply partOf_trans; [apply partOf_drop_while|].
  exists fence, []. rewrite app_nil_r. reflexivity.
Qed.

Lemma partOf_stripTrailingFence s : partOf (stripTrailingFence s) s.
Proof.
  unfold stripTrailingFence. destruct (starts_with fence (rev s)) as [r|] eqn:E;
    [|apply partOf_refl].
  apply starts_with_Some in E. apply (f_equal (@rev cu)) in E.
  rewrite rev_involutive, rev_app_distr in E. rewrite E.
  exists [], (rev fence). reflexivity.
Qed.

(** X5: [stripCodeFences] only removes text at the two ends: its result is
    a run of consecutive code units of the input, and it neither starts
    nor ends with white space, so cleaning it again by [trim] changes
    nothing. *)
Theorem X5_stripCodeFences_keeps_a_tight_part text :
  partOf (stripCodeFences text) text
  /\ tight (stripCodeFences text)
  /\ trim (stripCodeFences text) = stripCodeFences text.
Proof.
  split; [|split].
  - unfold stripCodeFences.
    eapply partOf_trans; [apply partOf_trim|].
    eapply partOf_trans; [apply partOf_stripTrailingFence|].
    eapply partOf_trans; [apply partOf_stripLeadingFence|].
    apply partOf_trim.
  - apply trim_tight_result.
  - apply tight_trim, trim_tight_result.
Qed.

(** ** Typographic quotes *)

Lemma normalizeQuotes_map s : normalizeQuotes s = List.map normalizeQuote s.
Proof.
  unfold normalizeQuotes. destruct s as [|c s]; [reflexivity|].
  rewrite List.map_map. reflexivity.
Qed.

Lemma smart_cases c :
  isSingleSmart c = true \/ isDoubleSmart c = true ->
  c = 8216 \/ c = 8217 \/ c = 8218 \/ c = 8219 \/ c = 8242 \/ c = 8245
  \/ c = 8220 \/ c = 8221 \/ c = 8222 \/ c = 8223 \/ c = 8243 \/ c = 8246.
Proof.
  unfold isSingleSmart, isDoubleSmart. intros [H|H];
    repeat (apply orb_prop in H as [H|H]); apply N.eqb_eq in H; subst; tauto.
Qed.

(** A typographic quote and what replaces it are alike for the cleaning
    steps: neither is white space, a letter, a digit, a backtick or a
    brace. *)
Lemma normalizeQuote_class (q : cu -> bool) c :
  (forall d, isSingleSmart d = true \/ isDoubleSmart d = true -> q d = false) ->
  q SQUOTE = false -> q DQUOTE = false ->
  q (normalizeQuote c) = q c.
Proof.
  intros Hsmart Hs Hd. unfold normalizeQuote.
  destruct (isSingleSmart c) eqn:E1.
  - change (isDoubleSmart SQUOTE) with false. cbn iota.
    rewrite Hs. symmetry. apply Hsmart. left. exact E1.
  - destruct (isDoubleSmart c) eqn:E2; [|reflexivity].
    rewrite Hd. symmetry. apply Hsmart. right. exact E2.
Qed.

Lemma smart_not (q : cu -> bool) :
  q 8216 = false -> q 8217 = false -> q 8218 = false -> q 8219 = false ->
  q 8242 = false -> q 8245 = false -> q 8220 = false -> q 8221 = false ->
  q 8222 = false -> q 8223 = false -> q 8243 = false -> q 8246 = false ->
  forall d, isSingleSmart d = true \/ isDoubleSmart d = true -> q d = false.
Proof.
  intros. destruct (smart_cases d) as [-> | [-> | [-> | [-> | [-> | [-> | [-> | [-> |
    [-> | [-> | [-> | ->]]]]]]]]]]]; assumption.
Qed.

Lemma normalizeQuote_white c : isWhite (normalizeQuote c) = isWhite c.
Proof. apply normalizeQuote_class; try reflexivity. apply smart_not; reflexivity. Qed.

Lemma normalizeQuote_alnum c : isAlnum (normalizeQuote c) = isAlnum c.
Proof. apply normalizeQuote_class; try reflexivity. apply smart_not; reflexivity. Qed.

Lemma normalizeQuote_is (k : cu) c :
  (k =? SQUOTE) = false -> (k =? DQUOTE) = false ->
  isSingleSmart k = false -> isDoubleSmart k = false ->
  (normalizeQuote c =? k) = (c =? k).
Proof.
  intros Hs Hd H1 H2.
  apply (normalizeQuote_class (fun d => d =? k)).
  - intros d Hsm. destruct (N.eqb_spec d k) as [->|]; [|reflexivity].
    destruct Hsm; congruence.
  - rewrite N.eqb_sym. exact Hs.
  - rewrite N.eqb_sym. exact Hd.
Qed.

Lemma normalizeQuote_plain c :
  isSingleSmart (normalizeQuote c) = false /\ isDoubleSmart (normalizeQuote c) = false.
Proof.
  unfold normalizeQuote. destruct (isSingleSmart c) eqn:E1.
  - split; reflexivity.
  - destruct (isDoubleSmart c) eqn:E2; [split; reflexivity | split; assumption].
Qed.

Lemma normalizeQuote_idem c : normalizeQuote (normalizeQuote c) = normalizeQuote c.
Proof.
  destruct (normalizeQuote_plain c) as [H1 H2].
  unfold normalizeQuote at 1. rewrite H1, H2. reflexivity.
Qed.

Lemma lookup_map (g : cu -> cu) (s : jsstring) i c :
  s !! i = Some c -> List.map g s !! i = Some (g c).
Proof.
  revert i. induction s as [|d s IH]; intros [|i] H; try discriminate.
  - injection H as ->. reflexivity.
  - cbn. apply IH. exact H.
Qed.

Lemma normalizeQuotes_idem s : normalizeQuotes (normalizeQuotes s) = normalizeQuotes s.
Proof.
  rewrite !normalizeQuotes_map, List.map_map. apply map_ext. intros c.
  apply normalizeQuote_idem.
Qed.

(** X1: [normalizeQuotes] leaves no typographic quote, keeps the length
    and every other code unit in place, and changes nothing when applied
    a second time. *)
Theorem X1_normalizeQuotes_cleans text :
  plainQuotes (normalizeQuotes text)
  /\ length (normalizeQuotes text) = length text
  /\ (forall i c, text !! i = Some c ->
                  isSingleSmart c = false -> isDoubleSmart c = false ->
                  normalizeQuotes text !! i = Some c)
  /\ normalizeQuotes (normalizeQuotes text) = normalizeQuotes text.
Proof.
  rewrite !normalizeQuotes_map. split; [|split; [|split]].
  - unfold plainQuotes. apply Forall_forall. intros c Hc.
    apply list_elem_of_In, in_map_iff in Hc as (d & <- & _).
    apply normalizeQuote_plain.
  - apply length_map.
  - intros i c Hi H1 H2.
    etransitivity; [exact (lookup_map normalizeQuote text i c Hi)|].
    unfold normalizeQuote. rewrite H1, H2. reflexivity.
  - rewrite <- !normalizeQuotes_map. apply normalizeQuotes_idem.
Qed.

(** ** Cleaning commutes with the normalization of quotes *)

Lemma drop_while_map (p : cu -> bool) (g : cu -> cu) s :
  (forall c, p (g c) = p c) ->
  drop_while p (List.map g s) = List.map g (drop_while p s).
Proof.
  intros H. induction s as [|c s IH]; [reflexivity|].
  cbn [List.map drop_while]. rewrite H. destruct (p c); [exact IH | reflexivity].
Qed.

Lemma trim_map (g : cu -> cu) s :
  (forall c, isWhite (g c) = isWhite c) -> trim (List.map g s) = List.map g (trim s).
Proof.
  intros H. unfold trim, trimEnd, trimStart.
  rewrite (drop_while_map isWhite g s H), <- map_rev.
  rewrite (drop_while_map isWhite g _ H), map_rev. reflexivity.
Qed.

Lemma starts_with_fence_map (g : cu -> cu) s :
  (forall c, (g c =? BACKTICK) = (c =? BACKTICK)) ->
  starts_with fence (List.map g s) = option_map (List.map g) (starts_with fence s).
Proof.
  intros H.
  assert (Hb : forall c, (BACKTICK =? g c) = (BACKTICK =? c))
    by (intros c; rewrite !(N.eqb_sym BACKTICK); apply H).
  unfold fence.
  destruct s as [|a [|b [|c r]]]; cbn [List.map starts_with]; rewrite ?Hb;
    repeat (match goal with
            | |- context [BACKTICK =? ?x] => destruct (BACKTICK =? x)
            end); reflexivity.
Qed.

Lemma stripCodeFences_map (g : cu -> cu) s :
  (forall c, isWhite (g c) = isWhite c) ->
  (forall c, isAlnum (g c) = isAlnum c) ->
  (forall c, (g c =? BACKTICK) = (c =? BACKTICK)) ->
  stripCodeFences (List.map g s) = List.map g (stripCodeFences s).
Proof.
  intros Hw Ha Hb. unfold stripCodeFences.
  rewrite (trim_map g s Hw).
  assert (Hlead : forall t, stripLeadingFence (List.map g t)
                            = List.map g (stripLeadingFence t)).
  { intros t. unfold stripLeadingFence. rewrite (starts_with_fence_map g t Hb).
    destruct (starts_with fence t) as [r|]; cbn [option_map]; [|reflexivity].
    rewrite (drop_while_map isAlnum g r Ha), (drop_while_map isWhite g _ Hw).
    reflexivity. }
  assert (Htrail : forall t, stripTrailingFence (List.map g t)
                             = List.map g (stripTrailingFence t)).
  { intros t. unfold stripTrailingFence.
    rewrite <- map_rev, (starts_with_fence_map g (rev t) Hb).
    destruct (starts_with fence (rev t)) as [r|]; cbn [option_map]; [|reflexivity].
    symmetry. apply map_rev. }
  rewrite Hlead, Htrail. apply trim_map. exact Hw.
Qed.

Lemma stripCodeFences_normalizeQuotes s :
  stripCodeFences (normalizeQuotes s) = normalizeQuotes (stripCodeFences s).
Proof.
  rewrite !normalizeQuotes_map. apply stripCodeFences_map.
  - exact normalizeQuote_white.
  - exact normalizeQuote_alnum.
  - intros c. apply normalizeQuote_is; reflexivity.
Qed.

(** X2: a reply coerces as the same reply with its typographic quotes
    made plain: whether quotes arrive typographic or straight makes no
    difference to the result of coercion. *)
Theorem X2_coercion_ignores_typographic_quotes raw :
  coerceModelJson (normalizeQuotes raw) = coerceModelJson raw.
Proof.
  assert (Hc : candidates (normalizeQuotes raw) = candidates raw).
  { unfold candidates. rewrite stripCodeFences_normalizeQuotes.
    rewrite normalizeQuotes_idem. reflexivity. }
  unfold coerceModelJson. rewrite Hc.
  destruct raw as [|c r]; reflexivity.
Qed.

(** X3: white space before and after a reply changes neither the result
    of coercion nor the summary built from the reply. *)
Theorem X3_coercion_ignores_surrounding_space w1 w2 raw :
  Forall (fun c => isWhite c = true) w1 ->
  Forall (fun c => isWhite c = true) w2 ->
  coerceModelJson (w1 ++ raw ++ w2) = coerceModelJson raw
  /\ summaryFromReply (w1 ++ raw ++ w2) = summaryFromReply raw.
Proof.
  intros H1 H2. split.
  - assert (Hc : candidates (w1 ++ raw ++ w2) = candidates raw).
    { apply candidates_cleaned. unfold stripCodeFences.
      rewrite (trim_around w1 w2 raw H1 H2). reflexivity. }
    unfold coerceModelJson. rewrite Hc.
    destruct raw as [|c r].
    + destruct (w1 ++ [] ++ w2); reflexivity.
    + destruct w1; reflexivity.
  - unfold summaryFromReply. rewrite (trim_around w1 w2 raw H1 H2). reflexivity.
Qed.

(** On a reply between a line feed and two spaces. *)
Lemma X3_coercion_ignores_surrounding_space_witness :
  coerceModelJson ([LF] ++ exampleSummaryText ++ lit "  ") = Normal exampleSummary.
Proof.
  destruct (X3_coercion_ignores_surrounding_space [LF] (lit "  ") exampleSummaryText)
    as [H _]; [repeat constructor | repeat constructor |].
  rewrite H. vm_compute. reflexivity.
Defined.

(** X4: [extractJsonBlock] returns [null] exactly when the text has no
    [{] that is followed, somewhere later, by a [}]. *)
Theorem X4_extractJsonBlock_null text :
  extractJsonBlock text = None
  <-> forall pre mid post, text <> pre ++ LBRACE :: mid ++ RBRACE :: post.
Proof.
  split; [apply extractJsonBlock_None|].
  intros H. destruct (extractJsonBlock text) as [block|] eqn:E; [|reflexivity].
  apply extractJsonBlock_Some in E as (pre & mid & post & Ht & _).
  destruct (H pre mid post Ht).
Qed.

(** ** An object inside prose *)

Lemma first_occurrence (c : cu) a r a' r' :
  a ++ c :: r = a' ++ c :: r' -> c ∉ a -> c ∉ a' -> a = a' /\ r = r'.
Proof.
  revert a'. induction a as [|d a IH]; intros [|d' a'] H Ha Ha'; cbn [app] in H.
  - injection H as ->. split; reflexivity.
  - injection H as <- _. exfalso. apply Ha'. left.
  - injection H as -> _. exfalso. apply Ha. left.
  - injection H as -> H. apply not_elem_of_cons in Ha as [_ Ha].
    apply not_elem_of_cons in Ha' as [_ Ha'].
    destruct (IH a' H Ha Ha') as [-> ->]. split; reflexivity.
Qed.

Lemma last_occurrence (c : cu) a r a' r' :
  a ++ c :: r = a' ++ c :: r' -> c ∉ r -> c ∉ r' -> a = a' /\ r = r'.
Proof.
  intros H Hr Hr'. apply (f_equal (@rev cu)) in H.
  rewrite !rev_app_distr in H. cbn [rev] in H. rewrite <- !app_assoc in H.
  cbn [app] in H.
  apply first_occurrence in H as [H1 H2];
    [| rewrite elem_of_rev; exact Hr | rewrite elem_of_rev; exact Hr'].
  apply (f_equal (@rev cu)) in H1, H2. rewrite !rev_involutive in H1, H2.
  split; assumption.
Qed.

(** The block of a text with one outermost pair of braces. *)
Lemma extractJsonBlock_found pre mid post :
  LBRACE ∉ pre -> RBRACE ∉ post ->
  extractJsonBlock (pre ++ (LBRACE :: mid ++ [RBRACE]) ++ post)
  = Some (LBRACE :: mid ++ [RBRACE]).
Proof.
  intros Hpre Hpost.
  assert (Ht : pre ++ (LBRACE :: mid ++ [RBRACE]) ++ post
               = pre ++ LBRACE :: mid ++ RBRACE :: post) by same_list.
  rewrite Ht.
  destruct (extractJsonBlock (pre ++ LBRACE :: mid ++ RBRACE :: post)) as [block|] eqn:E.
  - apply extractJsonBlock_Some in E as (pre0 & mid0 & post0 & H0 & Hn1 & Hn2 & ->).
    apply first_occurrence in H0 as [-> H0]; [|exact Hpre|exact Hn1].
    apply (last_occurrence RBRACE mid post mid0 post0) in H0 as [-> _];
      [reflexivity | exact Hpost | exact Hn2].
  - exfalso. exact (extractJsonBlock_None _ E pre mid post eq_refl).
Qed.

Section Around.
Variables (pre post body : jsstring).






End Around.




(** ** Runs of white space and of dashes *)


Lemma collapseDashes_runs b s : collapseDashes b s = collapseRuns isDash 45 b s.
Proof.
  revert b. induction s as [|c s IH]; intros b; [reflexivity|].
  cbn [collapseDashes collapseRuns]. unfold isDash at 1. rewrite !IH. reflexivity.
Qed.

Lemma noRun_collapse p rep b s :
  p rep = true -> noRun p b (collapseRuns p rep b s) = true.
Proof.
  intros Hrep. revert b. induction s as [|c s IH]; intros b; [reflexivity|].
  cbn [collapseRuns]. destruct (p c) eqn:Hc.
  - destruct b; [apply IH|]. cbn [noRun]. rewrite Hrep. apply IH.
  - cbn [noRun]. rewrite Hc. apply IH.
Qed.

Lemma noRun_weaken p b s : noRun p b s = true -> noRun p false s = true.
Proof.
  destruct s as [|c s]; [reflexivity|]. cbn [noRun].
  destruct (p c); [|trivial]. intros H. apply andb_prop in H as [_ H]. exact H.
Qed.

Lemma noRun_suffix p a : forall b s, noRun p b (a ++ s) = true -> noRun p false s = true.
Proof.
  induction a as [|c a IH]; intros b s H; [eapply noRun_weaken; exact H|].
  cbn [app noRun] in H. destruct (p c).
  - apply andb_prop in H as [_ H]. eapply IH. exact H.
  - eapply IH. exact H.
Qed.

Lemma noRun_prefix p s a : forall b, noRun p b (s ++ a) = true -> noRun p b s = true.
Proof.
  induction s as [|c s IH]; intros b H; [reflexivity|].
  cbn [app noRun] in *. destruct (p c).
  - apply andb_prop in H as [H1 H]. rewrite H1. cbn. eapply IH. exact H.
  - eapply IH. exact H.
Qed.

Lemma noRun_part p r s : partOf r s -> noRun p false s = true -> noRun p false r = true.
Proof.
  intros (a & b & ->) H. apply noRun_suffix in H. eapply noRun_prefix. exact H.
Qed.

(** What [noRun] says of two neighbours. *)
Lemma noRun_neighbours p s a c d r :
  noRun p false s = true -> s = a ++ c :: d :: r -> p c = true -> p d = false.
Proof.
  intros H -> Hc. apply noRun_suffix in H. cbn [noRun] in H. rewrite Hc in H.
  cbn in H. destruct (p d); [discriminate | reflexivity].
Qed.

Lemma noRun_map p (g : cu -> cu) s :
  (forall c, p (g c) = p c) -> forall b, noRun p b (List.map g s) = noRun p b s.
Proof.
  intros Hg. induction s as [|c s IH]; intros b; [reflexivity|].
  cbn [List.map noRun]. rewrite Hg, !IH. reflexivity.
Qed.

Lemma collapseRuns_elem p rep b s c :
  c ∈ collapseRuns p rep b s -> c = rep \/ (c ∈ s /\ p c = false).
Proof.
  revert b. induction s as [|d s IH]; intros b H; [inversion H|].
  cbn [collapseRuns] in H. destruct (p d) eqn:Hd.
  - destruct b.
    + destruct (IH _ H) as [->|[Hin Hp]]; [left; reflexivity|].
      right. split; [right; exact Hin | exact Hp].
    + apply elem_of_cons in H as [->|H]; [left; reflexivity|].
      destruct (IH _ H) as [->|[Hin Hp]]; [left; reflexivity|].
      right. split; [right; exact Hin | exact Hp].
  - apply elem_of_cons in H as [->|H]; [right; split; [left | exact Hd]|].
    destruct (IH _ H) as [->|[Hin Hp]]; [left; reflexivity|].
    right. split; [right; exact Hin | exact Hp].
Qed.





(** ** The names of the text files *)

Lemma noRun_head p s c t : noRun p true s = true -> s = c :: t -> p c = false.
Proof.
  intros H ->. cbn [noRun] in H. destruct (p c); [discriminate | reflexivity].
Qed.

Lemma collapseRuns_length p rep b s :
  (length (collapseRuns p rep b s) <= length s)%nat.
Proof.
  revert b. induction s as [|c s IH]; intros b; [reflexivity|].
  pose proof (IH true). pose proof (IH false).
  cbn [collapseRuns]. destruct (p c); [destruct b|]; cbn [length]; lia.
Qed.

Lemma partOf_length r s : partOf r s -> (length r <= length s)%nat.
Proof. intros (a & b & ->). rewrite !length_app. lia. Qed.

Lemma partOf_elem r s (c : cu) : partOf r s -> c ∈ r -> c ∈ s.
Proof.
  intros (a & b & ->) H. apply elem_of_app. right. apply elem_of_app. left. exact H.
Qed.

Lemma rev_eq_cons (c : cu) s r : rev s = c :: r -> s = rev r ++ [c].
Proof.
  intros H. apply (f_equal (@rev cu)) in H. rewrite rev_involutive in H. exact H.
Qed.

Lemma stripEdgeDashes_part s : partOf (stripEdgeDashes s) s.
Proof.
  unfold stripEdgeDashes.
  set (s1 := match expect 45 s with Some r => r | None => s end).
  assert (H1 : partOf s1 s).
  { unfold s1. destruct (expect 45 s) as [r|] eqn:E; [|apply partOf_refl].
    apply expect_Some in E. subst s. exists [45], []. rewrite app_nil_r. reflexivity. }
  destruct (expect 45 (rev s1)) as [r|] eqn:E; [|exact H1].
  apply expect_Some, rev_eq_cons in E.
  eapply partOf_trans; [|exact H1]. exists [], [45]. rewrite E. reflexivity.
Qed.

(** After the runs of dashes are collapsed, removing one dash at each end
    leaves no dash at either end. *)
Lemma stripEdgeDashes_edges s :
  noRun isDash false s = true ->
  (forall c t, stripEdgeDashes s = c :: t -> isDash c = false)
  /\ (forall c t, stripEdgeDashes s = t ++ [c] -> isDash c = false).
Proof.
  intros H. unfold stripEdgeDashes.
  set (s1 := match expect 45 s with Some r => r | None => s end).
  assert (H1 : noRun isDash true s1 = true).
  { unfold s1. destruct (expect 45 s) as [r|] eqn:E.
    - apply expect_Some in E. subst s. exact H.
    - destruct s as [|d s']; [reflexivity|]. unfold expect in E.
      destruct (d =? 45) eqn:Ed; [discriminate|].
      cbn [noRun] in *. unfold isDash in *. rewrite Ed in *. exact H. }
  clearbody s1. destruct (expect 45 (rev s1)) as [r|] eqn:E.
  - apply expect_Some, rev_eq_cons in E. split.
    + intros c t Hr. rewrite Hr in E. eapply noRun_head; [exact H1 | exact E].
    + intros c t Hr. rewrite Hr, <- app_assoc in E. cbn [app] in E.
      destruct (isDash c) eqn:Hc; [|reflexivity].
      apply noRun_weaken in H1.
      pose proof (noRun_neighbours isDash s1 t c 45 [] H1 E Hc) as Hd.
      discriminate.
  - split.
    + intros c t Hr. eapply noRun_head; [exact H1 | exact Hr].
    + intros c t Hr. rewrite Hr, rev_app_distr in E. cbn [rev app expect] in E.
      unfold isDash. destruct (c =? 45); [discriminate | reflexivity].
Qed.

Lemma isDash_asciiLower c : isDash (asciiLower c) = isDash c.
Proof.
  unfold isDash, asciiLower.
  destruct (65 <=? c) eqn:H1; destruct (c <=? 90) eqn:H2; cbn [andb]; try reflexivity.
  apply N.leb_le in H1. apply N.leb_le in H2.
  rewrite (proj2 (N.eqb_neq (c + 32) 45)) by lia.
  rewrite (proj2 (N.eqb_neq c 45)) by lia. reflexivity.
Qed.

Lemma asciiLower_safe c : isFileNameChar c = true -> isSafeNameChar (asciiLower c) = true.
Proof.
  unfold isFileNameChar, isAlnum, isSafeNameChar, asciiLower. intros H.
  repeat match type of H with
         | (_ || _) = true => apply orb_prop in H as [H|H]
         | (_ && _) = true => apply andb_prop in H as [? H]
         | (_ <=? _) = true => apply N.leb_le in H
         | (_ =? _) = true => apply N.eqb_eq in H
         end;
  repeat match goal with
         | H' : (_ <=? _) = true |- _ => apply N.leb_le in H'
         end.
  all: destruct (N.leb_spec 65 c); destruct (N.leb_spec c 90); cbn [andb].
  all: repeat match goal with
         | |- (_ || _) = true => apply orb_true_iff
         | |- (_ && _) = true => apply andb_true_iff
         end.
  all: try lia.
  all: repeat rewrite orb_true_iff; repeat rewrite andb_true_iff;
    rewrite ?N.leb_le, ?N.eqb_eq; lia.
Qed.

Lemma dashless_edges s :
  Forall (fun c => isDash c = false) s ->
  (forall c t, s = c :: t -> c <> 45) /\ (forall c t, s = t ++ [c] -> c <> 45)
  /\ (forall a c d b, s = a ++ c :: d :: b -> c = 45 -> d <> 45).
Proof.
  intros H. rewrite Forall_forall in H.
  assert (Hn : forall c, c ∈ s -> c <> 45).
  { intros c Hc ->. specialize (H _ Hc). discriminate. }
  split; [|split].
  - intros c t ->. apply Hn. left.
  - intros c t ->. apply Hn. apply elem_of_app. right. left.
  - intros a c d b -> _. apply Hn. apply elem_of_app. right. right. left.
Qed.

(** X8: for every name, given that [toLowerCase] lowers the ASCII
    letters of a string of ASCII letters, digits, dashes, underscores and
    dots, [sanitizeFileName] gives a non-empty string of lower-case
    letters, digits, dashes, underscores and dots that neither starts nor
    ends with a dash, has no two dashes in a row, and is no longer than
    the name (or than ["paper"]). *)
Theorem X8_sanitizeFileName_is_safe (toLowerCase : jsstring -> jsstring) name :
  (forall s, Forall (fun c => isFileNameChar c = true) s ->
             toLowerCase s = List.map asciiLower s) ->
  sanitizeFileName toLowerCase name <> []
  /\ Forall (fun c => isSafeNameChar c = true) (sanitizeFileName toLowerCase name)
  /\ (forall c t, sanitizeFileName toLowerCase name = c :: t -> c <> 45)
  /\ (forall c t, sanitizeFileName toLowerCase name = t ++ [c] -> c <> 45)
  /\ (forall a c d b, sanitizeFileName toLowerCase name = a ++ c :: d :: b ->
                      c = 45 -> d <> 45)
  /\ (length (sanitizeFileName toLowerCase name) <= Nat.max 5 (length name))%nat.
Proof.
  intros Hlower. unfold sanitizeFileName.
  set (replaced := List.map (fun c => if isFileNameChar c then c else 45) name).
  set (core := stripEdgeDashes (collapseDashes false replaced)).
  assert (Hrep : Forall (fun c => isFileNameChar c = true) replaced).
  { unfold replaced. apply Forall_forall. intros c Hc.
    apply list_elem_of_In, in_map_iff in Hc as (d & <- & _).
    destruct (isFileNameChar d) eqn:Hd; [exact Hd | reflexivity]. }
  assert (Hcore : Forall (fun c => isFileNameChar c = true) core).
  { apply Forall_forall. intros c Hc.
    apply (partOf_elem _ _ c (stripEdgeDashes_part _)) in Hc.
    rewrite collapseDashes_runs in Hc.
    apply collapseRuns_elem in Hc as [->|[Hc _]]; [reflexivity|].
    rewrite Forall_forall in Hrep. apply Hrep. exact Hc. }
  assert (Hruns : noRun isDash false (collapseDashes false replaced) = true).
  { rewrite collapseDashes_runs. apply noRun_collapse. reflexivity. }
  assert (Hlen : (length core <= length name)%nat).
  { etransitivity; [apply partOf_length, stripEdgeDashes_part|].
    rewrite collapseDashes_runs. etransitivity; [apply collapseRuns_length|].
    unfold replaced. rewrite length_map. reflexivity. }
  destruct (stripEdgeDashes_edges _ Hruns) as [Hhead Hlast]. fold core in Hhead, Hlast.
  assert (Hmid : noRun isDash false core = true).
  { eapply noRun_part; [apply stripEdgeDashes_part | exact Hruns]. }
  rewrite (Hlower core Hcore). clearbody core. clear Hlower Hruns Hrep replaced.
  destruct core as [|c0 core].
  - cbn [List.map orElse].
    assert (Hp : Forall (fun c => isDash c = false) (lit "paper"))
      by (repeat constructor).
    destruct (dashless_edges _ Hp) as (H1 & H2 & H3).
    split; [discriminate|]. split; [repeat constructor|].
    split; [exact H1|]. split; [exact H2|]. split; [exact H3|].
    apply Nat.le_max_l.
  - change (orElse (List.map asciiLower (c0 :: core)) (lit "paper"))
      with (List.map asciiLower (c0 :: core)).
    split; [discriminate|]. split.
    { apply Forall_forall. intros c Hc.
      apply list_elem_of_In, in_map_iff in Hc as (d & <- & Hd).
      apply asciiLower_safe. rewrite Forall_forall in Hcore. apply Hcore.
      apply list_elem_of_In. exact Hd. }
    split.
    { intros c t Hr. cbn [List.map] in Hr. injection Hr as <- _. intros Hc.
      specialize (Hhead c0 core eq_refl). rewrite <- isDash_asciiLower in Hhead.
      unfold isDash in Hhead. rewrite Hc in Hhead. discriminate. }
    split.
    { intros c t Hr. apply map_eq_app in Hr as (t' & l & Hs & _ & Hl).
      destruct l as [|d [|? ?]]; try discriminate. injection Hl as <-.
      intros Hc. specialize (Hlast d t' Hs). rewrite <- isDash_asciiLower in Hlast.
      unfold isDash in Hlast. rewrite Hc in Hlast. discriminate. }
    split.
    { intros a c d b Hr Hc Hd.
      assert (Hn : noRun isDash false (List.map asciiLower (c0 :: core)) = true)
        by (rewrite noRun_map; [exact Hmid | exact isDash_asciiLower]).
      pose proof (noRun_neighbours isDash _ a c d b Hn Hr) as Hnb.
      subst c d. specialize (Hnb eq_refl). discriminate. }
    rewrite length_map. lia.
Qed.

(** On a name with spaces, brackets and capitals. *)
Lemma X8_sanitizeFileName_is_safe_witness :
  sanitizeFileName sampleLower (lit "-My  Paper (v2).PDF") = lit "my-paper-v2-.pdf"
  /\ Forall (fun c => isSafeNameChar c = true)
       (sanitizeFileName sampleLower (lit "-My  Paper (v2).PDF")).
Proof.
  split; [reflexivity|].
  apply (X8_sanitizeFileName_is_safe sampleLower (lit "-My  Paper (v2).PDF")).
  intros s _. reflexivity.
Defined.

(** ** The fields of an entry *)

Section EntryFields.
Variable getText : list N -> completion PdfText.
Variable reviewModel : option (jsstring -> completion jsstring).
Variable pathParseName : jsstring -> jsstring.
Variable toLowerCase : jsstring -> jsstring.
Variable randomUUID : nat -> jsstring.
Variable now : jsstring.
Variable resJson : AnalyzeBody -> completion unit.



Lemma orElse_nonempty a b : b <> [] -> orElse a b <> [].
Proof. destruct a; [trivial | discriminate]. Qed.


End EntryFields.



(** ** Accounts of the serverless server *)

Lemma bearer_admitted (userStore : gmap jsstring Entry) authorization user :
  tokenRequireAuth userStore authorization = Next user
  <-> exists token,
        authorization = Some (lit "Bearer " ++ token)
        /\ userStore !! token = Some user.
Proof.
  split.
  - unfold tokenRequireAuth. destruct authorization as [[|c h]|]; try discriminate.
    destruct (starts_with (lit "Bearer ") (c :: h)) as [r|] eqn:E; [|discriminate].
    apply starts_with_Some in E. rewrite E.
    change (drop 7 (lit "Bearer " ++ r)) with r.
    case_match eqn:Hu; intros H; [|discriminate H].
    injection H as <-. exists r. split; [reflexivity | exact Hu].
  - intros (token & -> & Hu). rewrite bearer_header, Hu. reflexivity.
Qed.

(** X11: the middleware of the serverless server lets a request pass
    exactly when its [Authorization] header is [Bearer ] followed by a key
    of the store, and then passes on what the store holds under that key;
    every other request is stopped with status 401. *)
Theorem X11_bearer_admission (userStore : gmap jsstring Entry) authorization :
  (forall user,
      tokenRequireAuth userStore authorization = Next user
      <-> exists token,
            authorization = Some (lit "Bearer " ++ token)
            /\ userStore !! token = Some user)
  /\ (forall code msg,
        tokenRequireAuth userStore authorization = Stop code msg ->
        code = 401%nat
        /\ (msg = lit "Invalid token" \/ msg = lit "Authentication required")).
Proof.
  split; [intros user; apply bearer_admitted|].
  - intros code msg. unfold tokenRequireAuth.
    destruct authorization as [[|c h]|].
    1,3: intros H; injection H as <- <-; split; [reflexivity | right; reflexivity].
    destruct (starts_with (lit "Bearer ") (c :: h)) as [r|].
    2: intros H; injection H as <- <-; split; [reflexivity | right; reflexivity].
    destruct (userStore !! drop 7 (c :: h)); [discriminate|].
    intros H; injection H as <- <-; split; [reflexivity | left; reflexivity].
Qed.

Section TokenAccounts.
Variable toLowerCase : jsstring -> jsstring.
Variable hashPassword : jsstring -> jsstring.

Lemma tokenSignup_sent userStore body uuid token code auth userStore' :
  tokenSignup toLowerCase hashPassword userStore body uuid token
  = (Sent code auth, userStore') ->
  badSignup body = false
  /\ userStore !! normalizeEmail toLowerCase (c_email body) = None
  /\ code = 200%nat
  /\ auth = {| a_user := {| i_id := uuid;
                            i_name := orElse (trim (c_name body)) (lit "Guest");
                            i_email := normalizeEmail toLowerCase (c_email body) |};
               a_token := Some token;
               a_redirect := lit "/app.html" |}
  /\ userStore'
     = <[token := {| e_id := uuid;
                     e_name := orElse (trim (c_name body)) (lit "Guest");
                     e_email := normalizeEmail toLowerCase (c_email body);
                     e_passwordHash := None |}]>
         (<[normalizeEmail toLowerCase (c_email body) :=
              {| e_id := uuid;
                 e_name := orElse (trim (c_name body)) (lit "Guest");
                 e_email := normalizeEmail toLowerCase (c_email body);
                 e_passwordHash := Some (hashPassword (c_password body)) |}]>
            userStore).
Proof.
  unfold tokenSignup. destruct (badSignup body); [discriminate|].
  destruct (userStore !! normalizeEmail toLowerCase (c_email body)); [discriminate|].
  intros H. injection H as <- <- <-. repeat split.
Qed.

Lemma tokenLogin_sent userStore body token code auth userStore' :
  tokenLogin toLowerCase hashPassword userStore body token
  = (Sent code auth, userStore') ->
  exists user,
    userStore !! normalizeEmail toLowerCase (c_email body) = Some user
    /\ e_passwordHash user = Some (hashPassword (c_password body))
    /\ code = 200%nat
    /\ auth = {| a_user := identityOf user; a_token := Some token;
                 a_redirect := lit "/app.html" |}
    /\ userStore' = <[token := sessionEntry user]> userStore.
Proof.
  unfold tokenLogin.
  destruct (userStore !! normalizeEmail toLowerCase (c_email body)) as [user|];
    [|discriminate].
  destruct (decide _) as [Hh|_]; [|discriminate].
  intros H. injection H as <- <- <-. exists user. repeat split. exact Hh.
Qed.

(** X12: a signup that succeeds on the serverless server answers 200
    with the new identity (the identifier drawn, the trimmed name or
    [Guest], the normalized e-mail) and a token; the name is never empty,
    and the token, sent as a bearer token, is admitted as that identity,
    without a password hash. *)
Theorem X12_token_signup_issues_a_token userStore body uuid token code auth userStore' :
  tokenSignup toLowerCase hashPassword userStore body uuid token
  = (Sent code auth, userStore') ->
  code = 200%nat
  /\ a_token auth = Some token
  /\ i_id (a_user auth) = uuid
  /\ i_name (a_user auth) = orElse (trim (c_name body)) (lit "Guest")
  /\ i_name (a_user auth) <> []
  /\ i_email (a_user auth) = normalizeEmail toLowerCase (c_email body)
  /\ exists user,
       tokenRequireAuth userStore' (Some (lit "Bearer " ++ token)) = Next user
       /\ identityOf user = a_user auth
       /\ e_passwordHash user = None.
Proof.
  intros H. apply tokenSignup_sent in H as (_ & _ & -> & -> & ->).
  cbn [a_user a_token i_id i_name i_email]. repeat split.
  - apply orElse_nonempty. discriminate.
  - eexists. rewrite bearer_header, lookup_insert_eq. repeat split.
Qed.

(** X13: after a signup that succeeds, a login with the same e-mail and
    password succeeds with the identity of the signup, and the token it
    issues is admitted as that identity.  (The token drawn at signup is
    taken to differ from the e-mail.) *)
Theorem X13_token_signup_then_login userStore body uuid token code auth userStore'
    token2 :
  tokenSignup toLowerCase hashPassword userStore body uuid token
  = (Sent code auth, userStore') ->
  token <> normalizeEmail toLowerCase (c_email body) ->
  exists userStore'' user,
    tokenLogin toLowerCase hashPassword userStore' body token2
    = (Sent 200 {| a_user := a_user auth; a_token := Some token2;
                   a_redirect := lit "/app.html" |}, userStore'')
    /\ tokenRequireAuth userStore'' (Some (lit "Bearer " ++ token2)) = Next user
    /\ identityOf user = a_user auth.
Proof.
  intros H Hfresh. apply tokenSignup_sent in H as (_ & _ & -> & -> & ->).
  unfold tokenLogin.
  rewrite lookup_insert_ne by exact Hfresh. rewrite lookup_insert_eq.
  cbn [e_passwordHash]. destruct (decide _) as [_|Hne]; [|contradiction].
  eexists _, _. split; [reflexivity|].
  rewrite bearer_header, lookup_insert_eq. split; reflexivity.
Qed.


(** X15: no request to the account routes of the serverless server takes
    a key out of the store: a header that [requireAuth] admits before a
    signup, a login or a logout is admitted after it; and a request that
    is refused leaves the store as it is. *)
Theorem X15_token_store_only_grows userStore body uuid token authorization user :
  tokenRequireAuth userStore authorization = Next user ->
  (exists user',
      tokenRequireAuth
        (snd (tokenSignup toLowerCase hashPassword userStore body uuid token))
        authorization = Next user')
  /\ (exists user',
         tokenRequireAuth
           (snd (tokenLogin toLowerCase hashPassword userStore body token))
           authorization = Next user')
  /\ tokenRequireAuth (snd (tokenLogout userStore)) authorization = Next user
  /\ (forall code msg,
        fst (tokenSignup toLowerCase hashPassword userStore body uuid token)
        = Refused code msg ->
        snd (tokenSignup toLowerCase hashPassword userStore body uuid token)
        = userStore)
  /\ (forall code msg,
        fst (tokenLogin toLowerCase hashPassword userStore body token)
        = Refused code msg ->
        snd (tokenLogin toLowerCase hashPassword userStore body token) = userStore).
Proof.
  intros Hadm.
  apply bearer_admitted in Hadm as (key & -> & Hkey).
  assert (Hins : forall k (e : Entry) (m : gmap jsstring Entry),
             is_Some (m !! key) -> is_Some (<[k := e]> m !! key)).
  { intros k e m Hm. destruct (decide (k = key)) as [->|Hne].
    - rewrite lookup_insert_eq. eauto.
    - rewrite lookup_insert_ne by exact Hne. exact Hm. }
  assert (Hnext : forall m : gmap jsstring Entry,
             is_Some (m !! key) ->
             exists user', tokenRequireAuth m (Some (lit "Bearer " ++ key)) = Next user').
  { intros m [u Hu]. exists u. rewrite bearer_header, Hu. reflexivity. }
  split; [|split; [|split; [|split]]].
  - apply Hnext. unfold tokenSignup. destruct (badSignup body); [cbn [snd]; eauto|].
    destruct (userStore !! normalizeEmail toLowerCase (c_email body));
      cbn [snd]; [eauto|]. apply Hins, Hins. eauto.
  - apply Hnext. unfold tokenLogin.
    destruct (userStore !! normalizeEmail toLowerCase (c_email body));
      [|cbn [snd]; eauto].
    destruct (decide _); cbn [snd]; [|eauto]. apply Hins. eauto.
  - cbn [tokenLogout snd]. rewrite bearer_header, Hkey. reflexivity.
  - intros code msg. unfold tokenSignup. destruct (badSignup body); [reflexivity|].
    destruct (userStore !! normalizeEmail toLowerCase (c_email body));
      [reflexivity | discriminate].
  - intros code msg. unfold tokenLogin.
    destruct (userStore !! normalizeEmail toLowerCase (c_email body));
      [|reflexivity].
    destruct (decide _); [discriminate | reflexivity].
Qed.
End TokenAccounts.

Lemma ann_signs_up :
  tokenSignup sampleLower sampleHash ∅ ann annUUID annToken
  = (Sent 200 {| a_user := {| i_id := annUUID; i_name := lit "Ann";
                              i_email := lit "ann@example.org" |};
                 a_token := Some annToken; a_redirect := lit "/app.html" |},
     storeWithAnn).
Proof.
  unfold storeWithAnn, tokenSignup. change (badSignup ann) with false. cbn iota.
  rewrite lookup_empty. reflexivity.
Qed.

Lemma ann_token_admitted :
  tokenRequireAuth storeWithAnn (Some (lit "Bearer " ++ annToken))
  = Next {| e_id := annUUID; e_name := lit "Ann";
            e_email := lit "ann@example.org"; e_passwordHash := None |}.
Proof.
  rewrite bearer_header. unfold storeWithAnn, tokenSignup.
  change (badSignup ann) with false. cbn iota.
  rewrite lookup_empty. cbn [snd]. rewrite lookup_insert_eq. reflexivity.
Qed.

(** On the sample account: the token Ann gets at signup. *)
Lemma X12_token_signup_issues_a_token_witness :
  exists user,
    tokenRequireAuth storeWithAnn (Some (lit "Bearer " ++ annToken)) = Next user
    /\ e_passwordHash user = None.
Proof.
  destruct (X12_token_signup_issues_a_token sampleLower sampleHash ∅ ann annUUID
              annToken _ _ _ ann_signs_up)
    as (_ & _ & _ & _ & _ & _ & user & Hadm & _ & Hhash).
  exists user. split; assumption.
Defined.

(** On the sample account: Ann signs in after she signed up. *)
Lemma X13_token_signup_then_login_witness :
  exists userStore'',
    tokenLogin sampleLower sampleHash storeWithAnn ann (lit "t2")
    = (Sent 200 {| a_user := {| i_id := annUUID; i_name := lit "Ann";
                                i_email := lit "ann@example.org" |};
                   a_token := Some (lit "t2"); a_redirect := lit "/app.html" |},
       userStore'').
Proof.
  destruct (X13_token_signup_then_login sampleLower sampleHash ∅ ann annUUID
              annToken _ _ _ (lit "t2") ann_signs_up)
    as (userStore'' & user & Hlogin & _).
  - vm_compute. discriminate.
  - exists userStore''. exact Hlogin.
Defined.


(** On the sample account: the token of Ann after a login of somebody
    else failed. *)
Lemma X15_token_store_only_grows_witness :
  exists user',
    tokenRequireAuth
      (snd (tokenLogin sampleLower sampleHash storeWithAnn stranger (lit "t1")))
      (Some (lit "Bearer " ++ annToken)) = Next user'.
Proof.
  apply (X15_token_store_only_grows sampleLower sampleHash storeWithAnn stranger
           (lit "uuid-2") (lit "t1") _ _ ann_token_admitted).
Defined.

(** ** Accounts of the server with a database *)

Lemma find_snoc_hit {A} (f : A -> bool) l x :
  List.find f l = None -> f x = true -> List.find f (l ++ [x]) = Some x.
Proof.
  induction l as [|a l IH]; cbn [List.find app]; intros Hl Hx.
  - rewrite Hx. reflexivity.
  - destruct (f a); [discriminate|]. apply IH; assumption.
Qed.

Lemma existsb_find_none {A} (f : A -> bool) l :
  existsb f l = false <-> List.find f l = None.
Proof.
  induction l as [|a l IH]; cbn [existsb List.find]; [tauto|].
  destruct (f a); cbn [orb]; [split; discriminate | exact IH].
Qed.

Lemma server_eta srv : {| db := db srv; sessions := sessions srv |} = srv.
Proof. destruct srv. reflexivity. Qed.

(** A string without surrogates is kept as it is. *)
Lemma sqlText_plain s :
  (forall c, c ∈ s -> isHighSurrogate c = false /\ isLowSurrogate c = false) ->
  sqlText s = s.
Proof.
  induction s as [|c s IH]; intros H; [reflexivity|].
  destruct (H c ltac:(left)) as [Hh Hl].
  cbn [sqlText]. rewrite Hh, Hl. rewrite IH; [reflexivity|].
  intros d Hd. apply H. right. exact Hd.
Qed.

Lemma insertUser_done d u d' :
  insertUser d u = (None, d') ->
  fault d = None
  /\ List.find (fun r => bool_decide (r_id r = sqlText (r_id u))) (rows d) = None
  /\ List.find (fun r => bool_decide (r_email r = sqlText (r_email u))) (rows d) = None
  /\ d' = {| rows := rows d ++ [storedRow u]; fault := None |}.
Proof.
  unfold insertUser. destruct (fault d) as [e|] eqn:Ef; [discriminate|].
  destruct (existsb _ (rows d)) eqn:E1; [discriminate|].
  destruct (existsb (fun r => bool_decide (r_email r = sqlText (r_email u))) (rows d))
    eqn:E2; [discriminate|].
  intros H. injection H as <-.
  apply existsb_find_none in E1, E2. repeat split; assumption.
Qed.

Lemma insertUser_failed d u err d' : insertUser d u = (Some err, d') -> d' = d.
Proof.
  unfold insertUser. destruct (fault d); [intros H; injection H as _ <-; reflexivity|].
  destruct (existsb _ (rows d)); [intros H; injection H as _ <-; reflexivity|].
  destruct (existsb _ (rows d)); [intros H; injection H as _ <-; reflexivity|].
  discriminate.
Qed.

Lemma createUser_normal d u i d' :
  createUser d u = (Normal i, d') ->
  fault d = None
  /\ List.find (fun r => bool_decide (r_id r = sqlText (r_id u))) (rows d) = None
  /\ List.find (fun r => bool_decide (r_email r = sqlText (r_email u))) (rows d) = None
  /\ i = rowIdentity u
  /\ d' = {| rows := rows d ++ [storedRow u]; fault := None |}.
Proof.
  unfold createUser. destruct (insertUser d u) as [[err|] d0] eqn:Ei.
  - destruct (decide _); discriminate.
  - intros H. injection H as <- <-.
    apply insertUser_done in Ei as (Hf & Hi & He & ->). repeat split; assumption.
Qed.

Lemma createUser_throw d u e d' : createUser d u = (Throw e, d') -> d' = d.
Proof.
  unfold createUser. destruct (insertUser d u) as [[err|] d0] eqn:Ei; [|discriminate].
  apply insertUser_failed in Ei as ->.
  destruct (decide _); intros H; injection H as _ <-; reflexivity.
Qed.

Lemma sessionId_stored srv cookie freshSid user :
  sessionUser (setSessionUser srv cookie freshSid user)
    (Some (sessionId srv cookie freshSid)) = Some user.
Proof. unfold sessionUser, setSessionUser. cbn [sessions]. apply lookup_insert_eq. Qed.

Section SessionAccounts.
Variable toLowerCase : jsstring -> jsstring.
Variable hashPassword : jsstring -> jsstring.

Lemma sessionSignup_sent srv cookie body uuid freshSid code auth srv' :
  sessionSignup toLowerCase hashPassword srv cookie body uuid freshSid
  = (Sent code auth, srv') ->
  let user := {| r_id := uuid;
                 r_name := orElse (trim (c_name body)) (lit "Guest");
                 r_email := normalizeEmail toLowerCase (c_email body);
                 r_password_hash := hashPassword (c_password body) |} in
  badSignup body = false
  /\ fault (db srv) = None
  /\ List.find (fun r => bool_decide (r_email r = sqlText (r_email user)))
       (rows (db srv)) = None
  /\ List.find (fun r => bool_decide (r_id r = sqlText uuid)) (rows (db srv)) = None
  /\ code = 200%nat
  /\ auth = {| a_user := rowIdentity user; a_token := None;
               a_redirect := lit "/app.html" |}
  /\ srv' = {| db := {| rows := rows (db srv) ++ [storedRow user]; fault := None |};
               sessions := <[sessionId srv cookie freshSid := rowIdentity user]>
                             (sessions srv) |}.
Proof.
  unfold sessionSignup. destruct (badSignup body); [discriminate|].
  destruct (getUserByEmail (db srv) _) as [[existing|]|e];
    [discriminate| |unfold signupCatch; destruct (decide _); discriminate].
  destruct (createUser (db srv) _) as [[created|e] d'] eqn:Ec;
    [|unfold signupCatch; destruct (decide _); discriminate].
  apply createUser_normal in Ec as (Hf & Hi & He & -> & ->).
  intros H. injection H as <- <- <-. cbn zeta. repeat split; assumption.
Qed.

Lemma sessionLogin_sent srv cookie body freshSid code auth srv' :
  sessionLogin toLowerCase hashPassword srv cookie body freshSid
  = (Sent code auth, srv') ->
  exists row,
    getUserByEmail (db srv) (normalizeEmail toLowerCase (c_email body))
    = Normal (Some row)
    /\ r_password_hash row = hashPassword (c_password body)
    /\ code = 200%nat
    /\ auth = {| a_user := rowIdentity row; a_token := None;
                 a_redirect := lit "/app.html" |}
    /\ srv' = setSessionUser srv cookie freshSid (rowIdentity row).
Proof.
  unfold sessionLogin.
  destruct (getUserByEmail (db srv) _) as [[row|]|e]; try discriminate.
  destruct (decide _) as [Hh|_]; [|discriminate].
  intros H. injection H as <- <- <-. exists row. repeat split. exact Hh.
Qed.

Lemma getUserByEmail_found d email row :
  getUserByEmail d email = Normal (Some row) ->
  fault d = None /\ row ∈ rows d /\ r_email row = sqlText email.
Proof.
  unfold getUserByEmail. destruct (fault d); [discriminate|].
  intros H. injection H as H. apply find_some in H as [Hin He].
  split; [reflexivity|]. split; [apply list_elem_of_In; exact Hin|].
  apply bool_decide_eq_true_1 in He. exact He.
Qed.

(** X16: a signup that succeeds on the server with sessions answers 200
    with the new identity, as the request gave it, and no token, and
    stores that identity in the session of the request.  The table gains
    one row, which holds the identifier, the name, the e-mail and the
    digest as the engine keeps text, and is found by the e-mail and by
    the identifier.  When the engine keeps the digest as it is, a login
    with the same e-mail and password succeeds with the identity of the
    row, which is the identity of the signup when identifier, name and
    e-mail have no surrogate code unit. *)
Theorem X16_session_signup_round_trip srv cookie body uuid freshSid code auth srv' :
  sessionSignup toLowerCase hashPassword srv cookie body uuid freshSid
  = (Sent code auth, srv') ->
  let name := orElse (trim (c_name body)) (lit "Guest") in
  let email := normalizeEmail toLowerCase (c_email body) in
  let kept := {| i_id := sqlText uuid; i_name := sqlText name;
                 i_email := sqlText email |} in
  code = 200%nat
  /\ a_token auth = None
  /\ a_user auth = {| i_id := uuid; i_name := name; i_email := email |}
  /\ name <> []
  /\ getSession srv' (Some (sessionId srv cookie freshSid)) = Sent 200 (a_user auth)
  /\ sessionRequireAuth srv' (Some (sessionId srv cookie freshSid)) = None
  /\ (exists row,
         rows (db srv') = rows (db srv) ++ [row]
         /\ rowIdentity row = kept
         /\ r_password_hash row = sqlText (hashPassword (c_password body))
         /\ getUserByEmail (db srv') email = Normal (Some row))
  /\ getUserById (db srv') uuid = Normal (Some kept)
  /\ (sqlText (hashPassword (c_password body)) = hashPassword (c_password body) ->
      forall cookie2 freshSid2,
        sessionLogin toLowerCase hashPassword srv' cookie2 body freshSid2
        = (Sent 200 {| a_user := kept; a_token := None; a_redirect := lit "/app.html" |},
           setSessionUser srv' cookie2 freshSid2 kept))
  /\ ((forall c, c ∈ uuid ++ name ++ email ->
                 isHighSurrogate c = false /\ isLowSurrogate c = false) ->
      kept = a_user auth).
Proof.
  intros H. cbn zeta.
  apply sessionSignup_sent in H as (_ & Hf & He & Hi & -> & -> & ->).
  cbn [r_email] in He.
  set (name := orElse (trim (c_name body)) (lit "Guest")) in *.
  set (email := normalizeEmail toLowerCase (c_email body)) in *.
  set (kept := {| i_id := sqlText uuid; i_name := sqlText name;
                  i_email := sqlText email |}).
  set (user := {| r_id := uuid; r_name := name; r_email := email;
                  r_password_hash := hashPassword (c_password body) |}) in *.
  assert (Hfind : getUserByEmail {| rows := rows (db srv) ++ [storedRow user];
                                    fault := None |} email
                  = Normal (Some (storedRow user))).
  { unfold getUserByEmail. cbn [fault rows]. f_equal.
    apply find_snoc_hit; [exact He|]. apply bool_decide_eq_true_2. reflexivity. }
  cbn [a_user a_token db]. split; [reflexivity|]. split; [reflexivity|].
  split; [reflexivity|].
  split; [apply orElse_nonempty; discriminate|].
  split; [unfold getSession, sessionUser; cbn [sessions];
          rewrite lookup_insert_eq; reflexivity|].
  split; [unfold sessionRequireAuth, sessionUser; cbn [sessions];
          rewrite lookup_insert_eq; reflexivity|].
  split; [exists (storedRow user); repeat split; exact Hfind|].
  split.
  { unfold getUserById. cbn [fault rows]. f_equal.
    rewrite (find_snoc_hit _ _ (storedRow user) Hi)
      by (apply bool_decide_eq_true_2; reflexivity).
    reflexivity. }
  split.
  { intros Hdigest cookie2 freshSid2. unfold sessionLogin. cbn [db]. fold email.
    rewrite Hfind. cbn [storedRow user r_password_hash].
    destruct (decide _) as [_|Hne]; [reflexivity | contradiction]. }
  intros Hplain. unfold kept, rowIdentity, user. cbn [r_id r_name r_email].
  rewrite !sqlText_plain; [reflexivity| | |]; intros c Hc; apply Hplain;
    rewrite !elem_of_app; auto.
Qed.


(** X18: a login that succeeds on the server with sessions answers with
    the identity of a row of the table whose e-mail is the normalized
    e-mail of the request, as the engine keeps text, and whose digest is
    the digest of the password, and leaves the table as it is; the
    session of the request then passes [requireAuth] and [GET /session]
    shows the identity; a logout with that session succeeds, after which
    the session is refused with status 401, while every other session is
    what it was before the login. *)
Theorem X18_session_login_logout_cycle srv cookie body freshSid code auth srv1 :
  sessionLogin toLowerCase hashPassword srv cookie body freshSid
  = (Sent code auth, srv1) ->
  let sid := sessionId srv cookie freshSid in
  (exists row,
      row ∈ rows (db srv)
      /\ rowIdentity row = a_user auth
      /\ r_email row = sqlText (normalizeEmail toLowerCase (c_email body))
      /\ r_password_hash row = hashPassword (c_password body))
  /\ db srv1 = db srv
  /\ sessionRequireAuth srv1 (Some sid) = None
  /\ getSession srv1 (Some sid) = Sent 200 (a_user auth)
  /\ exists srv2,
       sessionLogout srv1 (Some sid) = (Sent 200 true, srv2)
       /\ db srv2 = db srv
       /\ sessionRequireAuth srv2 (Some sid)
          = Some (401%nat, lit "Authentication required")
       /\ getSession srv2 (Some sid) = Refused 401 (lit "Not authenticated")
       /\ forall other, other <> sid -> sessions srv2 !! other = sessions srv !! other.
Proof.
  intros H sid. apply sessionLogin_sent in H as (row & Hrow & Hhash & -> & -> & ->).
  apply getUserByEmail_found in Hrow as (_ & Hin & Hemail).
  assert (Hs : sessionUser (setSessionUser srv cookie freshSid (rowIdentity row))
                 (Some sid) = Some (rowIdentity row)) by apply sessionId_stored.
  split; [exists row; repeat split; assumption|].
  split; [reflexivity|].
  split; [unfold sessionRequireAuth; rewrite Hs; reflexivity|].
  split; [unfold getSession; rewrite Hs; reflexivity|].
  eexists. split.
  { unfold sessionLogout, sessionRequireAuth. rewrite Hs. reflexivity. }
  cbn [db sessions setSessionUser]. fold sid. split; [reflexivity|].
  assert (Hgone : sessionUser
                    {| db := db srv;
                       sessions := delete sid (<[sid := rowIdentity row]> (sessions srv)) |}
                    (Some sid) = None)
    by (unfold sessionUser; cbn [sessions]; apply lookup_delete_eq).
  split; [unfold sessionRequireAuth; rewrite Hgone; reflexivity|].
  split; [unfold getSession; rewrite Hgone; reflexivity|].
  intros other Hne.
  rewrite lookup_delete_ne by congruence. apply lookup_insert_ne. congruence.
Qed.

(** X19: on the server with sessions a request that is refused changes
    neither the table nor the sessions, whichever of signup, login and
    logout it is; and no login or logout ever changes the table. *)
Theorem X19_refused_requests_change_nothing srv cookie body uuid freshSid code msg :
  (fst (sessionSignup toLowerCase hashPassword srv cookie body uuid freshSid)
   = Refused code msg ->
   snd (sessionSignup toLowerCase hashPassword srv cookie body uuid freshSid) = srv)
  /\ (fst (sessionLogin toLowerCase hashPassword srv cookie body freshSid)
      = Refused code msg ->
      snd (sessionLogin toLowerCase hashPassword srv cookie body freshSid) = srv)
  /\ (fst (sessionLogout srv cookie) = Refused code msg ->
      snd (sessionLogout srv cookie) = srv)
  /\ db (snd (sessionLogin toLowerCase hashPassword srv cookie body freshSid)) = db srv
  /\ db (snd (sessionLogout srv cookie)) = db srv.
Proof.
  split; [|split; [|split; [|split]]].
  - unfold sessionSignup. destruct (badSignup body); [reflexivity|].
    destruct (getUserByEmail (db srv) _) as [[existing|]|e]; try reflexivity.
    destruct (createUser (db srv) _) as [[created|e] d'] eqn:Ec; [discriminate|].
    apply createUser_throw in Ec as ->. intros _. cbn [snd]. apply server_eta.
  - unfold sessionLogin.
    destruct (getUserByEmail (db srv) _) as [[row|]|e]; try reflexivity.
    destruct (decide _); [discriminate | reflexivity].
  - unfold sessionLogout. destruct (sessionRequireAuth srv cookie) as [[c m]|];
      [reflexivity | discriminate].
  - unfold sessionLogin.
    destruct (getUserByEmail (db srv) _) as [[row|]|e]; try reflexivity.
    destruct (decide _); reflexivity.
  - unfold sessionLogout. destruct (sessionRequireAuth srv cookie) as [[c m]|];
      reflexivity.
Qed.
End SessionAccounts.

Lemma ann_opens_an_account :
  sessionSignup sampleLower sampleHash
    {| db := {| rows := []; fault := None |}; sessions := ∅ |}
    None ann annUUID (lit "sid-1")
  = (Sent 200 {| a_user := {| i_id := annUUID; i_name := lit "Ann";
                              i_email := lit "ann@example.org" |};
                 a_token := None; a_redirect := lit "/app.html" |},
     serverWithAnn).
Proof.
  unfold serverWithAnn.
  rewrite (surjective_pairing (sessionSignup _ _ _ _ _ _ _)) at 1.
  f_equal.
Qed.

Lemma ann_row_found :
  getUserByEmail (db serverWithAnn) (lit "ann@example.org")
  = Normal (Some {| r_id := annUUID; r_name := lit "Ann";
                    r_email := lit "ann@example.org";
                    r_password_hash := lit "sha256:secret1" |}).
Proof. vm_compute. reflexivity. Qed.

Lemma ann_signs_in :
  sessionLogin sampleLower sampleHash serverWithAnn None ann (lit "sid-2")
  = (Sent 200 {| a_user := {| i_id := annUUID; i_name := lit "Ann";
                              i_email := lit "ann@example.org" |};
                 a_token := None; a_redirect := lit "/app.html" |},
     setSessionUser serverWithAnn None (lit "sid-2")
       {| i_id := annUUID; i_name := lit "Ann"; i_email := lit "ann@example.org" |}).
Proof.
  unfold sessionLogin.
  change (normalizeEmail sampleLower (c_email ann)) with (lit "ann@example.org").
  rewrite ann_row_found. destruct (decide _) as [_|Hne]; [reflexivity|].
  exfalso. apply Hne. reflexivity.
Qed.

(** On the sample account: Ann signs in after she opened her account. *)
Lemma X16_session_signup_round_trip_witness :
  sessionLogin sampleLower sampleHash serverWithAnn None ann (lit "sid-2")
  = (Sent 200 {| a_user := {| i_id := annUUID; i_name := lit "Ann";
                              i_email := lit "ann@example.org" |};
                 a_token := None; a_redirect := lit "/app.html" |},
     setSessionUser serverWithAnn None (lit "sid-2")
       {| i_id := annUUID; i_name := lit "Ann"; i_email := lit "ann@example.org" |}).
Proof.
  destruct (X16_session_signup_round_trip sampleLower sampleHash _ _ _ _ _ _ _ _
              ann_opens_an_account)
    as (_ & _ & _ & _ & _ & _ & _ & _ & Hlogin & _).
  apply (Hlogin eq_refl None (lit "sid-2")).
Defined.


(** On the sample account: Ann signs in and out again. *)
Lemma X18_session_login_logout_cycle_witness :
  exists srv1 srv2,
    sessionLogin sampleLower sampleHash serverWithAnn None ann (lit "sid-2")
    = (Sent 200 {| a_user := {| i_id := annUUID; i_name := lit "Ann";
                                i_email := lit "ann@example.org" |};
                   a_token := None; a_redirect := lit "/app.html" |}, srv1)
    /\ sessionLogout srv1 (Some (lit "sid-2")) = (Sent 200 true, srv2)
    /\ sessionRequireAuth srv2 (Some (lit "sid-2"))
       = Some (401%nat, lit "Authentication required").
Proof.
  eexists.
  destruct (X18_session_login_logout_cycle sampleLower sampleHash _ _ _ _ _ _ _
              ann_signs_in) as (_ & _ & _ & _ & srv2 & Hout & _ & Hauth & _).
  exists srv2. split; [reflexivity|]. split; [exact Hout | exact Hauth].
Defined.

(** On the sample account: a login with an unknown e-mail. *)
Lemma X19_refused_requests_change_nothing_witness :
  snd (sessionLogin sampleLower sampleHash serverWithAnn None stranger (lit "sid-2"))
  = serverWithAnn.
Proof.
  destruct (X19_refused_requests_change_nothing sampleLower sampleHash serverWithAnn
              None stranger (lit "uuid-2") (lit "sid-2") 401%nat invalidLogin)
    as (_ & Hlogin & _).
  apply Hlogin. vm_compute. reflexivity.
Defined.

(** ** Sheet titles *)

Lemma isSheetForbidden_Sheet : Forall (fun c => sheetChar c = true) (lit "Sheet").
Proof. repeat constructor. Qed.

Lemma filter_all {A} (f : A -> bool) l :
  Forall (fun c => f c = true) l -> List.filter f l = l.
Proof.
  induction 1 as [|c l Hc _ IH]; [reflexivity|].
  cbn [List.filter]. rewrite Hc, IH. reflexivity.
Qed.

Lemma sheet_filter_clean name :
  Forall (fun c => sheetChar c = true) (take 30 (List.filter sheetChar name)).
Proof.
  apply Forall_take, Forall_forall. intros c Hc.
  apply list_elem_of_In, filter_In in Hc as [_ Hc]. exact Hc.
Qed.

Lemma sanitizeSheetTitle_clean name :
  Forall (fun c => sheetChar c = true) (sanitizeSheetTitle name).
Proof.
  unfold sanitizeSheetTitle. pose proof (sheet_filter_clean name) as H.
  destruct (take 30 (List.filter sheetChar name)); [|exact H].
  exact isSheetForbidden_Sheet.
Qed.

Lemma sanitizeSheetTitle_short name : (length (sanitizeSheetTitle name) <= 30)%nat.
Proof.
  unfold sanitizeSheetTitle.
  pose proof (length_take (List.filter sheetChar name) 30%nat) as H.
  destruct (take 30 (List.filter sheetChar name)) as [|c t] eqn:E.
  - cbn [orElse]. vm_compute. lia.
  - cbn [orElse]. rewrite H. apply Nat.le_min_l.
Qed.

Lemma sanitizeSheetTitle_fixed name :
  name <> [] -> (length name <= 30)%nat -> Forall (fun c => sheetChar c = true) name ->
  sanitizeSheetTitle name = name.
Proof.
  intros Hne Hlen Hclean. unfold sanitizeSheetTitle.
  rewrite (filter_all _ _ Hclean), take_ge by exact Hlen.
  destruct name; [contradiction | reflexivity].
Qed.

Lemma isSheetForbidden_class c :
  isSheetForbidden c = true <-> c ∈ lit "[]*/\?:.".
Proof.
  unfold isSheetForbidden. rewrite !orb_true_iff, !N.eqb_eq.
  change (lit "[]*/\?:.") with [91; 93; 42; 47; 92; 63; 58; 46].
  rewrite !elem_of_cons, elem_of_nil. tauto.
Qed.

(** X21: the title [sanitizeSheetTitle] gives is never empty, has at most
    30 code units and none of [[ ] * / \ ? : .].  It is the name without
    those characters, cut after 30 code units, and ["Sheet"] when the
    name has no other characters; so a name that is already such a title
    is returned as it is, and sanitizing twice is sanitizing once. *)
Theorem X21_sanitizeSheetTitle_is_a_title name :
  let kept := List.filter (fun c => negb (isSheetForbidden c)) name in
  (forall c, isSheetForbidden c = true <-> c ∈ lit "[]*/\?:.")
  /\ sanitizeSheetTitle name <> []
  /\ (length (sanitizeSheetTitle name) <= 30)%nat
  /\ Forall (fun c => isSheetForbidden c = false) (sanitizeSheetTitle name)
  /\ (kept = [] -> sanitizeSheetTitle name = lit "Sheet")
  /\ (kept <> [] ->
      exists rest,
        kept = sanitizeSheetTitle name ++ rest
        /\ (rest = [] \/ length (sanitizeSheetTitle name) = 30%nat))
  /\ (name <> [] -> (length name <= 30)%nat ->
      Forall (fun c => isSheetForbidden c = false) name ->
      sanitizeSheetTitle name = name)
  /\ sanitizeSheetTitle (sanitizeSheetTitle name) = sanitizeSheetTitle name.
Proof.
  intros kept.
  assert (Hne : sanitizeSheetTitle name <> []).
  { unfold sanitizeSheetTitle. apply orElse_nonempty. discriminate. }
  split; [exact isSheetForbidden_class|].
  split; [exact Hne|]. split; [apply sanitizeSheetTitle_short|].
  split.
  { eapply Forall_impl; [apply sanitizeSheetTitle_clean|].
    intros c Hc. unfold sheetChar in Hc. apply negb_true_iff. exact Hc. }
  split.
  { intros Hnil. unfold sanitizeSheetTitle. fold sheetChar in kept.
    change (List.filter sheetChar name) with kept. rewrite Hnil. reflexivity. }
  split.
  { intros Hkept. unfold sanitizeSheetTitle. change (List.filter sheetChar name) with kept.
    exists (drop 30 kept).
    destruct (take 30 kept) as [|c t] eqn:E.
    - destruct kept; [congruence | discriminate].
    - cbn [orElse]. rewrite <- E. split; [symmetry; apply take_drop|].
      destruct (Nat.le_gt_cases (length kept) 30) as [Hle|Hgt].
      + left. apply drop_ge. exact Hle.
      + right. rewrite length_take. lia. }
  split.
  { intros Hname Hlen Hclean. apply sanitizeSheetTitle_fixed; [exact Hname | exact Hlen|].
    eapply Forall_impl; [exact Hclean|]. intros c Hc. unfold sheetChar. rewrite Hc.
    reflexivity. }
  apply sanitizeSheetTitle_fixed;
    [exact Hne | apply sanitizeSheetTitle_short | apply sanitizeSheetTitle_clean].
Qed.

(** ** The list of files of the client *)

Lemma handleFiles_room {A} (files selectedFiles : list A) :
  (length files <= 5)%nat ->
  handleFiles files selectedFiles = files ++ take (5 - length files) selectedFiles.
Proof.
  intros Hlen. unfold handleFiles, sliceTo. f_equal.
  destruct (Z.ltb_spec (5 - Z.of_nat (length files)) 0) as [Hneg|_]; [lia|].
  destruct (Z.min_spec (5 - Z.of_nat (length files)) (Z.of_nat (length selectedFiles)))
    as [[Hlt ->]|[Hge ->]].
  - f_equal. lia.
  - rewrite Nat2Z.id. rewrite !take_ge by lia. reflexivity.
Qed.

Lemma handleFiles_length {A} (files selectedFiles : list A) :
  (length files <= 5)%nat ->
  length (handleFiles files selectedFiles)
  = Nat.min 5 (length files + length selectedFiles).
Proof.
  intros Hlen. rewrite handleFiles_room by exact Hlen.
  rewrite length_app, length_take. lia.
Qed.

Lemma removeFile_length {A} (files : list A) index :
  (length (removeFile files index) <= length files)%nat.
Proof.
  unfold removeFile. rewrite length_app, length_take, length_drop. lia.
Qed.

Lemma fileStep_bound {A} (files : list A) e :
  (length files <= 5)%nat -> (length (fileStep files e) <= 5)%nat.
Proof.
  intros Hlen. destruct e as [selectedFiles|index]; cbn [fileStep].
  - rewrite handleFiles_length by exact Hlen. lia.
  - pose proof (removeFile_length files index). lia.
Qed.

(** X22: whatever files are chosen, dropped and removed, in whatever
    order, the list of the client never holds more than five files, the
    number the upload route accepts; choosing files keeps the files that
    are listed and adds the first of the chosen ones, as many as there is
    room for. *)
Theorem X22_client_lists_at_most_five {A} (events : list (fileEvent A))
    (selectedFiles : list A) :
  (length (filesAfter events) <= 5)%nat
  /\ handleFiles (filesAfter events) selectedFiles
     = filesAfter events ++ take (5 - length (filesAfter events)) selectedFiles
  /\ length (handleFiles (filesAfter events) selectedFiles)
     = Nat.min 5 (length (filesAfter events) + length selectedFiles).
Proof.
  assert (Hbound : (length (filesAfter events) <= 5)%nat).
  { unfold filesAfter.
    assert (Hgen : forall (start : list A),
               (length start <= 5)%nat ->
               (length (fold_left fileStep events start) <= 5)%nat).
    { induction events as [|e events IH]; intros start Hs; [exact Hs|].
      cbn [fold_left]. apply IH, fileStep_bound, Hs. }
    apply Hgen. cbn [length]. lia. }
  split; [exact Hbound|].
  split; [apply handleFiles_room | apply handleFiles_length]; exact Hbound.
Qed.

(** ** A label before the object *)






(** ** Errors inside the loop *)

(** X23: whatever throws while a file is worked on, the PDF parser or
    the call of the model, the file gets a failed entry whose [error] is
    the message that was thrown, or ["Failed to parse PDF"] when the
    message is empty; the loop goes on. *)
Theorem X23_whatever_throws_fails_the_file
    (getText : list N -> completion PdfText)
    (reviewModel : option (jsstring -> completion jsstring))
    (pathParseName toLowerCase : jsstring -> jsstring) v uuid file e :
  (getText (buffer file) = Throw e
   \/ exists t generate,
        getText (buffer file) = Normal t
        /\ trim (orElse (default [] (pdf_text t)) []) <> []
        /\ reviewModel = Some generate
        /\ generate (buildPrompt (trim (orElse (default [] (pdf_text t)) [])))
           = Throw e) ->
  analyzeFile getText reviewModel pathParseName toLowerCase v uuid file
  = Normal (failedResult uuid file (orElse (message e) (lit "Failed to parse PDF"))).
Proof.
  unfold analyzeFile, extractTextFromPdf.
  intros [Hg|(t & generate & Hg & Hne & -> & Hm)]; rewrite Hg; run; [reflexivity|].
  destruct (trim (orElse (default [] (pdf_text t)) [])) as [|c text];
    [contradiction|].
  unfold summarizeForReview. rewrite Hm. run. reflexivity.
Qed.

(** On the first file of the sample run, with a model that is out of
    quota. *)
Lemma X23_whatever_throws_fails_the_file_witness :
  analyzeFile sampleGetText (Some (fun _ => Throw (Error (lit "Quota exceeded."))))
    sampleBaseName sampleLower SessionServer (lit "uuid-0")
    (mkFile (lit "a.pdf") (lit "application/pdf") [1])
  = Normal (failedResult (lit "uuid-0")
              (mkFile (lit "a.pdf") (lit "application/pdf") [1])
              (lit "Quota exceeded.")).
Proof.
  apply (X23_whatever_throws_fails_the_file sampleGetText
           (Some (fun _ => Throw (Error (lit "Quota exceeded."))))
           sampleBaseName sampleLower SessionServer (lit "uuid-0")
           (mkFile (lit "a.pdf") (lit "application/pdf") [1])
           (Error (lit "Quota exceeded."))).
  right. eexists _, _. split; [reflexivity|]. split; [vm_compute; discriminate|].
  split; reflexivity.
Defined.

(** ** The properties above on sample data *)

(** On a word between typographic quotes: the letter stays. *)
Lemma X1_normalizeQuotes_cleans_witness :
  normalizeQuotes [8220; 97; 8221] !! 1%nat = Some 97.
Proof.
  destruct (X1_normalizeQuotes_cleans [8220; 97; 8221]) as (_ & _ & Hkeep & _).
  apply Hkeep; reflexivity.
Defined.

(** On a text without braces. *)
Lemma X4_extractJsonBlock_null_witness : extractJsonBlock (lit "no braces") = None.
Proof.
  apply (proj2 (X4_extractJsonBlock_null (lit "no braces"))).
  intros pre mid post H.
  assert (Hno : LBRACE ∉ lit "no braces") by (apply indexOf_None; reflexivity).
  apply Hno. rewrite H. apply elem_of_app. right. left.
Defined.


(** On the sample account: the header that is admitted names a key of the
    store. *)
Lemma X11_bearer_admission_witness :
  exists token,
    Some (lit "Bearer " ++ annToken) = Some (lit "Bearer " ++ token)
    /\ storeWithAnn !! token
       = Some {| e_id := annUUID; e_name := lit "Ann";
                 e_email := lit "ann@example.org"; e_passwordHash := None |}.
Proof.
  destruct (X11_bearer_admission storeWithAnn (Some (lit "Bearer " ++ annToken)))
    as [Hadm _].
  apply Hadm. exact ann_token_admitted.
Defined.

(** On a name that is a title already, and on a name made of brackets
    and a dot. *)
Lemma X21_sanitizeSheetTitle_is_a_title_witness :
  sanitizeSheetTitle (lit "Paper 1") = lit "Paper 1"
  /\ sanitizeSheetTitle (lit "[.]") = lit "Sheet".
Proof.
  destruct (X21_sanitizeSheetTitle_is_a_title (lit "Paper 1"))
    as (_ & _ & _ & _ & _ & _ & Hsame & _).
  destruct (X21_sanitizeSheetTitle_is_a_title (lit "[.]"))
    as (_ & _ & _ & _ & Hsheet & _).
  split.
  - apply Hsame; [discriminate | vm_compute; lia | repeat constructor].
  - apply Hsheet. reflexivity.
Defined.

(** ** The ladder of the specification *)

Lemma stripLeadingFence_shape t :
  exists lead rest,
    t = lead ++ rest
    /\ stripLeadingFence t = rest
    /\ ((lead = [] /\ forall r, t <> fence ++ r)
        \/ exists tag w,
             lead = fence ++ tag ++ w
             /\ Forall (fun c => isAlnum c = true) tag
             /\ Forall (fun c => isWhite c = true) w
             /\ forall c r, rest = c :: r ->
                            isWhite c = false /\ (w = [] -> isAlnum c = false)).
Proof.
  unfold stripLeadingFence. destruct (starts_with fence t) as [r|] eqn:E.
  - apply starts_with_Some in E.
    destruct (drop_while_suffix isAlnum r) as (tag & Hr & Htag).
    destruct (drop_while_suffix isWhite (drop_while isAlnum r)) as (w & Hr1 & Hw).
    exists (fence ++ tag ++ w), (drop_while isWhite (drop_while isAlnum r)).
    split; [rewrite E, Hr at 1; rewrite Hr1 at 1; same_list|].
    split; [reflexivity|]. right. exists tag, w.
    split; [reflexivity|]. split; [exact Htag|]. split; [exact Hw|].
    intros c r' Hc. split; [eapply drop_while_head; exact Hc|].
    intros ->. cbn [app] in Hr1. rewrite <- Hr1 in Hc.
    eapply drop_while_head. exact Hc.
  - exists [], t. split; [reflexivity|]. split; [reflexivity|]. left.
    split; [reflexivity|]. intros r Hr. apply starts_with_Some in Hr. congruence.
Qed.

Lemma stripTrailingFence_shape rest :
  exists middle trail,
    rest = middle ++ trail
    /\ stripTrailingFence rest = middle
    /\ ((trail = [] /\ forall r, middle <> r ++ fence) \/ trail = fence).
Proof.
  unfold stripTrailingFence. destruct (starts_with fence (rev rest)) as [x|] eqn:E.
  - apply starts_with_Some in E. exists (rev x), fence.
    split; [|split; [reflexivity | right; reflexivity]].
    apply (f_equal (@rev cu)) in E. rewrite rev_involutive, rev_app_distr in E.
    exact E.
  - exists rest, []. split; [symmetry; apply app_nil_r|]. split; [reflexivity|].
    left. split; [reflexivity|]. intros r Hr.
    assert (Hs : starts_with fence (rev rest) = Some (rev r)).
    { apply starts_with_Some. rewrite Hr, rev_app_distr. reflexivity. }
    congruence.
Qed.

(** Step 1 is what [stripCodeFences] does. *)
Lemma stripCodeFences_fenceStripped raw : fenceStripped raw (stripCodeFences raw).
Proof.
  unfold stripCodeFences.
  destruct (stripLeadingFence_shape (trim raw)) as (lead & rest & Ht & Hlead & Hcase).
  destruct (stripTrailingFence_shape rest) as (middle & trail & Hrest & Htrail & Hend).
  exists lead, middle, trail. rewrite Hlead, Htrail.
  split; [rewrite Ht, Hrest; reflexivity|]. split; [reflexivity|].
  split; [|exact Hend].
  destruct Hcase as [Hno|(tag & w & Hl & Htag & Hw & Hhead)]; [left; exact Hno|].
  right. exists tag, w. rewrite <- Hrest. repeat split; try assumption.
  all: intros; eapply Hhead; eauto.
Qed.

Lemma isSingleSmart_list c :
  isSingleSmart c = bool_decide (c ∈ [8216; 8217; 8218; 8219; 8242; 8245]).
Proof.
  unfold isSingleSmart. destruct (bool_decide_reflect (c ∈ [8216; 8217; 8218; 8219; 8242; 8245]))
    as [Hin|Hout].
  - repeat (apply elem_of_cons in Hin as [->|Hin]; [reflexivity|]). inversion Hin.
  - repeat match goal with
           | |- _ || _ = false => apply orb_false_intro
           end;
      apply N.eqb_neq; intros ->; apply Hout; repeat constructor.
Qed.

Lemma isDoubleSmart_list c :
  isDoubleSmart c = bool_decide (c ∈ [8220; 8221; 8222; 8223; 8243; 8246]).
Proof.
  unfold isDoubleSmart. destruct (bool_decide_reflect (c ∈ [8220; 8221; 8222; 8223; 8243; 8246]))
    as [Hin|Hout].
  - repeat (apply elem_of_cons in Hin as [->|Hin]; [reflexivity|]). inversion Hin.
  - repeat match goal with
           | |- _ || _ = false => apply orb_false_intro
           end;
      apply N.eqb_neq; intros ->; apply Hout; repeat constructor.
Qed.

(** Step 2 is what [normalizeQuotes] does. *)
Lemma normalizeQuotes_quoteNormalized text : quoteNormalized text (normalizeQuotes text).
Proof.
  rewrite normalizeQuotes_map. split; [apply length_map|].
  intros i c Hc. etransitivity; [exact (lookup_map normalizeQuote text i c Hc)|]. f_equal.
  unfold normalizeQuote. rewrite <- isSingleSmart_list, <- isDoubleSmart_list.
  destruct (isSingleSmart c); reflexivity.
Qed.

Lemma isLabel_test j s o n : isLabel j s o n <-> isJ j && isS s && isO o && isN n = true.
Proof.
  unfold isLabel, isJ, isS, isO, isN.
  rewrite !andb_true_iff, !orb_true_iff, !N.eqb_eq.
  rewrite !elem_of_cons, !elem_of_nil. tauto.
Qed.

Lemma drop_while_idem p s : drop_while p (drop_while p s) = drop_while p s.
Proof.
  induction s as [|c s IH]; [reflexivity|]. cbn [drop_while].
  destruct (p c) eqn:Hc; [exact IH|]. cbn [drop_while]. rewrite Hc. reflexivity.
Qed.

(** Step 3 is what [stripJsonPrefix] does. *)
Lemma stripJsonPrefix_prefixStripped text : prefixStripped text (stripJsonPrefix text).
Proof.
  split.
  - intros j s o n rest -> Hl. apply isLabel_test in Hl.
    unfold stripJsonPrefix. rewrite Hl.
    unfold trim, trimStart. rewrite drop_while_idem. reflexivity.
  - intros Hno. unfold stripJsonPrefix.
    destruct text as [|j [|s [|o [|n rest]]]]; try reflexivity.
    destruct (isJ j && isS s && isO o && isN n) eqn:E; [|reflexivity].
    apply isLabel_test in E. destruct (Hno j s o n rest eq_refl E).
Qed.

(** Step 4 is what [extractJsonBlock] does. *)
Lemma extractJsonBlock_braceBlock text : braceBlock text (extractJsonBlock text).
Proof.
  intros b. split; [apply extractJsonBlock_Some|].
  intros (pre & mid & post & -> & Hpre & Hpost & ->).
  etransitivity; [|exact (extractJsonBlock_found pre mid post Hpre Hpost)].
  f_equal. same_list.
Qed.

(** C4: for a non-empty reply the result of coercion is the value of the
    first of four candidates that [JSON.parse] accepts, [null] when none
    parses.  The candidates are, in this order: the text with its fences
    stripped and its quotes normalized; that text with a leading [json]
    stripped; the substring from the first [{] to the last [}] of the
    first; the same substring of the second. *)
Theorem C4_first_candidate_that_parses raw :
  raw <> [] ->
  let cleaned := stripCodeFences raw in
  let normalized := normalizeQuotes cleaned in
  let withoutPrefix := stripJsonPrefix normalized in
  let block1 := extractJsonBlock normalized in
  let block2 := extractJsonBlock withoutPrefix in
  fenceStripped raw cleaned
  /\ quoteNormalized cleaned normalized
  /\ prefixStripped normalized withoutPrefix
  /\ braceBlock normalized block1
  /\ braceBlock withoutPrefix block2
  /\ coerceModelJson raw
     = Normal (default JNull
                 (firstParsed [Some normalized; Some withoutPrefix; block1; block2])).
Proof.
  intros Hne cleaned normalized withoutPrefix block1 block2.
  split; [apply stripCodeFences_fenceStripped|].
  split; [apply normalizeQuotes_quoteNormalized|].
  split; [apply stripJsonPrefix_prefixStripped|].
  split; [apply extractJsonBlock_braceBlock|].
  split; [apply extractJsonBlock_braceBlock|].
  unfold coerceModelJson. destruct raw as [|c raw]; [congruence|].
  apply tryCandidates_firstParsed.
Qed.

(** On the reply [json {}] on a line of its own between fences: the
    normalized text is [json {}], which is no JSON; without its label it
    is [{}], which parses. *)
Lemma C4_first_candidate_that_parses_witness :
  fence ++ [LF] ++ lit "json {}" ++ [LF] ++ fence <> []
  /\ fenceStripped (fence ++ [LF] ++ lit "json {}" ++ [LF] ++ fence) (lit "json {}")
  /\ prefixStripped (lit "json {}") (lit "{}")
  /\ braceBlock (lit "json {}") (Some (lit "{}"))
  /\ coerceModelJson (fence ++ [LF] ++ lit "json {}" ++ [LF] ++ fence) = Normal (JObject []).
Proof.
  assert (Hne : fence ++ [LF] ++ lit "json {}" ++ [LF] ++ fence <> []) by discriminate.
  split; [exact Hne|].
  destruct (C4_first_candidate_that_parses (fence ++ [LF] ++ lit "json {}" ++ [LF] ++ fence) Hne)
    as (H1 & _ & H3 & H4 & _ & H6).
  assert (Ec : stripCodeFences (fence ++ [LF] ++ lit "json {}" ++ [LF] ++ fence) = lit "json {}")
    by (vm_compute; reflexivity).
  rewrite Ec in H1, H3, H4.
  assert (En : normalizeQuotes (lit "json {}") = lit "json {}")
    by (vm_compute; reflexivity).
  rewrite En in H3, H4.
  assert (Ep : stripJsonPrefix (lit "json {}") = lit "{}") by (vm_compute; reflexivity).
  rewrite Ep in H3.
  assert (Eb : extractJsonBlock (lit "json {}") = Some (lit "{}"))
    by (vm_compute; reflexivity).
  rewrite Eb in H4.
  split; [exact H1|]. split; [exact H3|]. split; [exact H4|].
  rewrite H6. vm_compute. reflexivity.
Defined.
